(** * The match round engine of the memory games

    A shallow embedding of the round life-cycle shared by the Streamlit
    scripts [memory_match.py] (both saved versions carry the same engine) and
    [match.py]: the deck built by [new_game], the click handler
    [on_card_click] (the spec's [flip]) and the time-based hide of a
    mismatched pair that each script runs on every redraw (the spec's
    [tick]).

    Conventions of the embedding.
    - Session state is an explicit record threaded through every operation.
    - Card positions are Python integers, hence [Z]; the sets [revealed] and
      [matched] are [gset Z].
    - Clock readings ([time.time()]) are non-negative, and only their order
      and the fixed delay matter: they are counted in milliseconds in [N].
      [0] is the value the scripts use for "no hide pending".
    - [random.sample] and [random.shuffle] draw from a source of randomness;
      the draws are an explicit argument of [new_game].
    - An exception leaves the session as mutated so far; [Raised] carries
      that session. *)

From Stdlib Require Import ZArith NArith String Lia.
From stdpp Require Import strings numbers gmap sets list.

#[local] Set Warnings "-clear-no-such-hyp".

(** ** Python built-ins used by the scripts *)

Module Py.

Inductive exn : Set := IndexError | ValueError.

(** [l[i]]: a negative index counts from the end, anything outside
    [-len(l) .. len(l)-1] raises [IndexError] (here: [None]). *)
Definition getitem {A} (l : list A) (i : Z) : option A :=
  if decide (0 ≤ i)%Z then l !! Z.to_nat i
  else if decide (0 ≤ Z.of_nat (length l) + i)%Z
       then l !! Z.to_nat (Z.of_nat (length l) + i)
       else None.

(** Selection without replacement: [k] elements of [l] at pairwise distinct
    positions, in the order drawn.  Draw number [n] picks among the
    [len(l) - n] elements still available. *)
Fixpoint draw {A} (k : nat) (l : list A) (draws : list nat) : list A :=
  match k with
  | O => []
  | S k' =>
      let j := (hd 0 draws `mod` length l)%nat in
      match l !! j with
      | Some x => x :: draw k' (delete j l) (tl draws)
      | None => []
      end
  end.

(** [random.sample(population, k)]: [ValueError] when the sample is larger
    than the population. *)
Definition sample {A} (population : list A) (k : nat) (draws : list nat)
  : exn + list A :=
  if decide (k ≤ length population)%nat
  then inr (draw k population draws)
  else inl ValueError.

(** [random.shuffle(l)]: the elements of [l] in a drawn order. *)
Definition shuffle {A} (l : list A) (draws : list nat) : list A :=
  draw (length l) l draws.

End Py.

(** ** Control-flow paths of a click

    Each constructor is one way out of [on_card_click], with the session as
    the handler leaves it. *)
Inductive outcome (S : Type) : Type :=
  | Ignored (s : S)              (* an early [return]: the tap is dropped *)
  | FaceUp (s : S)               (* card turned, no comparison made *)
  | GoodMatch (s : S)            (* second card, symbols equal *)
  | TryAgain (s : S)             (* second card, symbols differ *)
  | Raised (e : Py.exn) (s : S). (* an exception escaped the handler *)
Arguments Ignored {S} s.
Arguments FaceUp {S} s.
Arguments GoodMatch {S} s.
Arguments TryAgain {S} s.
Arguments Raised {S} e s.

Definition state_of {S} (o : outcome S) : S :=
  match o with
  | Ignored s | FaceUp s | GoodMatch s | TryAgain s | Raised _ s => s
  end.

Definition raises {S} (o : outcome S) : bool :=
  match o with Raised _ _ => true | _ => false end.

Definition accepted {S} (o : outcome S) : bool :=
  match o with Ignored _ => false | _ => true end.

(** Pair-comparisons that ended in a match: 1 for [GoodMatch], else 0. *)
Definition good_matches {S} (o : outcome S) : nat :=
  match o with GoodMatch _ => 1 | _ => 0 end.

(** The positions the render loop offers: [idx] runs over [0 .. len(deck)-1]. *)
Definition on_board (d : list string) (i : Z) : Prop :=
  (0 ≤ i < Z.of_nat (length d))%Z.

Definition board (d : list string) : gset Z :=
  list_to_set (seqZ 0 (Z.of_nat (length d))).

(** ** memory_match.py *)

Module MemoryMatch.

Definition THEMES : list (string * list string) :=
  [ ("Animals"%string,
     ["🐶";"🐱";"🐭";"🐹";"🐰";"🦊";"🐻";"🐼";"🐨";"🦁";"🐷";"🐸";"🐵";"🐮";"🐯";"🦒"]%string);
    ("Shapes & Colors"%string,
     ["🔴";"🟠";"🟡";"🟢";"🔵";"🟣";"🟤";"⚫️";"⚪️";"🟥";"🟧";"🟨";"🟩";"🟦";"🟪";"⬛️"]%string);
    ("Smiles"%string,
     ["😀";"😃";"😄";"😁";"😆";"😊";"🙂";"😉";"😎";"🤩";"🥳";"🤗";"🤠";"😺";"😸";"😹"]%string) ].

(** [st.session_state] as far as the engine uses it. *)
Record session : Type := Session {
  deck : list string;
  revealed : gset Z;        (* indexes currently face-up *)
  matched : gset Z;         (* indexes permanently solved *)
  moves : Z;
  pending_hide_at : N;      (* when to hide a mismatch; 0: nothing pending *)
  started_at : N;
  finished : bool
}.

Definition set_revealed (r : gset Z) (s : session) : session :=
  Session (deck s) r (matched s) (moves s) (pending_hide_at s) (started_at s) (finished s).
Definition set_matched (m : gset Z) (s : session) : session :=
  Session (deck s) (revealed s) m (moves s) (pending_hide_at s) (started_at s) (finished s).
Definition set_moves (n : Z) (s : session) : session :=
  Session (deck s) (revealed s) (matched s) n (pending_hide_at s) (started_at s) (finished s).
Definition set_pending_hide_at (t : N) (s : session) : session :=
  Session (deck s) (revealed s) (matched s) (moves s) t (started_at s) (finished s).
Definition set_finished (b : bool) (s : session) : session :=
  Session (deck s) (revealed s) (matched s) (moves s) (pending_hide_at s) (started_at s) b.

(** [new_game()], with [pool] the list [THEMES[theme]] and [pairs] the
    slider value; [picks] and [order] are the draws of [random.sample] and
    [random.shuffle], [now] the clock. *)
Definition new_game (pool : list string) (pairs : nat)
    (picks order : list nat) (now : N) : Py.exn + session :=
  match Py.sample pool pairs picks with
  | inl e => inl e
  | inr symbols =>
      let deck := Py.shuffle (symbols ++ symbols) order in
      inr (Session deck ∅ ∅ 0 0 now false)
  end.

(** The time-based hide that runs on every redraw:
    [if pending_hide and now >= pending_hide: ...]. *)
Definition tick (now : N) (s : session) : session :=
  if negb (pending_hide_at s =? 0)%N && (pending_hide_at s <=? now)%N
  then set_pending_hide_at 0 (set_revealed ∅ s)
  else s.

(** [on_card_click(i)]; [now] is the clock read on a mismatch. *)
Definition on_card_click (now : N) (s : session) (i : Z) : outcome session :=
  if bool_decide (i ∈ matched s) || bool_decide (i ∈ revealed s) || finished s
  then Ignored s
  else if negb (pending_hide_at s =? 0)%N
  then Ignored s
  else
    let s := set_revealed (revealed s ∪ {[ i ]}) s in
    if bool_decide (size (revealed s) = 2%nat) then
      let s := set_moves (moves s + 1) s in
      match elements (revealed s) with
      | [i1; i2] =>
          match Py.getitem (deck s) i1, Py.getitem (deck s) i2 with
          | Some c1, Some c2 =>
              if bool_decide (c1 = c2) then
                let s := set_matched (matched s ∪ revealed s) s in
                let s := set_revealed ∅ s in
                if bool_decide (size (matched s) = length (deck s))
                then GoodMatch (set_finished true s)
                else GoodMatch s
              else TryAgain (set_pending_hide_at (now + 800) s)
          | _, _ => Raised Py.IndexError s
          end
      | _ => Raised Py.ValueError s
      end
    else FaceUp s.

(** The sessions a round can be in: the page is redrawn at some clock
    reading, or the render loop reports a tap on one of the cards it drew
    ([idx] below [len(deck)]).  The index counts the pair-comparisons that
    ended in a match since the round began in [s0]. *)
Inductive reach (s0 : session) : nat → session → Prop :=
  | reach_new : reach s0 0 s0
  | reach_tick k s now :
      reach s0 k s → reach s0 k (tick now s)
  | reach_flip k s now i :
      reach s0 k s → on_board (deck s) i →
      reach s0 (k + good_matches (on_card_click now s i))
               (state_of (on_card_click now s i)).

(** *** Vocabulary of the properties *)

(** The taps [on_card_click] drops: the card is solved or already face-up,
    the round is over, or a mismatch is still on display. *)
Definition blocked (s : session) (i : Z) : Prop :=
  i ∈ matched s ∨ i ∈ revealed s ∨ finished s = true ∨ pending_hide_at s ≠ 0%N.

(** The session after the equal-symbols branch of a comparison. *)
Definition after_match (s : session) (i : Z) : session :=
  let s := set_moves (moves s + 1) (set_revealed (revealed s ∪ {[ i ]}) s) in
  let s := set_revealed ∅ (set_matched (matched s ∪ revealed s) s) in
  if bool_decide (size (matched s) = length (deck s))
  then set_finished true s else s.

(** The session after the different-symbols branch. *)
Definition after_mismatch (now : N) (s : session) (i : Z) : session :=
  set_pending_hide_at (now + 800)
    (set_moves (moves s + 1) (set_revealed (revealed s ∪ {[ i ]}) s)).

(** A round as [new_game] leaves it. *)
Definition fresh (s : session) : Prop :=
  revealed s = ∅ ∧ matched s = ∅ ∧ moves s = 0%Z ∧
  pending_hide_at s = 0%N ∧ finished s = false.

(** What holds of a session [k] matches into a round. *)
Record round_inv (k : nat) (s : session) : Prop := RoundInv {
  inv_revealed_board : revealed s ⊆ board (deck s);
  inv_matched_board : matched s ⊆ board (deck s);
  inv_disjoint : revealed s ## matched s;
  inv_revealed_size : size (revealed s) ≤ 2;
  inv_locked : size (revealed s) = 2 → pending_hide_at s ≠ 0%N;
  inv_matched_size : size (matched s) = 2 * k;
  inv_finished : finished s = true → size (matched s) = length (deck s);
  inv_won : 0 < size (matched s) → size (matched s) = length (deck s) →
            finished s = true
}.

(** Redraws [nows] in a row. *)
Definition ticks (nows : list N) (s : session) : session :=
  foldl (λ s now, tick now s) s nows.

(** The page as a driver of the engine: a list of redraws and taps, where a
    tap is only ever on a card the render loop drew. *)
Inductive event : Set :=
  | Tick (now : N)
  | Flip (now : N) (i : Z).

Fixpoint play (k : nat) (s : session) (es : list event) : option (nat * session) :=
  match es with
  | [] => Some (k, s)
  | Tick now :: es => play k (tick now s) es
  | Flip now i :: es =>
      if bool_decide (on_board (deck s) i)
      then play (k + good_matches (on_card_click now s i))
                (state_of (on_card_click now s i)) es
      else None
  end.

End MemoryMatch.

(** ** match.py *)

Module AnimalMatch.

Definition ANIMALS : list string :=
  ["🐶";"🐱";"🐭";"🐹";"🐰";"🦊";"🐻";"🐼";"🐨";"🦁";
   "🐷";"🐸";"🐵";"🐮";"🐯";"🦒";"🦓";"🦊";"🦝";"🦘"]%string.

Record session : Type := Session {
  deck : list string;
  revealed : gset Z;
  matched : gset Z;
  moves : Z;
  finished : bool;
  lock : bool;              (* ignore taps during mismatch delay *)
  hide_at : N               (* [_hide_at]; 0 when absent or cleared *)
}.

(** The defaults the script installs in an empty [st.session_state]. *)
Definition empty_session : session := Session [] ∅ ∅ 0 false false 0.

Definition set_revealed (r : gset Z) (s : session) : session :=
  Session (deck s) r (matched s) (moves s) (finished s) (lock s) (hide_at s).
Definition set_matched (m : gset Z) (s : session) : session :=
  Session (deck s) (revealed s) m (moves s) (finished s) (lock s) (hide_at s).
Definition set_moves (n : Z) (s : session) : session :=
  Session (deck s) (revealed s) (matched s) n (finished s) (lock s) (hide_at s).
Definition set_finished (b : bool) (s : session) : session :=
  Session (deck s) (revealed s) (matched s) (moves s) b (lock s) (hide_at s).
Definition set_lock (b : bool) (s : session) : session :=
  Session (deck s) (revealed s) (matched s) (moves s) (finished s) b (hide_at s).
Definition set_hide_at (t : N) (s : session) : session :=
  Session (deck s) (revealed s) (matched s) (moves s) (finished s) (lock s) t.

(** [new_game()] run on the session [prev]: it replaces the fields it
    names and leaves [_hide_at] as it finds it. *)
Definition new_game (prev : session) (pairs : nat) (picks order : list nat)
  : Py.exn + session :=
  match Py.sample ANIMALS pairs picks with
  | inl e => inl e
  | inr symbols =>
      let deck := Py.shuffle (symbols ++ symbols) order in
      inr (Session deck ∅ ∅ 0 false false (hide_at prev))
  end.

(** The scheduled hide for mismatches, run on every redraw. *)
Definition tick (now : N) (s : session) : session :=
  if negb (hide_at s =? 0)%N then
    if (hide_at s <=? now)%N
    then set_hide_at 0 (set_lock false (set_revealed ∅ s))
    else s
  else s.

(** [on_card_click(i)]; [now] is the clock read on a mismatch.  [js_beep]
    and [js_say] only emit markup and touch no session field. *)
Definition on_card_click (now : N) (s : session) (i : Z) : outcome session :=
  if lock s then Ignored s
  else if bool_decide (i ∈ matched s) || bool_decide (i ∈ revealed s) || finished s
  then Ignored s
  else
    let s := set_revealed (revealed s ∪ {[ i ]}) s in
    if bool_decide (size (revealed s) = 2%nat) then
      let s := set_moves (moves s + 1) s in
      match elements (revealed s) with
      | [i1; i2] =>
          match Py.getitem (deck s) i1, Py.getitem (deck s) i2 with
          | Some c1, Some c2 =>
              if bool_decide (c1 = c2) then
                let s := set_matched (matched s ∪ revealed s) s in
                let s := set_revealed ∅ s in
                if bool_decide (size (matched s) = length (deck s))
                then GoodMatch (set_finished true s)
                else GoodMatch s
              else TryAgain (set_hide_at (now + 850) (set_lock true s))
          | _, _ => Raised Py.IndexError s
          end
      | _ => Raised Py.ValueError s
      end
    else FaceUp s.

Inductive reach (s0 : session) : nat → session → Prop :=
  | reach_new : reach s0 0 s0
  | reach_tick k s now :
      reach s0 k s → reach s0 k (tick now s)
  | reach_flip k s now i :
      reach s0 k s → on_board (deck s) i →
      reach s0 (k + good_matches (on_card_click now s i))
               (state_of (on_card_click now s i)).

(** *** Vocabulary of the properties *)

(** The taps [on_card_click] drops: the board is locked while a mismatch
    is on display, the card is solved or already face-up, or the round is
    over. *)
Definition blocked (s : session) (i : Z) : Prop :=
  lock s = true ∨ i ∈ matched s ∨ i ∈ revealed s ∨ finished s = true.

(** The session after the equal-symbols branch of a comparison. *)
Definition after_match (s : session) (i : Z) : session :=
  let s := set_moves (moves s + 1) (set_revealed (revealed s ∪ {[ i ]}) s) in
  let s := set_revealed ∅ (set_matched (matched s ∪ revealed s) s) in
  if bool_decide (size (matched s) = length (deck s))
  then set_finished true s else s.

(** The session after the different-symbols branch. *)
Definition after_mismatch (now : N) (s : session) (i : Z) : session :=
  set_hide_at (now + 850)
    (set_lock true
       (set_moves (moves s + 1) (set_revealed (revealed s ∪ {[ i ]}) s))).

(** A round as [new_game] leaves it. *)
Definition fresh (s : session) : Prop :=
  revealed s = ∅ ∧ matched s = ∅ ∧ moves s = 0%Z ∧
  finished s = false ∧ lock s = false.

(** What holds of a session [k] matches into a round. *)
Record round_inv (k : nat) (s : session) : Prop := RoundInv {
  inv_revealed_board : revealed s ⊆ board (deck s);
  inv_matched_board : matched s ⊆ board (deck s);
  inv_disjoint : revealed s ## matched s;
  inv_revealed_size : size (revealed s) ≤ 2;
  inv_locked : size (revealed s) = 2 → lock s = true;
  inv_matched_size : size (matched s) = 2 * k;
  inv_finished : finished s = true → size (matched s) = length (deck s);
  inv_won : 0 < size (matched s) → size (matched s) = length (deck s) →
            finished s = true
}.

(** Redraws [nows] in a row. *)
Definition ticks (nows : list N) (s : session) : session :=
  foldl (λ s now, tick now s) s nows.

(** The page as a driver of the engine: a list of redraws and taps, where a
    tap is only ever on a card the render loop drew. *)
Inductive event : Set :=
  | Tick (now : N)
  | Flip (now : N) (i : Z).

Fixpoint play (k : nat) (s : session) (es : list event) : option (nat * session) :=
  match es with
  | [] => Some (k, s)
  | Tick now :: es => play k (tick now s) es
  | Flip now i :: es =>
      if bool_decide (on_board (deck s) i)
      then play (k + good_matches (on_card_click now s i))
                (state_of (on_card_click now s i)) es
      else None
  end.

End AnimalMatch.

(** How often [x] occurs in [l] (Python's [l.count(x)]). *)
Definition occurrences (x : string) (l : list string) : nat :=
  length (filter (λ y, y = x) l).

(** ** Worked rounds

    The spec's scenario: three pairs, the deck dealt so that cards 0 and 1
    match and cards 2 and 3 do not. *)

Definition demo_pool : list string := ["A"; "B"; "C"]%string.

Definition mm_demo_round : MemoryMatch.session :=
  MemoryMatch.Session ["A"; "A"; "B"; "C"; "B"; "C"]%string ∅ ∅ 0 0 1000 false.

Definition am_demo_round : AnimalMatch.session :=
  AnimalMatch.Session ["🐶"; "🐶"; "🐱"; "🐭"; "🐱"; "🐭"]%string ∅ ∅ 0 false false 0.

(** Taps on 0 and 1 (a match), then on 2 and 3 (a mismatch) and a redraw
    before the hide is due. *)
Definition mm_demo_events : list MemoryMatch.event :=
  [ MemoryMatch.Flip 2000 0; MemoryMatch.Flip 3000 1;
    MemoryMatch.Flip 4000 2; MemoryMatch.Flip 5000 3;
    MemoryMatch.Tick 5100 ].

Definition am_demo_events : list AnimalMatch.event :=
  [ AnimalMatch.Flip 2000 0; AnimalMatch.Flip 3000 1;
    AnimalMatch.Flip 4000 2; AnimalMatch.Flip 5000 3;
    AnimalMatch.Tick 5100 ].

Definition mm_demo_mismatch : MemoryMatch.session :=
  MemoryMatch.Session ["A"; "A"; "B"; "C"; "B"; "C"]%string
    {[ 2%Z; 3%Z ]} {[ 0%Z; 1%Z ]} 2 5800 1000 false.

Definition am_demo_mismatch : AnimalMatch.session :=
  AnimalMatch.Session ["🐶"; "🐶"; "🐱"; "🐭"; "🐱"; "🐭"]%string
    {[ 2%Z; 3%Z ]} {[ 0%Z; 1%Z ]} 2 false true 5850.

(** The whole round: the mismatch is hidden, then the two remaining pairs
    are found. *)
Definition mm_demo_rest : list MemoryMatch.event :=
  [ MemoryMatch.Tick 5900; MemoryMatch.Flip 6000 2;
    MemoryMatch.Flip 6500 4; MemoryMatch.Flip 7000 3;
    MemoryMatch.Flip 8000 5 ].

Definition am_demo_rest : list AnimalMatch.event :=
  [ AnimalMatch.Tick 5900; AnimalMatch.Flip 6000 2;
    AnimalMatch.Flip 6500 4; AnimalMatch.Flip 7000 3;
    AnimalMatch.Flip 8000 5 ].

Definition mm_demo_won : MemoryMatch.session :=
  MemoryMatch.Session ["A"; "A"; "B"; "C"; "B"; "C"]%string
    ∅ {[ 0%Z; 1%Z; 2%Z; 3%Z; 4%Z; 5%Z ]} 4 0 1000 true.

Definition am_demo_won : AnimalMatch.session :=
  AnimalMatch.Session ["🐶"; "🐶"; "🐱"; "🐭"; "🐱"; "🐭"]%string
    ∅ {[ 0%Z; 1%Z; 2%Z; 3%Z; 4%Z; 5%Z ]} 4 true false 0.

(** ** The grid of card buttons

    Both scripts draw the deck with the same pair of loops:
    [rows = (len(deck) + cols - 1) // cols], then for each row and each of
    its [cols] columns the cell is skipped ([continue]) once [idx] has
    reached [len(deck)], and otherwise the card at [idx] is drawn and [idx]
    moves on. *)

Module Grid.

Definition rows (len cols : nat) : nat := (len + cols - 1) / cols.

Section walk.
Context {A : Type}.
Variable visit : Z → A → A.   (* the body of the inner loop for card [idx] *)
Variable len : nat.           (* [len(deck)] *)

(** One column of one row. *)
Definition cell (st : Z * A) : Z * A :=
  if bool_decide (Z.of_nat len ≤ st.1)%Z then st
  else ((st.1 + 1)%Z, visit st.1 st.2).

(** [for _ in range(rows): for c in st.columns(cols): ...], from [idx = 0]. *)
Definition walk (rows cols : nat) (a : A) : Z * A :=
  Nat.iter rows (Nat.iter cols cell) (0%Z, a).

End walk.

End Grid.

(** ** memory_match.py: one run of the script

    Streamlit runs the script from top to bottom on every interaction.  A
    run reads the widgets (the two sidebar buttons, the card buttons, "Play
    again") and the clock, and leaves [st.session_state] for the next run.
    The labels and keys of the buttons go to the browser only; a card button
    is modelled by the face it is given and the boolean it returns. *)

Module MemoryMatchPage.
Import MemoryMatch.

(** [cols = 4 if pairs >= 7 else 3] *)
Definition cols (pairs : nat) : nat := if bool_decide (7 ≤ pairs) then 4 else 3.

(** [card_face(i)]; [None] is the [IndexError] of [deck[i]]. *)
Definition card_face (peeking : bool) (s : session) (i : Z) : option string :=
  if peeking || bool_decide (i ∈ revealed s) || bool_decide (i ∈ matched s)
  then Py.getitem (deck s) i
  else Some "❓"%string.

(** [st.session_state] between two runs: the round, absent before the first
    run, and [_peek_until] (read with default 0). *)
Record page : Type := Page {
  game : option session;
  peek_until : N
}.

Definition blank : page := Page None 0.

(** What one run reads from its surroundings. *)
Record inputs : Type := Inputs {
  in_pool : list string;        (* [THEMES[theme]] *)
  in_pairs : nat;               (* slider "Number of pairs" *)
  in_peek_seconds : N;          (* slider "Peek time (seconds)" *)
  in_reset : bool;              (* button "New game" *)
  in_peek : bool;               (* button "Show all (peek)" *)
  in_card : Z → bool;           (* the card button drawn for [idx] *)
  in_again : bool;              (* button "Play again" *)
  in_picks : list nat;          (* draws of the [new_game] at the top *)
  in_order : list nat;
  in_picks_again : list nat;    (* draws of the [new_game] of "Play again" *)
  in_order_again : list nat;
  in_t_new : N;                 (* the clock, at each place it is read *)
  in_t_peek : N;
  in_now : N;
  in_t_tap : N;
  in_t_again : N
}.

(** The grid while it is drawn: the faces given to the buttons so far, the
    round as the taps handled so far have left it, and the exception that
    stopped the loop, if any. *)
Record canvas : Type := Canvas {
  faces : list string;
  live : session;
  failure : option Py.exn
}.

(** The body of the inner loop for the card at [idx]:
    [face = card_face(idx)], the button, [if clicked: on_card_click(idx)]. *)
Definition draw_card (peeking : bool) (clicked : Z → bool) (t_tap : N)
    (idx : Z) (c : canvas) : canvas :=
  match failure c with
  | Some _ => c
  | None =>
      match card_face peeking (live c) idx with
      | None => Canvas (faces c) (live c) (Some Py.IndexError)
      | Some face =>
          if clicked idx then
            match on_card_click t_tap (live c) idx with
            | Raised e s' => Canvas (faces c ++ [face]) s' (Some e)
            | o => Canvas (faces c ++ [face]) (state_of o) None
            end
          else Canvas (faces c ++ [face]) (live c) None
      end
  end.

Definition render_grid (peeking : bool) (clicked : Z → bool) (t_tap : N)
    (pairs : nat) (s : session) : canvas :=
  (Grid.walk (draw_card peeking clicked t_tap) (length (deck s))
     (Grid.rows (length (deck s)) (cols pairs)) (cols pairs)
     (Canvas [] s None)).2.

(** What a run leaves behind: the session state, the faces it gave to the
    card buttons, whether it ended in [st.rerun()], and the exception that
    ended it, if any. *)
Record pass : Type := Pass {
  after : page;
  drawn : list string;
  rerun : bool;
  raised : option Py.exn
}.

Definition script (inp : inputs) (pg : page) : pass :=
  (* if "deck" not in st.session_state or reset_clicked: new_game() *)
  let started :=
    match game pg with
    | Some s =>
        if in_reset inp
        then new_game (in_pool inp) (in_pairs inp) (in_picks inp) (in_order inp)
               (in_t_new inp)
        else inr s
    | None =>
        new_game (in_pool inp) (in_pairs inp) (in_picks inp) (in_order inp)
          (in_t_new inp)
    end in
  match started with
  | inl e => Pass pg [] false (Some e)
  | inr s =>
      (* if peek_clicked: do_peek(peek_seconds) *)
      let until :=
        if in_peek inp then (in_t_peek inp + 1000 * in_peek_seconds inp)%N
        else peek_until pg in
      let peeking := bool_decide (in_now inp < until)%N in
      (* if pending_hide and now >= pending_hide: ... *)
      let s := tick (in_now inp) s in
      let c := render_grid peeking (in_card inp) (in_t_tap inp) (in_pairs inp) s in
      match failure c with
      | Some e => Pass (Page (Some (live c)) until) (faces c) false (Some e)
      | None =>
          (* if st.session_state.finished: ... if st.button("Play again"): *)
          if finished (live c) && in_again inp then
            match new_game (in_pool inp) (in_pairs inp) (in_picks_again inp)
                    (in_order_again inp) (in_t_again inp) with
            | inl e => Pass (Page (Some (live c)) until) (faces c) false (Some e)
            | inr s' => Pass (Page (Some s') until) (faces c) true None
            end
          else
            (* if peeking: ... st.rerun() *)
            Pass (Page (Some (live c)) until) (faces c) peeking None
      end
  end.

(** Runs one after the other, each with its own inputs; every run starts
    from the session state the run before it left. *)
Fixpoint runs (inps : list inputs) (pg : page) : page :=
  match inps with
  | [] => pg
  | inp :: inps => runs inps (after (script inp pg))
  end.

(** A session that belongs to some round: reached from a fresh game by
    redraws and taps on cards of the board. *)
Definition in_round (s : session) : Prop :=
  ∃ s0 k, fresh s0 ∧ reach s0 k s.

Definition page_ok (pg : page) : Prop :=
  match game pg with Some s => in_round s | None => True end.

(** The same inputs with another state of the peek button, of the peek
    slider and of the clock read by [do_peek]. *)
Definition with_peek (peek : bool) (seconds t_peek : N) (inp : inputs) : inputs :=
  Inputs (in_pool inp) (in_pairs inp) seconds (in_reset inp) peek
    (in_card inp) (in_again inp) (in_picks inp) (in_order inp)
    (in_picks_again inp) (in_order_again inp) (in_t_new inp) t_peek
    (in_now inp) (in_t_tap inp) (in_t_again inp).

End MemoryMatchPage.

(** ** match.py: one run of the script

    Here the card buttons carry [on_click=on_card_click, args=(idx,)]: the
    tap on a card is handled as a callback when the next run begins, before
    the body of the script.  The body then installs the defaults, starts a
    new game when asked or when there is no deck, and runs the scheduled
    hide; while a hide is scheduled it ends in [st.rerun()] before the grid
    is drawn.  [js_beep] and [js_say] only emit markup. *)

Module AnimalMatchPage.
Import AnimalMatch.

(** The number of columns chosen from the card size. *)
Definition cols (size_choice : string) (pairs : nat) : nat :=
  if bool_decide (size_choice = "Giant"%string) then 1
  else if bool_decide (size_choice = "Mega"%string) then 2
  else if bool_decide (size_choice = "XL"%string ∨ size_choice = "Huge"%string) then 2
  else if bool_decide (size_choice = "Large"%string) then 3
  else if bool_decide (7 ≤ pairs) then 4 else 3.

(** [is_face_up(i)] *)
Definition is_face_up (peeking : bool) (s : session) (i : Z) : bool :=
  peeking || bool_decide (i ∈ revealed s) || bool_decide (i ∈ matched s).

(** [deck[idx] if is_face_up(idx) else "❓"]; [None] is the [IndexError]. *)
Definition face (peeking : bool) (s : session) (idx : Z) : option string :=
  if is_face_up peeking s idx then Py.getitem (deck s) idx
  else Some "❓"%string.

(** [st.session_state] between two runs; the script installs
    [empty_session] in an empty one, and reads [_peek_until] with default 0. *)
Record page : Type := Page {
  state : session;
  peek_until : N
}.

Definition blank : page := Page empty_session 0.

Record inputs : Type := Inputs {
  in_tapped : option Z;         (* the card button tapped, with its [idx] *)
  in_pairs : nat;               (* slider "Number of pairs" *)
  in_size_choice : string;      (* slider "Card size" *)
  in_new_game : bool;           (* button "New game" *)
  in_peek : bool;               (* button "Peek (3s)" *)
  in_picks : list nat;          (* draws of [new_game] *)
  in_order : list nat;
  in_t_tap : N;                 (* the clock, at each place it is read *)
  in_t_peek : N;
  in_t_peeking : N;
  in_t_hide : N
}.

(** The grid while it is drawn: the faces so far and the exception that
    stopped the loop, if any. *)
Definition draw_card (peeking : bool) (s : session) (idx : Z)
    (c : list string * option Py.exn) : list string * option Py.exn :=
  match c.2 with
  | Some _ => c
  | None =>
      match face peeking s idx with
      | None => (c.1, Some Py.IndexError)
      | Some f => (c.1 ++ [f], None)
      end
  end.

Definition render_grid (peeking : bool) (size_choice : string) (pairs : nat)
    (s : session) : list string * option Py.exn :=
  (Grid.walk (draw_card peeking s) (length (deck s))
     (Grid.rows (length (deck s)) (cols size_choice pairs))
     (cols size_choice pairs) ([], None)).2.

Record pass : Type := Pass {
  after : page;
  drawn : list string;
  rerun : bool;
  raised : option Py.exn
}.

(** The body of the script, from the defaults on. *)
Definition body (inp : inputs) (s : session) (until0 : N) : pass :=
  (* if col_sb1.button("New game") or not st.session_state.deck: new_game() *)
  let started :=
    if in_new_game inp || bool_decide (deck s = [])
    then new_game s (in_pairs inp) (in_picks inp) (in_order inp)
    else inr s in
  match started with
  | inl e => Pass (Page s until0) [] false (Some e)
  | inr s =>
      let until := if in_peek inp then (in_t_peek inp + 3000)%N else until0 in
      let peeking := bool_decide (in_t_peeking inp < until)%N in
      (* hide_at = st.session_state.get("_hide_at", 0); if hide_at: ... *)
      if negb (hide_at s =? 0)%N
      then Pass (Page (tick (in_t_hide inp) s) until) [] true None
      else
        let g := render_grid peeking (in_size_choice inp) (in_pairs inp) s in
        match g.2 with
        | Some e => Pass (Page s until) g.1 false (Some e)
        | None => Pass (Page s until) g.1 peeking None
        end
  end.

(** A run: the callback of the tapped card, then the body. *)
Definition script (inp : inputs) (pg : page) : pass :=
  match in_tapped inp with
  | None => body inp (state pg) (peek_until pg)
  | Some i =>
      match on_card_click (in_t_tap inp) (state pg) i with
      | Raised e s' => Pass (Page s' (peek_until pg)) [] false (Some e)
      | o => body inp (state_of o) (peek_until pg)
      end
  end.

Definition in_round (s : session) : Prop :=
  ∃ s0 k, fresh s0 ∧ reach s0 k s.

(** The same inputs with another state of the peek button and of the
    clocks read for the peek. *)
Definition with_peek (peek : bool) (t_peek t_peeking : N) (inp : inputs) : inputs :=
  Inputs (in_tapped inp) (in_pairs inp) (in_size_choice inp) (in_new_game inp)
    peek (in_picks inp) (in_order inp) (in_t_tap inp) t_peek t_peeking
    (in_t_hide inp).

End AnimalMatchPage.

(** ** Worked runs *)

(** The first run on an empty session state deals the demo round; later
    runs report a tap on one card. *)
Definition mmp_first_run : MemoryMatchPage.inputs :=
  MemoryMatchPage.Inputs ["A"; "B"; "C"]%string 3 3 false false (λ _, false)
    false [] [0; 2] [] [] 1000 0 1500 1500 0.

Definition mmp_tap (i : Z) (now : N) : MemoryMatchPage.inputs :=
  MemoryMatchPage.Inputs ["A"; "B"; "C"]%string 3 3 false false
    (λ j, bool_decide (j = i)) false [] [] [] [] 0 0 now now 0.

(** A run of match.py at clock [now], with the tap it handles, if any. *)
Definition amp_run (tapped : option Z) (now : N) : AnimalMatchPage.inputs :=
  AnimalMatchPage.Inputs tapped 3 "Giant"%string false false [] [0; 2]
    now now now now.

(** A run of match.py at clock [now] in which "New game" was pressed. *)
Definition amp_new_game_run (now : N) : AnimalMatchPage.inputs :=
  AnimalMatchPage.Inputs None 3 "Giant"%string true false [] [0; 2]
    now now now now.

(** ** Taps at any position

    [on_card_click] takes the position as its argument and compares it with
    nothing.  These are redraws and taps run without the bound the render
    loop keeps on the position.  A tap that raises leaves
    [st.session_state] as the handler has changed it so far, and the next
    event goes on from there. *)
Definition mm_any_taps (s : MemoryMatch.session)
    (es : list MemoryMatch.event) : MemoryMatch.session :=
  foldl (λ s e, match e with
                | MemoryMatch.Tick now => MemoryMatch.tick now s
                | MemoryMatch.Flip now i =>
                    state_of (MemoryMatch.on_card_click now s i)
                end) s es.

Definition am_any_taps (s : AnimalMatch.session)
    (es : list AnimalMatch.event) : AnimalMatch.session :=
  foldl (λ s e, match e with
                | AnimalMatch.Tick now => AnimalMatch.tick now s
                | AnimalMatch.Flip now i =>
                    state_of (AnimalMatch.on_card_click now s i)
                end) s es.

(** * Properties *)

(** ** Lists, sets and the Python built-ins *)

Section builtins.
Context {A : Type}.
Implicit Types (l : list A) (k : nat) (draws : list nat).

Lemma draw_split k : ∀ l draws,
  k ≤ length l →
  length (Py.draw k l draws) = k ∧ ∃ rest, l ≡ₚ Py.draw k l draws ++ rest.
Proof.
  induction k as [|k IH]; intros l draws Hk; simpl.
  - split; [done|]. by exists l.
  - assert (Hj : hd 0 draws `mod` length l < length l)
      by (apply Nat.mod_upper_bound; lia).
    destruct (lookup_lt_is_Some_2 l _ Hj) as [x Hx]. rewrite Hx. simpl.
    destruct (IH (delete (hd 0 draws `mod` length l) l) (tl draws)) as [Hlen [rest Hrest]].
    { rewrite length_delete by eauto. lia. }
    split; [by rewrite Hlen|].
    exists rest. etrans; [by apply delete_Permutation|]. simpl. by f_equiv.
Qed.

Lemma length_draw k l draws : k ≤ length l → length (Py.draw k l draws) = k.
Proof. intros. by apply draw_split. Qed.

Lemma shuffle_Permutation l draws : Py.shuffle l draws ≡ₚ l.
Proof.
  unfold Py.shuffle.
  destruct (draw_split (length l) l draws) as [Hlen [rest Hrest]]; [done|].
  assert (rest = []) as ->.
  { apply nil_length_inv. apply Permutation_length in Hrest.
    rewrite length_app, Hlen in Hrest. lia. }
  by rewrite app_nil_r in Hrest.
Qed.

Lemma sample_inr l k draws symbols :
  Py.sample l k draws = inr symbols →
  k ≤ length l ∧ length symbols = k ∧ ∃ rest, l ≡ₚ symbols ++ rest.
Proof.
  unfold Py.sample. case_decide; [|done]. intros [= <-].
  split; [done|]. by apply draw_split.
Qed.

Lemma sample_NoDup l k draws symbols :
  NoDup l → Py.sample l k draws = inr symbols → NoDup symbols.
Proof.
  intros Hl (_ & _ & rest & Hrest)%sample_inr.
  rewrite Hrest in Hl. by apply NoDup_app in Hl as [? _].
Qed.

Lemma sample_raises l k draws :
  (∃ e, Py.sample l k draws = inl e) ↔ length l < k.
Proof.
  unfold Py.sample. case_decide; split.
  - by intros [? ?].
  - lia.
  - lia.
  - eauto.
Qed.

Lemma getitem_on_board_nat l (i : Z) :
  (0 ≤ i < Z.of_nat (length l))%Z → is_Some (Py.getitem l i).
Proof.
  intros Hi. unfold Py.getitem. rewrite decide_True by lia.
  apply lookup_lt_is_Some_2. lia.
Qed.

Lemma getitem_past_end l (i : Z) :
  (Z.of_nat (length l) ≤ i ∨ Z.of_nat (length l) + i < 0)%Z →
  Py.getitem l i = None.
Proof.
  intros Hi. unfold Py.getitem. destruct Hi as [Hi|Hi].
  - rewrite decide_True by lia. apply lookup_ge_None_2. lia.
  - rewrite decide_False by lia. by rewrite decide_False by lia.
Qed.

End builtins.

Lemma getitem_on_board (d : list string) (i : Z) :
  on_board d i → is_Some (Py.getitem d i).
Proof. apply getitem_on_board_nat. Qed.

Lemma elem_of_board (d : list string) (i : Z) : i ∈ board d ↔ on_board d i.
Proof.
  unfold board, on_board. rewrite elem_of_list_to_set, elem_of_seqZ. lia.
Qed.

Lemma size_board (d : list string) : size (board d) = length d.
Proof.
  unfold board. rewrite size_list_to_set by apply NoDup_seqZ.
  rewrite length_seqZ. lia.
Qed.

(** A subset of the board is all of it as soon as it has as many elements. *)
Lemma covers_board (d : list string) (X : gset Z) :
  X ⊆ board d → (X = board d ↔ size X = length d).
Proof.
  intros Hsub. split.
  - intros ->. apply size_board.
  - intros Hsize. apply set_subseteq_size_eq; [done|].
    rewrite size_board. lia.
Qed.

(** What [i1, i2 = list(X)] binds when [len(X) == 2]. *)
Lemma elements_two (X : gset Z) :
  size X = 2 →
  ∃ i1 i2, elements X = [i1; i2] ∧ i1 ≠ i2 ∧ X = {[ i1; i2 ]}.
Proof.
  unfold size, set_size. simpl. intros Hlen.
  pose proof (NoDup_elements X) as Hnd.
  pose proof (list_to_set_elements_L X) as HX.
  destruct (elements X) as [|i1 [|i2 [|]]]; try discriminate Hlen.
  exists i1, i2. split; [done|]. split.
  - apply NoDup_cons in Hnd as [Hnd _]. set_solver.
  - rewrite <- HX. simpl. by rewrite (right_id_L ∅ (∪)).
Qed.

(** Adding a second, different card to one that is face-up. *)
Lemma elements_second (a i : Z) :
  a ≠ i →
  elements ({[ a ]} ∪ {[ i ]} : gset Z) = [a; i] ∨
  elements ({[ a ]} ∪ {[ i ]} : gset Z) = [i; a].
Proof.
  intros Hne.
  destruct (elements_two ({[ a ]} ∪ {[ i ]})) as (i1 & i2 & -> & Hne' & HX).
  { rewrite size_union by set_solver. by rewrite !size_singleton. }
  assert (a = i1 ∨ a = i2) as Ha.
  { assert (a ∈ ({[ i1; i2 ]} : gset Z)) as Hin by (rewrite <- HX; set_solver).
    by rewrite elem_of_union, !elem_of_singleton in Hin. }
  assert (i = i1 ∨ i = i2) as Hi.
  { assert (i ∈ ({[ i1; i2 ]} : gset Z)) as Hin by (rewrite <- HX; set_solver).
    by rewrite elem_of_union, !elem_of_singleton in Hin. }
  destruct Ha, Hi; subst; auto; done.
Qed.

Lemma occurrences_Permutation (x : string) (l1 l2 : list string) :
  l1 ≡ₚ l2 → occurrences x l1 = occurrences x l2.
Proof. unfold occurrences. by intros ->. Qed.

Lemma occurrences_app (x : string) (l1 l2 : list string) :
  occurrences x (l1 ++ l2) = occurrences x l1 + occurrences x l2.
Proof. unfold occurrences. by rewrite filter_app, length_app. Qed.

Lemma occurrences_absent (x : string) (l : list string) :
  x ∉ l → occurrences x l = 0.
Proof.
  unfold occurrences. induction l as [|y l IH]; [done|].
  intros [Hxy Hx]%not_elem_of_cons.
  rewrite filter_cons_False by congruence. by apply IH.
Qed.

Lemma occurrences_NoDup (x : string) (l : list string) :
  NoDup l → x ∈ l → occurrences x l = 1.
Proof.
  induction 1 as [|y l Hy Hnd IH]; [by intros ?%elem_of_nil|].
  intros Hin. unfold occurrences in *. destruct (decide (y = x)) as [->|Hne].
  - rewrite filter_cons_True by done. simpl. f_equal.
    by apply occurrences_absent.
  - rewrite filter_cons_False by done. apply IH.
    apply elem_of_cons in Hin as [->|]; done.
Qed.

Lemma size_one_more (X : gset Z) (i : Z) :
  i ∉ X → size (X ∪ {[ i ]}) = S (size X).
Proof.
  intros Hi. rewrite size_union by set_solver. rewrite size_singleton. lia.
Qed.

Lemma size_pair (i1 i2 : Z) : i1 ≠ i2 → size ({[ i1; i2 ]} : gset Z) = 2.
Proof.
  intros. rewrite size_union by set_solver. by rewrite !size_singleton.
Qed.

(** ** memory_match.py: the click handler, path by path *)

Module MemoryMatchFacts.
Import MemoryMatch.

(** Read fields off updated sessions without unfolding the sets. *)
Ltac fields :=
  cbn [deck revealed matched moves pending_hide_at started_at finished
       set_revealed set_matched set_moves set_pending_hide_at set_finished
       state_of good_matches raises accepted] in *.

Lemma mm_blocked_dec (s : session) (i : Z) : blocked s i ∨ ¬ blocked s i.
Proof.
  unfold blocked.
  destruct (decide (i ∈ matched s)); [by auto|].
  destruct (decide (i ∈ revealed s)); [by auto|].
  destruct (finished s) eqn:?; [by auto|].
  destruct (decide (pending_hide_at s = 0%N)); [|by auto].
  right. intros [?|[?|[?|?]]]; done.
Qed.

Lemma mm_click_blocked now s i :
  blocked s i → on_card_click now s i = Ignored s.
Proof.
  unfold blocked, on_card_click. intros Hb.
  destruct (bool_decide (i ∈ matched s)) eqn:Hm; [done|].
  destruct (bool_decide (i ∈ revealed s)) eqn:Hr; [done|].
  destruct (finished s) eqn:Hf; [done|]. simpl.
  apply bool_decide_eq_false in Hm, Hr.
  destruct (N.eqb_spec (pending_hide_at s) 0) as [Hp|Hp]; [|done].
  destruct Hb as [?|[?|[?|?]]]; done.
Qed.

Lemma mm_click_open now s i :
  ¬ blocked s i →
  on_card_click now s i =
    let s1 := set_revealed (revealed s ∪ {[ i ]}) s in
    if bool_decide (size (revealed s1) = 2) then
      let s2 := set_moves (moves s1 + 1) s1 in
      match elements (revealed s2) with
      | [i1; i2] =>
          match Py.getitem (deck s2) i1, Py.getitem (deck s2) i2 with
          | Some c1, Some c2 =>
              if bool_decide (c1 = c2) then GoodMatch (after_match s i)
              else TryAgain (after_mismatch now s i)
          | _, _ => Raised Py.IndexError s2
          end
      | _ => Raised Py.ValueError s2
      end
    else FaceUp s1.
Proof.
  unfold blocked, on_card_click. intros Hb.
  rewrite !bool_decide_eq_false_2 by tauto.
  destruct (finished s) eqn:Hf; [tauto|].
  destruct (N.eqb_spec (pending_hide_at s) 0) as [Hp|Hp]; [|tauto].
  simpl. unfold after_match. simpl.
  repeat case_match; done.
Qed.

(** The five ways out of the handler. *)
Lemma mm_click_cases now s i :
  (blocked s i ∧ on_card_click now s i = Ignored s) ∨
  (¬ blocked s i ∧ size (revealed s ∪ {[ i ]}) ≠ 2 ∧
     on_card_click now s i = FaceUp (set_revealed (revealed s ∪ {[ i ]}) s)) ∨
  (¬ blocked s i ∧ ∃ i1 i2, revealed s ∪ {[ i ]} = {[ i1; i2 ]} ∧ i1 ≠ i2 ∧
     ((∃ c, Py.getitem (deck s) i1 = Some c ∧ Py.getitem (deck s) i2 = Some c ∧
            on_card_click now s i = GoodMatch (after_match s i)) ∨
      (∃ c1 c2, Py.getitem (deck s) i1 = Some c1 ∧
            Py.getitem (deck s) i2 = Some c2 ∧ c1 ≠ c2 ∧
            on_card_click now s i = TryAgain (after_mismatch now s i)) ∨
      ((Py.getitem (deck s) i1 = None ∨ Py.getitem (deck s) i2 = None) ∧
            on_card_click now s i =
              Raised Py.IndexError
                (set_moves (moves s + 1) (set_revealed (revealed s ∪ {[ i ]}) s))))).
Proof.
  destruct (mm_blocked_dec s i) as [Hb|Hb]; [left; by auto using mm_click_blocked|].
  right. rewrite mm_click_open by done. simpl.
  case_bool_decide as Hsize; [right|left; by auto].
  destruct (elements_two _ Hsize) as (i1 & i2 & -> & Hne & HX).
  split; [done|]. exists i1, i2. split; [done|]. split; [done|].
  destruct (Py.getitem (deck s) i1) as [c1|] eqn:H1;
    destruct (Py.getitem (deck s) i2) as [c2|] eqn:H2; [|by auto..].
  case_bool_decide as Hc.
  - subst c2. left. by exists c1.
  - right; left. by exists c1, c2.
Qed.

Lemma mm_new_game_inr pool pairs picks order now s0 :
  new_game pool pairs picks order now = inr s0 →
  fresh s0 ∧ length (deck s0) = 2 * pairs ∧
  ∃ symbols, Py.sample pool pairs picks = inr symbols ∧
             deck s0 ≡ₚ symbols ++ symbols.
Proof.
  unfold new_game. destruct (Py.sample _ _ _) as [e|symbols] eqn:Hs; [done|].
  intros [= <-]. simpl. apply sample_inr in Hs as Hs'.
  destruct Hs' as (_ & Hlen & _).
  pose proof (shuffle_Permutation (symbols ++ symbols) order) as Hperm.
  split; [done|]. split.
  - rewrite Hperm, length_app. lia.
  - by exists symbols.
Qed.

Lemma mm_fresh_inv s0 : fresh s0 → round_inv 0 s0.
Proof.
  intros (Hr & Hm & _ & Hp & Hf). split; rewrite ?Hr, ?Hm, ?Hf; try done.
  all: rewrite ?size_empty; done || lia.
Qed.

Lemma mm_tick_cases now s :
  (tick now s = s ∧ (pending_hide_at s = 0 ∨ now < pending_hide_at s)%N) ∨
  (tick now s = set_pending_hide_at 0 (set_revealed ∅ s) ∧
   pending_hide_at s ≠ 0%N ∧ (pending_hide_at s ≤ now)%N).
Proof.
  unfold tick.
  destruct (N.eqb_spec (pending_hide_at s) 0); simpl; [left; by auto|].
  destruct (N.leb_spec (pending_hide_at s) now); [right|left]; by auto.
Qed.

Lemma mm_tick_inv k now s : round_inv k s → round_inv k (tick now s).
Proof.
  intros []. destruct (mm_tick_cases now s) as [[-> _]|[-> _]]; [done|].
  split; fields; try done.
  all: rewrite ?size_empty; done || lia.
Qed.

Lemma mm_click_inv k now s i :
  round_inv k s → on_board (deck s) i →
  round_inv (k + good_matches (on_card_click now s i))
            (state_of (on_card_click now s i)).
Proof.
  intros [Hrb Hmb Hdis Hrs Hlock Hms Hfin Hwon] Hi%elem_of_board.
  destruct (mm_click_cases now s i)
    as [[Hb ->]|[(Hb & Hsize & ->)|(Hb & i1 & i2 & HX & Hne & Hcmp)]]; fields.
  - rewrite Nat.add_0_r. by split.
  - unfold blocked in Hb. rewrite Nat.add_0_r.
    assert (i ∉ revealed s) as Hir by tauto.
    assert (i ∉ matched s) as Him by tauto.
    rewrite size_one_more in Hsize by done.
    split; fields; try done.
    + apply union_subseteq. split; [done|]. by apply singleton_subseteq_l.
    + apply disjoint_union_l. split; [done|]. by apply disjoint_singleton_l.
    + rewrite size_one_more by done.
      destruct (decide (size (revealed s) = 2)) as [Htwo|]; [|lia].
      apply Hlock in Htwo. tauto.
    + rewrite size_one_more by done. intros. lia.
  - unfold blocked in Hb.
    assert (i ∉ matched s) as Him by tauto.
    assert (finished s = false) as Hf by (destruct (finished s); tauto).
    assert (revealed s ∪ {[ i ]} ⊆ board (deck s)) as Hsub.
    { apply union_subseteq. split; [done|]. by apply singleton_subseteq_l. }
    assert (revealed s ∪ {[ i ]} ## matched s) as Hdis'.
    { apply disjoint_union_l. split; [done|]. by apply disjoint_singleton_l. }
    pose proof (size_pair i1 i2 Hne) as Hpair. rewrite <- HX in Hpair.
    destruct Hcmp as [(c & _ & _ & ->)|[(c1 & c2 & _ & _ & _ & ->)|[Hnone ->]]];
      fields.
    + assert (size (matched s ∪ (revealed s ∪ {[ i ]})) = 2 * (k + 1)) as Hsz.
      { rewrite size_union by done. lia. }
      assert (matched s ∪ (revealed s ∪ {[ i ]}) ⊆ board (deck s)) as Hmb'.
      { by apply union_subseteq. }
      unfold after_match. fields.
      case_bool_decide as Hall; split; fields; rewrite ?size_empty;
        first [done | lia | congruence | apply empty_subseteq
              | apply disjoint_empty_l ].
    + rewrite Nat.add_0_r. unfold after_mismatch.
      split; fields; first [done | lia].
    + exfalso. rewrite HX in Hsub.
      assert (is_Some (Py.getitem (deck s) i1)) as [? ?].
      { apply getitem_on_board, elem_of_board, Hsub. set_solver. }
      assert (is_Some (Py.getitem (deck s) i2)) as [? ?].
      { apply getitem_on_board, elem_of_board, Hsub. set_solver. }
      destruct Hnone; congruence.
Qed.

Lemma mm_tick_deck now s : deck (tick now s) = deck s.
Proof. by destruct (mm_tick_cases now s) as [[-> _]|[-> _]]. Qed.

Lemma mm_click_deck now s i : deck (state_of (on_card_click now s i)) = deck s.
Proof.
  destruct (mm_click_cases now s i)
    as [[_ ->]|[(_ & _ & ->)|(_ & i1 & i2 & _ & _ & Hcmp)]]; [done..|].
  destruct Hcmp as [(c & _ & _ & ->)|[(c1 & c2 & _ & _ & _ & ->)|[_ ->]]];
    [|done..].
  simpl. unfold after_match. by case_bool_decide.
Qed.

Lemma mm_reach_inv s0 k s :
  fresh s0 → reach s0 k s → round_inv k s ∧ deck s = deck s0.
Proof.
  intros Hfresh. induction 1 as [|k s now _ [IH Hd]|k s now i _ [IH Hd] Hi].
  - split; [by apply mm_fresh_inv|done].
  - split; [by apply mm_tick_inv|by rewrite mm_tick_deck].
  - split; [by apply mm_click_inv|by rewrite mm_click_deck].
Qed.

(** *** A pair-comparison, card by card *)

Lemma mm_accepted_open now s i :
  accepted (on_card_click now s i) = true → ¬ blocked s i.
Proof.
  intros Hacc Hb. by rewrite (mm_click_blocked now s i Hb) in Hacc.
Qed.

Lemma mm_open_accepted now s i :
  ¬ blocked s i → accepted (on_card_click now s i) = true.
Proof.
  intros Hb. destruct (mm_click_cases now s i)
    as [[? _]|[(_ & _ & ->)|(_ & i1 & i2 & _ & _ & Hcmp)]]; [done..|].
  by destruct Hcmp as [(c & _ & _ & ->)|[(c1 & c2 & _ & _ & _ & ->)|[_ ->]]].
Qed.

Lemma mm_ignored_iff now s i :
  on_card_click now s i = Ignored s ↔ blocked s i.
Proof.
  split; [|by apply mm_click_blocked].
  intros Hign. destruct (mm_blocked_dec s i) as [|Hopen]; [done|].
  apply (mm_open_accepted now) in Hopen. by rewrite Hign in Hopen.
Qed.

Lemma mm_first_card now s i :
  revealed s = ∅ → accepted (on_card_click now s i) = true →
  on_card_click now s i = FaceUp (set_revealed {[ i ]} s).
Proof.
  intros Hr Hb%mm_accepted_open.
  destruct (mm_click_cases now s i)
    as [[? _]|[(_ & _ & ->)|(_ & i1 & i2 & HX & Hne & _)]]; [done| |].
  - by rewrite Hr, (left_id_L ∅ (∪)).
  - apply size_pair in Hne. rewrite <- HX, Hr, (left_id_L ∅ (∪)) in Hne.
    by rewrite size_singleton in Hne.
Qed.

Lemma mm_second_card now s i j c1 c2 :
  revealed s = {[ i ]} → accepted (on_card_click now s j) = true →
  Py.getitem (deck s) i = Some c1 → Py.getitem (deck s) j = Some c2 →
  on_card_click now s j =
    if bool_decide (c1 = c2) then GoodMatch (after_match s j)
    else TryAgain (after_mismatch now s j).
Proof.
  intros Hr Hb%mm_accepted_open Hi Hj.
  assert (i ≠ j) as Hne.
  { intros ->. apply Hb. right; left. rewrite Hr. by apply elem_of_singleton. }
  rewrite mm_click_open by done. fields. rewrite Hr.
  rewrite bool_decide_eq_true_2 by (by apply size_pair).
  destruct (elements_second i j Hne) as [->| ->]; rewrite Hi, Hj; [done|].
  destruct (decide (c1 = c2)) as [->|Hc]; [done|].
  by rewrite !bool_decide_eq_false_2 by congruence.
Qed.

Lemma mm_ticks_early deadline nows s :
  pending_hide_at s = deadline →
  Forall (λ now, now < deadline)%N nows → ticks nows s = s.
Proof.
  intros Hd. unfold ticks. induction 1 as [|now nows Hnow _ IH]; [done|].
  cbn [foldl]. destruct (mm_tick_cases now s) as [[-> _]|(_ & _ & ?)]; [done|lia].
Qed.

Lemma mm_tick_due now s :
  pending_hide_at s ≠ 0%N → (pending_hide_at s ≤ now)%N →
  tick now s = set_pending_hide_at 0 (set_revealed ∅ s).
Proof.
  intros. destruct (mm_tick_cases now s) as [[_ ?]|[-> _]]; [lia|done].
Qed.

Lemma mm_match_correct now1 now2 s i j c :
  revealed s = ∅ →
  accepted (on_card_click now1 s i) = true →
  accepted (on_card_click now2 (state_of (on_card_click now1 s i)) j) = true →
  Py.getitem (deck s) i = Some c → Py.getitem (deck s) j = Some c →
  ∃ s2, on_card_click now2 (state_of (on_card_click now1 s i)) j = GoodMatch s2 ∧
        i ∈ matched s2 ∧ j ∈ matched s2 ∧ revealed s2 = ∅ ∧
        moves s2 = (moves s + 1)%Z.
Proof.
  intros Hr Hacc1. rewrite (mm_first_card now1 s i Hr Hacc1). fields.
  intros Hacc2 Hi Hj.
  rewrite (mm_second_card now2 _ i j c c) by done.
  rewrite bool_decide_eq_true_2 by done.
  eexists; split; [done|]. unfold after_match. fields.
  case_bool_decide; fields; (split; [set_solver|split; [set_solver|done]]).
Qed.

Lemma mm_mismatch_correct now1 now2 s i j c1 c2 :
  revealed s = ∅ →
  accepted (on_card_click now1 s i) = true →
  accepted (on_card_click now2 (state_of (on_card_click now1 s i)) j) = true →
  Py.getitem (deck s) i = Some c1 → Py.getitem (deck s) j = Some c2 → c1 ≠ c2 →
  ∃ s2, on_card_click now2 (state_of (on_card_click now1 s i)) j = TryAgain s2 ∧
        revealed s2 = {[ i; j ]} ∧
        pending_hide_at s2 = (now2 + 800)%N ∧ pending_hide_at s2 ≠ 0%N ∧
        matched s2 = matched s ∧ moves s2 = (moves s + 1)%Z ∧
        ∀ nows, Forall (λ now, now < pending_hide_at s2)%N nows →
          ticks nows s2 = s2 ∧
          ∀ now, (pending_hide_at s2 ≤ now)%N →
            revealed (tick now (ticks nows s2)) = ∅ ∧
            pending_hide_at (tick now (ticks nows s2)) = 0%N ∧
            matched (tick now (ticks nows s2)) = matched s2 ∧
            moves (tick now (ticks nows s2)) = moves s2.
Proof.
  intros Hr Hacc1. rewrite (mm_first_card now1 s i Hr Hacc1). fields.
  intros Hacc2 Hi Hj Hc.
  rewrite (mm_second_card now2 _ i j c1 c2) by done.
  rewrite bool_decide_eq_false_2 by done.
  eexists; split; [done|]. unfold after_mismatch. fields.
  repeat (split; [done || lia|]).
  intros nows Hearly.
  rewrite (mm_ticks_early (now2 + 800) nows) by done.
  split; [done|]. intros now Hdue.
  rewrite mm_tick_due by (fields; lia). by fields.
Qed.

(** *** Taps that are dropped *)

Lemma mm_noop now s p :
  p ∈ matched s ∨ p ∈ revealed s ∨ finished s = true ∨
    (pending_hide_at s ≠ 0%N ∧ (now < pending_hide_at s)%N) →
  on_card_click now s p = Ignored s.
Proof.
  intros H. apply mm_click_blocked. unfold blocked. tauto.
Qed.

(** *** Rounds *)

Lemma mm_round_inv pool pairs picks order t0 s0 k s :
  new_game pool pairs picks order t0 = inr s0 → reach s0 k s →
  round_inv k s ∧ length (deck s) = 2 * pairs.
Proof.
  intros (Hfresh & Hlen & _)%mm_new_game_inr Hreach.
  destruct (mm_reach_inv s0 k s Hfresh Hreach) as [Hinv Hdeck].
  split; [done|]. by rewrite Hdeck.
Qed.

Lemma mm_round_over pool pairs picks order t0 s0 k s :
  new_game pool pairs picks order t0 = inr s0 → 0 < pairs → reach s0 k s →
  (k = pairs → matched s = board (deck s) ∧ size (matched s) = 2 * pairs ∧
               finished s = true) ∧
  (finished s = true ↔ matched s = board (deck s)).
Proof.
  intros Hnew Hpos Hreach.
  destruct (mm_round_inv _ _ _ _ _ _ _ _ Hnew Hreach) as [[] Hlen].
  pose proof (covers_board (deck s) (matched s) inv_matched_board0) as Hcov.
  split.
  - intros ->. assert (size (matched s) = length (deck s)) as Hall by lia.
    split; [by apply Hcov|]. split; [done|]. apply inv_won0; lia.
  - rewrite Hcov. split; [done|]. intros. apply inv_won0; lia.
Qed.

(** MatchedSet only ever grows, and by the two cards of a matching pair. *)
Lemma mm_matched_steps now s i :
  matched s ⊆ matched (state_of (on_card_click now s i)) ∧
  matched (tick now s) = matched s ∧
  (∀ s', on_card_click now s i = TryAgain s' → matched s' = matched s) ∧
  (∀ s', on_card_click now s i = GoodMatch s' →
     matched s' = matched s ∪ (revealed s ∪ {[ i ]}) ∧
     size (revealed s ∪ {[ i ]}) = 2).
Proof.
  split; [|split; [|split]].
  - destruct (mm_click_cases now s i)
      as [[_ ->]|[(_ & _ & ->)|(_ & i1 & i2 & _ & _ & Hcmp)]]; [done..|].
    destruct Hcmp as [(c & _ & _ & ->)|[(c1 & c2 & _ & _ & _ & ->)|[_ ->]]];
      [|done..].
    unfold after_match. fields. case_bool_decide; fields; set_solver.
  - by destruct (mm_tick_cases now s) as [[-> _]|[-> _]].
  - intros s' Hs'.
    destruct (mm_click_cases now s i)
      as [[_ H]|[(_ & _ & H)|(_ & i1 & i2 & _ & _ & Hcmp)]]; [congruence..|].
    destruct Hcmp as [(c & _ & _ & H)|[(c1 & c2 & _ & _ & _ & H)|[_ H]]];
      rewrite H in Hs'; try done.
    by injection Hs' as <-.
  - intros s' Hs'.
    destruct (mm_click_cases now s i)
      as [[_ H]|[(_ & _ & H)|(_ & i1 & i2 & HX & Hne & Hcmp)]]; [congruence..|].
    destruct Hcmp as [(c & _ & _ & H)|[(c1 & c2 & _ & _ & _ & H)|[_ H]]];
      rewrite H in Hs'; try done.
    injection Hs' as <-. rewrite HX at 2. split; [|by apply size_pair].
    unfold after_match. fields. by case_bool_decide.
Qed.

(** *** Positions the page never draws *)

Lemma mm_off_board now s p :
  ¬ on_board (deck s) p →
  (blocked s p → on_card_click now s p = Ignored s) ∧
  (¬ blocked s p →
     (p ∉ revealed s ∪ matched s) ∧
     p ∈ revealed (state_of (on_card_click now s p)) ∪
         matched (state_of (on_card_click now s p))) ∧
  (¬ blocked s p → revealed s = ∅ →
     on_card_click now s p = FaceUp (set_revealed {[ p ]} s)) ∧
  (¬ blocked s p → size (revealed s) = 1 →
     (Z.of_nat (length (deck s)) ≤ p ∨ Z.of_nat (length (deck s)) + p < 0)%Z →
     on_card_click now s p =
       Raised Py.IndexError
         (set_moves (moves s + 1) (set_revealed (revealed s ∪ {[ p ]}) s))).
Proof.
  intros _. split; [by apply mm_click_blocked|]. split; [|split].
  - intros Hb. split; [unfold blocked in Hb; set_solver|].
    destruct (mm_click_cases now s p)
      as [[? _]|[(_ & _ & ->)|(_ & i1 & i2 & _ & _ & Hcmp)]]; [done| |].
    + fields. set_solver.
    + destruct Hcmp as [(c & _ & _ & ->)|[(c1 & c2 & H1 & H2 & _ & ->)|[_ ->]]].
      * unfold after_match. fields. case_bool_decide; fields; set_solver.
      * unfold after_mismatch. fields. set_solver.
      * fields. set_solver.
  - intros Hb Hr. apply mm_first_card; [done|].
    destruct (mm_click_cases now s p)
      as [[? _]|[(_ & _ & ->)|(_ & i1 & i2 & HX & Hne & _)]]; [done..|].
    apply size_pair in Hne. rewrite <- HX, Hr, (left_id_L ∅ (∪)) in Hne.
    by rewrite size_singleton in Hne.
  - intros Hb Hone Hp. apply getitem_past_end in Hp.
    assert (p ∉ revealed s) as Hpr by (unfold blocked in Hb; tauto).
    rewrite mm_click_open by done. fields.
    rewrite bool_decide_eq_true_2 by (rewrite size_one_more by done; lia).
    destruct (elements_two (revealed s ∪ {[ p ]})) as (i1 & i2 & -> & _ & HX).
    { rewrite size_one_more by done. lia. }
    assert (p = i1 ∨ p = i2) as [<- | <-].
    { assert (p ∈ ({[ i1; i2 ]} : gset Z)) as Hin by (rewrite <- HX; set_solver).
      by rewrite elem_of_union, !elem_of_singleton in Hin. }
    + by rewrite Hp.
    + rewrite Hp. by destruct (Py.getitem (deck s) i1).
Qed.

Lemma mm_play_reach s0 es : ∀ k s k' s',
  reach s0 k s → play k s es = Some (k', s') → reach s0 k' s'.
Proof.
  induction es as [|[now|now i] es IH]; intros k s k' s' Hreach; cbn [play].
  - by intros [= <- <-].
  - apply IH. by apply reach_tick.
  - case_bool_decide as Hi; [|done]. apply IH. by apply reach_flip.
Qed.

(** Disjointness is kept by every redraw and by every tap, whatever the
    position and whether or not the handler raises. *)
Lemma mm_disjoint_step now s i :
  revealed s ## matched s →
  revealed (tick now s) ## matched (tick now s) ∧
  revealed (state_of (on_card_click now s i)) ##
    matched (state_of (on_card_click now s i)).
Proof.
  intros Hdis. split.
  - destruct (mm_tick_cases now s) as [[-> _]|[-> _]]; [done|].
    fields. apply disjoint_empty_l.
  - destruct (mm_click_cases now s i)
      as [[_ ->]|[(Hb & _ & ->)|(Hb & i1 & i2 & _ & _ & Hcmp)]]; [done| |].
    + fields. unfold blocked in Hb. set_solver.
    + destruct Hcmp as [(c & _ & _ & ->)|[(c1 & c2 & _ & _ & _ & ->)|[_ ->]]].
      * unfold after_match. fields.
        case_bool_decide; fields; apply disjoint_empty_l.
      * unfold after_mismatch. fields. unfold blocked in Hb. set_solver.
      * fields. unfold blocked in Hb. set_solver.
Qed.

(** *** The move counter *)

Lemma mm_moves_step now s i :
  moves (tick now s) = moves s ∧
  moves (state_of (on_card_click now s i)) =
    match on_card_click now s i with
    | Ignored _ | FaceUp _ => moves s
    | GoodMatch _ | TryAgain _ | Raised _ _ => (moves s + 1)%Z
    end.
Proof.
  split.
  - by destruct (mm_tick_cases now s) as [[-> _]|[-> _]].
  - destruct (mm_click_cases now s i)
      as [[_ ->]|[(_ & _ & ->)|(_ & i1 & i2 & _ & _ & Hcmp)]]; [done..|].
    destruct Hcmp as [(c & _ & _ & ->)|[(c1 & c2 & _ & _ & _ & ->)|[_ ->]]];
      [|done..].
    unfold after_match. fields. by case_bool_decide.
Qed.

(** *** Errors *)

Lemma mm_new_game_raises pool pairs picks order t0 :
  (∃ e, new_game pool pairs picks order t0 = inl e) ↔ length pool < pairs.
Proof.
  rewrite <- (sample_raises pool pairs picks). unfold new_game.
  destruct (Py.sample pool pairs picks) as [e|symbols]; split;
    intros [e' He']; by eauto.
Qed.

Lemma mm_new_game_error pool pairs picks order t0 e :
  new_game pool pairs picks order t0 = inl e → e = Py.ValueError.
Proof.
  unfold new_game, Py.sample. case_decide; [done|]. by intros [= <-].
Qed.

Lemma mm_click_safe k now s i :
  round_inv k s → on_board (deck s) i →
  raises (on_card_click now s i) = false.
Proof.
  intros [Hrb _ _ _ _ _ _ _] Hi%elem_of_board.
  destruct (mm_click_cases now s i)
    as [[_ ->]|[(_ & _ & ->)|(_ & i1 & i2 & HX & _ & Hcmp)]]; [done..|].
  destruct Hcmp as [(c & _ & _ & ->)|[(c1 & c2 & _ & _ & _ & ->)|[Hnone _]]];
    [done..|].
  assert (revealed s ∪ {[ i ]} ⊆ board (deck s)) as Hsub.
  { apply union_subseteq. split; [done|]. by apply singleton_subseteq_l. }
  rewrite HX in Hsub.
  assert (is_Some (Py.getitem (deck s) i1)) as [? ?].
  { apply getitem_on_board, elem_of_board, Hsub. set_solver. }
  assert (is_Some (Py.getitem (deck s) i2)) as [? ?].
  { apply getitem_on_board, elem_of_board, Hsub. set_solver. }
  destruct Hnone; congruence.
Qed.

(** *** The deck *)

Lemma mm_deck_pairs pool pairs picks order t0 s0 :
  NoDup pool → new_game pool pairs picks order t0 = inr s0 →
  length (deck s0) = 2 * pairs ∧
  ∀ x, x ∈ deck s0 → occurrences x (deck s0) = 2.
Proof.
  intros Hpool (_ & Hlen & symbols & Hs & Hperm)%mm_new_game_inr.
  split; [done|]. intros x Hx.
  rewrite (occurrences_Permutation x _ _ Hperm), occurrences_app.
  rewrite Hperm in Hx.
  assert (x ∈ symbols) as Hin by (apply elem_of_app in Hx; tauto).
  rewrite (occurrences_NoDup x symbols); [done| |done].
  by eapply sample_NoDup.
Qed.

Lemma mm_new_game_ok pool pairs picks order t0 :
  pairs ≤ length pool → ∃ s0, new_game pool pairs picks order t0 = inr s0.
Proof.
  intros Hle. destruct (new_game pool pairs picks order t0) as [e|s0] eqn:Hnew;
    [|by eauto].
  assert (length pool < pairs)
    by (apply (mm_new_game_raises pool pairs picks order t0); eauto).
  lia.
Qed.

Lemma mm_themes_distinct :
  Forall (λ theme, NoDup theme.2 ∧ length theme.2 = 16) THEMES.
Proof.
  unfold THEMES. repeat apply Forall_cons_2; [..|by apply Forall_nil];
    cbn [snd]; (split; [|done]); apply (bool_decide_unpack _); by vm_compute.
Qed.

End MemoryMatchFacts.

(** ** match.py: the click handler, path by path *)

Module AnimalMatchFacts.
Import AnimalMatch.

(** Read fields off updated sessions without unfolding the sets. *)
Ltac fields :=
  cbn [deck revealed matched moves finished lock hide_at
       set_revealed set_matched set_moves set_finished set_lock set_hide_at
       state_of good_matches raises accepted] in *.

Lemma am_blocked_dec (s : session) (i : Z) : blocked s i ∨ ¬ blocked s i.
Proof.
  unfold blocked.
  destruct (lock s) eqn:?; [by auto|].
  destruct (decide (i ∈ matched s)); [by auto|].
  destruct (decide (i ∈ revealed s)); [by auto|].
  destruct (finished s) eqn:?; [by auto|].
  right. intros [?|[?|[?|?]]]; done.
Qed.

Lemma am_click_blocked now s i :
  blocked s i → on_card_click now s i = Ignored s.
Proof.
  unfold blocked, on_card_click. intros Hb.
  destruct (lock s) eqn:Hl; [done|].
  destruct (bool_decide (i ∈ matched s)) eqn:Hm; [done|].
  destruct (bool_decide (i ∈ revealed s)) eqn:Hr; [done|].
  destruct (finished s) eqn:Hf; [done|]. simpl.
  apply bool_decide_eq_false in Hm, Hr.
  destruct Hb as [?|[?|[?|?]]]; done.
Qed.

Lemma am_click_open now s i :
  ¬ blocked s i →
  on_card_click now s i =
    let s1 := set_revealed (revealed s ∪ {[ i ]}) s in
    if bool_decide (size (revealed s1) = 2) then
      let s2 := set_moves (moves s1 + 1) s1 in
      match elements (revealed s2) with
      | [i1; i2] =>
          match Py.getitem (deck s2) i1, Py.getitem (deck s2) i2 with
          | Some c1, Some c2 =>
              if bool_decide (c1 = c2) then GoodMatch (after_match s i)
              else TryAgain (after_mismatch now s i)
          | _, _ => Raised Py.IndexError s2
          end
      | _ => Raised Py.ValueError s2
      end
    else FaceUp s1.
Proof.
  unfold blocked, on_card_click. intros Hb.
  destruct (lock s) eqn:Hl; [tauto|].
  rewrite !bool_decide_eq_false_2 by tauto.
  destruct (finished s) eqn:Hf; [tauto|].
  simpl. unfold after_match. simpl.
  repeat case_match; done.
Qed.

(** The five ways out of the handler. *)
Lemma am_click_cases now s i :
  (blocked s i ∧ on_card_click now s i = Ignored s) ∨
  (¬ blocked s i ∧ size (revealed s ∪ {[ i ]}) ≠ 2 ∧
     on_card_click now s i = FaceUp (set_revealed (revealed s ∪ {[ i ]}) s)) ∨
  (¬ blocked s i ∧ ∃ i1 i2, revealed s ∪ {[ i ]} = {[ i1; i2 ]} ∧ i1 ≠ i2 ∧
     ((∃ c, Py.getitem (deck s) i1 = Some c ∧ Py.getitem (deck s) i2 = Some c ∧
            on_card_click now s i = GoodMatch (after_match s i)) ∨
      (∃ c1 c2, Py.getitem (deck s) i1 = Some c1 ∧
            Py.getitem (deck s) i2 = Some c2 ∧ c1 ≠ c2 ∧
            on_card_click now s i = TryAgain (after_mismatch now s i)) ∨
      ((Py.getitem (deck s) i1 = None ∨ Py.getitem (deck s) i2 = None) ∧
            on_card_click now s i =
              Raised Py.IndexError
                (set_moves (moves s + 1) (set_revealed (revealed s ∪ {[ i ]}) s))))).
Proof.
  destruct (am_blocked_dec s i) as [Hb|Hb]; [left; by auto using am_click_blocked|].
  right. rewrite am_click_open by done. simpl.
  case_bool_decide as Hsize; [right|left; by auto].
  destruct (elements_two _ Hsize) as (i1 & i2 & -> & Hne & HX).
  split; [done|]. exists i1, i2. split; [done|]. split; [done|].
  destruct (Py.getitem (deck s) i1) as [c1|] eqn:H1;
    destruct (Py.getitem (deck s) i2) as [c2|] eqn:H2; [|by auto..].
  case_bool_decide as Hc.
  - subst c2. left. by exists c1.
  - right; left. by exists c1, c2.
Qed.

Lemma am_new_game_inr prev pairs picks order s0 :
  new_game prev pairs picks order = inr s0 →
  fresh s0 ∧ length (deck s0) = 2 * pairs ∧
  ∃ symbols, Py.sample ANIMALS pairs picks = inr symbols ∧
             deck s0 ≡ₚ symbols ++ symbols.
Proof.
  unfold new_game. destruct (Py.sample _ _ _) as [e|symbols] eqn:Hs; [done|].
  intros [= <-]. simpl. apply sample_inr in Hs as Hs'.
  destruct Hs' as (_ & Hlen & _).
  pose proof (shuffle_Permutation (symbols ++ symbols) order) as Hperm.
  split; [done|]. split.
  - rewrite Hperm, length_app. lia.
  - by exists symbols.
Qed.

Lemma am_fresh_inv s0 : fresh s0 → round_inv 0 s0.
Proof.
  intros (Hr & Hm & _ & Hf & Hl). split; rewrite ?Hr, ?Hm, ?Hf; try done.
  all: rewrite ?size_empty; done || lia.
Qed.

Lemma am_tick_cases now s :
  (tick now s = s ∧ (hide_at s = 0 ∨ now < hide_at s)%N) ∨
  (tick now s = set_hide_at 0 (set_lock false (set_revealed ∅ s)) ∧
   hide_at s ≠ 0%N ∧ (hide_at s ≤ now)%N).
Proof.
  unfold tick.
  destruct (N.eqb_spec (hide_at s) 0); simpl; [left; by auto|].
  destruct (N.leb_spec (hide_at s) now); [right|left]; by auto.
Qed.

Lemma am_tick_inv k now s : round_inv k s → round_inv k (tick now s).
Proof.
  intros []. destruct (am_tick_cases now s) as [[-> _]|[-> _]]; [done|].
  split; fields; try done.
  all: rewrite ?size_empty; done || lia.
Qed.

Lemma am_click_inv k now s i :
  round_inv k s → on_board (deck s) i →
  round_inv (k + good_matches (on_card_click now s i))
            (state_of (on_card_click now s i)).
Proof.
  intros [Hrb Hmb Hdis Hrs Hlock Hms Hfin Hwon] Hi%elem_of_board.
  destruct (am_click_cases now s i)
    as [[Hb ->]|[(Hb & Hsize & ->)|(Hb & i1 & i2 & HX & Hne & Hcmp)]]; fields.
  - rewrite Nat.add_0_r. by split.
  - unfold blocked in Hb. rewrite Nat.add_0_r.
    assert (i ∉ revealed s) as Hir by tauto.
    assert (i ∉ matched s) as Him by tauto.
    rewrite size_one_more in Hsize by done.
    split; fields; try done.
    + apply union_subseteq. split; [done|]. by apply singleton_subseteq_l.
    + apply disjoint_union_l. split; [done|]. by apply disjoint_singleton_l.
    + rewrite size_one_more by done.
      destruct (decide (size (revealed s) = 2)) as [Htwo|]; [|lia].
      apply Hlock in Htwo. tauto.
    + rewrite size_one_more by done. intros. lia.
  - unfold blocked in Hb.
    assert (i ∉ matched s) as Him by tauto.
    assert (finished s = false) as Hf by (destruct (finished s); tauto).
    assert (revealed s ∪ {[ i ]} ⊆ board (deck s)) as Hsub.
    { apply union_subseteq. split; [done|]. by apply singleton_subseteq_l. }
    assert (revealed s ∪ {[ i ]} ## matched s) as Hdis'.
    { apply disjoint_union_l. split; [done|]. by apply disjoint_singleton_l. }
    pose proof (size_pair i1 i2 Hne) as Hpair. rewrite <- HX in Hpair.
    destruct Hcmp as [(c & _ & _ & ->)|[(c1 & c2 & _ & _ & _ & ->)|[Hnone ->]]];
      fields.
    + assert (size (matched s ∪ (revealed s ∪ {[ i ]})) = 2 * (k + 1)) as Hsz.
      { rewrite size_union by done. lia. }
      assert (matched s ∪ (revealed s ∪ {[ i ]}) ⊆ board (deck s)) as Hmb'.
      { by apply union_subseteq. }
      unfold after_match. fields.
      case_bool_decide as Hall; split; fields; rewrite ?size_empty;
        first [done | lia | congruence | apply empty_subseteq
              | apply disjoint_empty_l ].
    + rewrite Nat.add_0_r. unfold after_mismatch.
      split; fields; first [done | lia].
    + exfalso. rewrite HX in Hsub.
      assert (is_Some (Py.getitem (deck s) i1)) as [? ?].
      { apply getitem_on_board, elem_of_board, Hsub. set_solver. }
      assert (is_Some (Py.getitem (deck s) i2)) as [? ?].
      { apply getitem_on_board, elem_of_board, Hsub. set_solver. }
      destruct Hnone; congruence.
Qed.

Lemma am_tick_deck now s : deck (tick now s) = deck s.
Proof. by destruct (am_tick_cases now s) as [[-> _]|[-> _]]. Qed.

Lemma am_click_deck now s i : deck (state_of (on_card_click now s i)) = deck s.
Proof.
  destruct (am_click_cases now s i)
    as [[_ ->]|[(_ & _ & ->)|(_ & i1 & i2 & _ & _ & Hcmp)]]; [done..|].
  destruct Hcmp as [(c & _ & _ & ->)|[(c1 & c2 & _ & _ & _ & ->)|[_ ->]]];
    [|done..].
  simpl. unfold after_match. by case_bool_decide.
Qed.

Lemma am_reach_inv s0 k s :
  fresh s0 → reach s0 k s → round_inv k s ∧ deck s = deck s0.
Proof.
  intros Hfresh. induction 1 as [|k s now _ [IH Hd]|k s now i _ [IH Hd] Hi].
  - split; [by apply am_fresh_inv|done].
  - split; [by apply am_tick_inv|by rewrite am_tick_deck].
  - split; [by apply am_click_inv|by rewrite am_click_deck].
Qed.

(** *** A pair-comparison, card by card *)

Lemma am_accepted_open now s i :
  accepted (on_card_click now s i) = true → ¬ blocked s i.
Proof.
  intros Hacc Hb. by rewrite (am_click_blocked now s i Hb) in Hacc.
Qed.

Lemma am_open_accepted now s i :
  ¬ blocked s i → accepted (on_card_click now s i) = true.
Proof.
  intros Hb. destruct (am_click_cases now s i)
    as [[? _]|[(_ & _ & ->)|(_ & i1 & i2 & _ & _ & Hcmp)]]; [done..|].
  by destruct Hcmp as [(c & _ & _ & ->)|[(c1 & c2 & _ & _ & _ & ->)|[_ ->]]].
Qed.

Lemma am_ignored_iff now s i :
  on_card_click now s i = Ignored s ↔ blocked s i.
Proof.
  split; [|by apply am_click_blocked].
  intros Hign. destruct (am_blocked_dec s i) as [|Hopen]; [done|].
  apply (am_open_accepted now) in Hopen. by rewrite Hign in Hopen.
Qed.

Lemma am_first_card now s i :
  revealed s = ∅ → accepted (on_card_click now s i) = true →
  on_card_click now s i = FaceUp (set_revealed {[ i ]} s).
Proof.
  intros Hr Hb%am_accepted_open.
  destruct (am_click_cases now s i)
    as [[? _]|[(_ & _ & ->)|(_ & i1 & i2 & HX & Hne & _)]]; [done| |].
  - by rewrite Hr, (left_id_L ∅ (∪)).
  - apply size_pair in Hne. rewrite <- HX, Hr, (left_id_L ∅ (∪)) in Hne.
    by rewrite size_singleton in Hne.
Qed.

Lemma am_second_card now s i j c1 c2 :
  revealed s = {[ i ]} → accepted (on_card_click now s j) = true →
  Py.getitem (deck s) i = Some c1 → Py.getitem (deck s) j = Some c2 →
  on_card_click now s j =
    if bool_decide (c1 = c2) then GoodMatch (after_match s j)
    else TryAgain (after_mismatch now s j).
Proof.
  intros Hr Hb%am_accepted_open Hi Hj.
  assert (i ≠ j) as Hne.
  { intros ->. apply Hb. right; right; left. rewrite Hr.
    by apply elem_of_singleton. }
  rewrite am_click_open by done. fields. rewrite Hr.
  rewrite bool_decide_eq_true_2 by (by apply size_pair).
  destruct (elements_second i j Hne) as [->| ->]; rewrite Hi, Hj; [done|].
  destruct (decide (c1 = c2)) as [->|Hc]; [done|].
  by rewrite !bool_decide_eq_false_2 by congruence.
Qed.

Lemma am_ticks_early deadline nows s :
  hide_at s = deadline →
  Forall (λ now, now < deadline)%N nows → ticks nows s = s.
Proof.
  intros Hd. unfold ticks. induction 1 as [|now nows Hnow _ IH]; [done|].
  cbn [foldl]. destruct (am_tick_cases now s) as [[-> _]|(_ & _ & ?)]; [done|lia].
Qed.

Lemma am_tick_due now s :
  hide_at s ≠ 0%N → (hide_at s ≤ now)%N →
  tick now s = set_hide_at 0 (set_lock false (set_revealed ∅ s)).
Proof.
  intros. destruct (am_tick_cases now s) as [[_ ?]|[-> _]]; [lia|done].
Qed.

Lemma am_match_correct now1 now2 s i j c :
  revealed s = ∅ →
  accepted (on_card_click now1 s i) = true →
  accepted (on_card_click now2 (state_of (on_card_click now1 s i)) j) = true →
  Py.getitem (deck s) i = Some c → Py.getitem (deck s) j = Some c →
  ∃ s2, on_card_click now2 (state_of (on_card_click now1 s i)) j = GoodMatch s2 ∧
        i ∈ matched s2 ∧ j ∈ matched s2 ∧ revealed s2 = ∅ ∧
        moves s2 = (moves s + 1)%Z.
Proof.
  intros Hr Hacc1. rewrite (am_first_card now1 s i Hr Hacc1). fields.
  intros Hacc2 Hi Hj.
  rewrite (am_second_card now2 _ i j c c) by done.
  rewrite bool_decide_eq_true_2 by done.
  eexists; split; [done|]. unfold after_match. fields.
  case_bool_decide; fields; (split; [set_solver|split; [set_solver|done]]).
Qed.

Lemma am_mismatch_correct now1 now2 s i j c1 c2 :
  revealed s = ∅ →
  accepted (on_card_click now1 s i) = true →
  accepted (on_card_click now2 (state_of (on_card_click now1 s i)) j) = true →
  Py.getitem (deck s) i = Some c1 → Py.getitem (deck s) j = Some c2 → c1 ≠ c2 →
  ∃ s2, on_card_click now2 (state_of (on_card_click now1 s i)) j = TryAgain s2 ∧
        revealed s2 = {[ i; j ]} ∧
        hide_at s2 = (now2 + 850)%N ∧ hide_at s2 ≠ 0%N ∧ lock s2 = true ∧
        matched s2 = matched s ∧ moves s2 = (moves s + 1)%Z ∧
        ∀ nows, Forall (λ now, now < hide_at s2)%N nows →
          ticks nows s2 = s2 ∧
          ∀ now, (hide_at s2 ≤ now)%N →
            revealed (tick now (ticks nows s2)) = ∅ ∧
            hide_at (tick now (ticks nows s2)) = 0%N ∧
            lock (tick now (ticks nows s2)) = false ∧
            matched (tick now (ticks nows s2)) = matched s2 ∧
            moves (tick now (ticks nows s2)) = moves s2.
Proof.
  intros Hr Hacc1. rewrite (am_first_card now1 s i Hr Hacc1). fields.
  intros Hacc2 Hi Hj Hc.
  rewrite (am_second_card now2 _ i j c1 c2) by done.
  rewrite bool_decide_eq_false_2 by done.
  eexists; split; [done|]. unfold after_mismatch. fields.
  repeat (split; [done || lia|]).
  intros nows Hearly.
  rewrite (am_ticks_early (now2 + 850) nows) by done.
  split; [done|]. intros now Hdue.
  rewrite am_tick_due by (fields; lia). by fields.
Qed.

(** *** Taps that are dropped *)

Lemma am_noop now s p :
  p ∈ matched s ∨ p ∈ revealed s ∨ finished s = true ∨ lock s = true →
  on_card_click now s p = Ignored s.
Proof.
  intros H. apply am_click_blocked. unfold blocked. tauto.
Qed.

(** *** Rounds *)

Lemma am_round_inv prev pairs picks order s0 k s :
  new_game prev pairs picks order = inr s0 → reach s0 k s →
  round_inv k s ∧ length (deck s) = 2 * pairs.
Proof.
  intros (Hfresh & Hlen & _)%am_new_game_inr Hreach.
  destruct (am_reach_inv s0 k s Hfresh Hreach) as [Hinv Hdeck].
  split; [done|]. by rewrite Hdeck.
Qed.

Lemma am_round_over prev pairs picks order s0 k s :
  new_game prev pairs picks order = inr s0 → 0 < pairs → reach s0 k s →
  (k = pairs → matched s = board (deck s) ∧ size (matched s) = 2 * pairs ∧
               finished s = true) ∧
  (finished s = true ↔ matched s = board (deck s)).
Proof.
  intros Hnew Hpos Hreach.
  destruct (am_round_inv _ _ _ _ _ _ _ Hnew Hreach) as [[] Hlen].
  pose proof (covers_board (deck s) (matched s) inv_matched_board0) as Hcov.
  split.
  - intros ->. assert (size (matched s) = length (deck s)) as Hall by lia.
    split; [by apply Hcov|]. split; [done|]. apply inv_won0; lia.
  - rewrite Hcov. split; [done|]. intros. apply inv_won0; lia.
Qed.

(** MatchedSet only ever grows, and by the two cards of a matching pair. *)
Lemma am_matched_steps now s i :
  matched s ⊆ matched (state_of (on_card_click now s i)) ∧
  matched (tick now s) = matched s ∧
  (∀ s', on_card_click now s i = TryAgain s' → matched s' = matched s) ∧
  (∀ s', on_card_click now s i = GoodMatch s' →
     matched s' = matched s ∪ (revealed s ∪ {[ i ]}) ∧
     size (revealed s ∪ {[ i ]}) = 2).
Proof.
  split; [|split; [|split]].
  - destruct (am_click_cases now s i)
      as [[_ ->]|[(_ & _ & ->)|(_ & i1 & i2 & _ & _ & Hcmp)]]; [done..|].
    destruct Hcmp as [(c & _ & _ & ->)|[(c1 & c2 & _ & _ & _ & ->)|[_ ->]]];
      [|done..].
    unfold after_match. fields. case_bool_decide; fields; set_solver.
  - by destruct (am_tick_cases now s) as [[-> _]|[-> _]].
  - intros s' Hs'.
    destruct (am_click_cases now s i)
      as [[_ H]|[(_ & _ & H)|(_ & i1 & i2 & _ & _ & Hcmp)]]; [congruence..|].
    destruct Hcmp as [(c & _ & _ & H)|[(c1 & c2 & _ & _ & _ & H)|[_ H]]];
      rewrite H in Hs'; try done.
    by injection Hs' as <-.
  - intros s' Hs'.
    destruct (am_click_cases now s i)
      as [[_ H]|[(_ & _ & H)|(_ & i1 & i2 & HX & Hne & Hcmp)]]; [congruence..|].
    destruct Hcmp as [(c & _ & _ & H)|[(c1 & c2 & _ & _ & _ & H)|[_ H]]];
      rewrite H in Hs'; try done.
    injection Hs' as <-. rewrite HX at 2. split; [|by apply size_pair].
    unfold after_match. fields. by case_bool_decide.
Qed.

(** *** Positions the page never draws *)

Lemma am_off_board now s p :
  ¬ on_board (deck s) p →
  (blocked s p → on_card_click now s p = Ignored s) ∧
  (¬ blocked s p →
     (p ∉ revealed s ∪ matched s) ∧
     p ∈ revealed (state_of (on_card_click now s p)) ∪
         matched (state_of (on_card_click now s p))) ∧
  (¬ blocked s p → revealed s = ∅ →
     on_card_click now s p = FaceUp (set_revealed {[ p ]} s)) ∧
  (¬ blocked s p → size (revealed s) = 1 →
     (Z.of_nat (length (deck s)) ≤ p ∨ Z.of_nat (length (deck s)) + p < 0)%Z →
     on_card_click now s p =
       Raised Py.IndexError
         (set_moves (moves s + 1) (set_revealed (revealed s ∪ {[ p ]}) s))).
Proof.
  intros _. split; [by apply am_click_blocked|]. split; [|split].
  - intros Hb. split; [unfold blocked in Hb; set_solver|].
    destruct (am_click_cases now s p)
      as [[? _]|[(_ & _ & ->)|(_ & i1 & i2 & _ & _ & Hcmp)]]; [done| |].
    + fields. set_solver.
    + destruct Hcmp as [(c & _ & _ & ->)|[(c1 & c2 & H1 & H2 & _ & ->)|[_ ->]]].
      * unfold after_match. fields. case_bool_decide; fields; set_solver.
      * unfold after_mismatch. fields. set_solver.
      * fields. set_solver.
  - intros Hb Hr. apply am_first_card; [done|].
    destruct (am_click_cases now s p)
      as [[? _]|[(_ & _ & ->)|(_ & i1 & i2 & HX & Hne & _)]]; [done..|].
    apply size_pair in Hne. rewrite <- HX, Hr, (left_id_L ∅ (∪)) in Hne.
    by rewrite size_singleton in Hne.
  - intros Hb Hone Hp. apply getitem_past_end in Hp.
    assert (p ∉ revealed s) as Hpr by (unfold blocked in Hb; tauto).
    rewrite am_click_open by done. fields.
    rewrite bool_decide_eq_true_2 by (rewrite size_one_more by done; lia).
    destruct (elements_two (revealed s ∪ {[ p ]})) as (i1 & i2 & -> & _ & HX).
    { rewrite size_one_more by done. lia. }
    assert (p = i1 ∨ p = i2) as [<- | <-].
    { assert (p ∈ ({[ i1; i2 ]} : gset Z)) as Hin by (rewrite <- HX; set_solver).
      by rewrite elem_of_union, !elem_of_singleton in Hin. }
    + by rewrite Hp.
    + rewrite Hp. by destruct (Py.getitem (deck s) i1).
Qed.

Lemma am_play_reach s0 es : ∀ k s k' s',
  reach s0 k s → play k s es = Some (k', s') → reach s0 k' s'.
Proof.
  induction es as [|[now|now i] es IH]; intros k s k' s' Hreach; cbn [play].
  - by intros [= <- <-].
  - apply IH. by apply reach_tick.
  - case_bool_decide as Hi; [|done]. apply IH. by apply reach_flip.
Qed.

(** In a round begun with no hide scheduled, the lock is on exactly while
    a hide is scheduled. *)
Lemma am_lock_pending s0 k s :
  lock s0 = false → hide_at s0 = 0%N → reach s0 k s →
  (lock s = true ↔ hide_at s ≠ 0%N).
Proof.
  intros Hl Hh. induction 1 as [|k s now _ IH|k s now i _ IH _].
  - by rewrite Hl, Hh.
  - destruct (am_tick_cases now s) as [[-> _]|[-> _]]; [done|]. by fields.
  - destruct (am_click_cases now s i)
      as [[_ ->]|[(_ & _ & ->)|(_ & i1 & i2 & _ & _ & Hcmp)]]; [done..|].
    destruct Hcmp as [(c & _ & _ & ->)|[(c1 & c2 & _ & _ & _ & ->)|[_ ->]]];
      [|unfold after_mismatch; fields; split; [lia|done]|done].
    unfold after_match. fields. by case_bool_decide.
Qed.

(** Disjointness is kept by every redraw and by every tap, whatever the
    position and whether or not the handler raises. *)
Lemma am_disjoint_step now s i :
  revealed s ## matched s →
  revealed (tick now s) ## matched (tick now s) ∧
  revealed (state_of (on_card_click now s i)) ##
    matched (state_of (on_card_click now s i)).
Proof.
  intros Hdis. split.
  - destruct (am_tick_cases now s) as [[-> _]|[-> _]]; [done|].
    fields. apply disjoint_empty_l.
  - destruct (am_click_cases now s i)
      as [[_ ->]|[(Hb & _ & ->)|(Hb & i1 & i2 & _ & _ & Hcmp)]]; [done| |].
    + fields. unfold blocked in Hb. set_solver.
    + destruct Hcmp as [(c & _ & _ & ->)|[(c1 & c2 & _ & _ & _ & ->)|[_ ->]]].
      * unfold after_match. fields.
        case_bool_decide; fields; apply disjoint_empty_l.
      * unfold after_mismatch. fields. unfold blocked in Hb. set_solver.
      * fields. unfold blocked in Hb. set_solver.
Qed.

(** *** The move counter *)

Lemma am_moves_step now s i :
  moves (tick now s) = moves s ∧
  moves (state_of (on_card_click now s i)) =
    match on_card_click now s i with
    | Ignored _ | FaceUp _ => moves s
    | GoodMatch _ | TryAgain _ | Raised _ _ => (moves s + 1)%Z
    end.
Proof.
  split.
  - by destruct (am_tick_cases now s) as [[-> _]|[-> _]].
  - destruct (am_click_cases now s i)
      as [[_ ->]|[(_ & _ & ->)|(_ & i1 & i2 & _ & _ & Hcmp)]]; [done..|].
    destruct Hcmp as [(c & _ & _ & ->)|[(c1 & c2 & _ & _ & _ & ->)|[_ ->]]];
      [|done..].
    unfold after_match. fields. by case_bool_decide.
Qed.

(** *** Errors *)

Lemma am_new_game_raises prev pairs picks order :
  (∃ e, new_game prev pairs picks order = inl e) ↔ length ANIMALS < pairs.
Proof.
  rewrite <- (sample_raises ANIMALS pairs picks). unfold new_game.
  destruct (Py.sample ANIMALS pairs picks) as [e|symbols]; split;
    intros [e' He']; by eauto.
Qed.

Lemma am_new_game_error prev pairs picks order e :
  new_game prev pairs picks order = inl e → e = Py.ValueError.
Proof.
  unfold new_game, Py.sample. case_decide; [done|]. by intros [= <-].
Qed.

Lemma am_click_safe k now s i :
  round_inv k s → on_board (deck s) i →
  raises (on_card_click now s i) = false.
Proof.
  intros [Hrb _ _ _ _ _ _ _] Hi%elem_of_board.
  destruct (am_click_cases now s i)
    as [[_ ->]|[(_ & _ & ->)|(_ & i1 & i2 & HX & _ & Hcmp)]]; [done..|].
  destruct Hcmp as [(c & _ & _ & ->)|[(c1 & c2 & _ & _ & _ & ->)|[Hnone _]]];
    [done..|].
  assert (revealed s ∪ {[ i ]} ⊆ board (deck s)) as Hsub.
  { apply union_subseteq. split; [done|]. by apply singleton_subseteq_l. }
  rewrite HX in Hsub.
  assert (is_Some (Py.getitem (deck s) i1)) as [? ?].
  { apply getitem_on_board, elem_of_board, Hsub. set_solver. }
  assert (is_Some (Py.getitem (deck s) i2)) as [? ?].
  { apply getitem_on_board, elem_of_board, Hsub. set_solver. }
  destruct Hnone; congruence.
Qed.

(** *** The deck *)

Lemma am_deck_doubles prev pairs picks order s0 :
  new_game prev pairs picks order = inr s0 →
  length (deck s0) = 2 * pairs ∧
  ∃ symbols, Py.sample ANIMALS pairs picks = inr symbols ∧
    ∀ x, occurrences x (deck s0) = 2 * occurrences x symbols.
Proof.
  intros (_ & Hlen & symbols & Hs & Hperm)%am_new_game_inr.
  split; [done|]. exists symbols. split; [done|]. intros x.
  rewrite (occurrences_Permutation x _ _ Hperm), occurrences_app. lia.
Qed.

(** The fox is listed twice among the animals. *)
Lemma am_animals_fox :
  ANIMALS !! 5 = Some "🦊"%string ∧ ANIMALS !! 17 = Some "🦊"%string ∧
  length ANIMALS = 20 ∧ occurrences "🦊" ANIMALS = 2.
Proof. by vm_compute. Qed.

End AnimalMatchFacts.

(** * The claims, for both scripts *)

(** ** Worked rounds *)

Lemma mm_demo_new_game :
  MemoryMatch.new_game demo_pool 3 [] [0; 2] 1000 = inr mm_demo_round.
Proof. reflexivity. Qed.

Lemma am_demo_new_game :
  AnimalMatch.new_game AnimalMatch.empty_session 3 [] [0; 2] = inr am_demo_round.
Proof. reflexivity. Qed.

Lemma mm_demo_reach_mismatch :
  MemoryMatch.reach mm_demo_round 1 mm_demo_mismatch.
Proof.
  apply (MemoryMatchFacts.mm_play_reach _ mm_demo_events 0 mm_demo_round);
    [apply MemoryMatch.reach_new|by vm_compute].
Qed.

Lemma am_demo_reach_mismatch :
  AnimalMatch.reach am_demo_round 1 am_demo_mismatch.
Proof.
  apply (AnimalMatchFacts.am_play_reach _ am_demo_events 0 am_demo_round);
    [apply AnimalMatch.reach_new|by vm_compute].
Qed.

Lemma mm_demo_reach_won : MemoryMatch.reach mm_demo_round 3 mm_demo_won.
Proof.
  apply (MemoryMatchFacts.mm_play_reach _ mm_demo_rest 1 mm_demo_mismatch);
    [apply mm_demo_reach_mismatch|by vm_compute].
Qed.

Lemma am_demo_reach_won : AnimalMatch.reach am_demo_round 3 am_demo_won.
Proof.
  apply (AnimalMatchFacts.am_play_reach _ am_demo_rest 1 am_demo_mismatch);
    [apply am_demo_reach_mismatch|by vm_compute].
Qed.

(** ** Pair-comparisons *)

(** C1 (match correctness).  In either script, from any session with no
    card face-up: when the tap on [i] is accepted (it is then the first card
    of a pair-comparison), the tap on [j] that follows is accepted as well,
    and the deck shows the same symbol at [i] and [j], the second tap takes
    the equal-symbols branch and leaves both [i] and [j] in [matched],
    [revealed] empty and [moves] one higher than before the pair.  (That
    [i] and [j] differ follows from the second tap being accepted.) *)
Theorem match_correctness :
  (∀ now1 now2 (s : MemoryMatch.session) (i j : Z) (c : string),
     MemoryMatch.revealed s = ∅ →
     accepted (MemoryMatch.on_card_click now1 s i) = true →
     accepted (MemoryMatch.on_card_click now2
                 (state_of (MemoryMatch.on_card_click now1 s i)) j) = true →
     Py.getitem (MemoryMatch.deck s) i = Some c →
     Py.getitem (MemoryMatch.deck s) j = Some c →
     ∃ s2, MemoryMatch.on_card_click now2
             (state_of (MemoryMatch.on_card_click now1 s i)) j = GoodMatch s2 ∧
           i ∈ MemoryMatch.matched s2 ∧ j ∈ MemoryMatch.matched s2 ∧
           MemoryMatch.revealed s2 = ∅ ∧
           MemoryMatch.moves s2 = (MemoryMatch.moves s + 1)%Z) ∧
  (∀ now1 now2 (s : AnimalMatch.session) (i j : Z) (c : string),
     AnimalMatch.revealed s = ∅ →
     accepted (AnimalMatch.on_card_click now1 s i) = true →
     accepted (AnimalMatch.on_card_click now2
                 (state_of (AnimalMatch.on_card_click now1 s i)) j) = true →
     Py.getitem (AnimalMatch.deck s) i = Some c →
     Py.getitem (AnimalMatch.deck s) j = Some c →
     ∃ s2, AnimalMatch.on_card_click now2
             (state_of (AnimalMatch.on_card_click now1 s i)) j = GoodMatch s2 ∧
           i ∈ AnimalMatch.matched s2 ∧ j ∈ AnimalMatch.matched s2 ∧
           AnimalMatch.revealed s2 = ∅ ∧
           AnimalMatch.moves s2 = (AnimalMatch.moves s + 1)%Z).
Proof.
  split.
  - exact MemoryMatchFacts.mm_match_correct.
  - exact AnimalMatchFacts.am_match_correct.
Qed.

Lemma match_correctness_witness :
  (∃ s2, MemoryMatch.on_card_click 3000
           (state_of (MemoryMatch.on_card_click 2000 mm_demo_round 0)) 1
         = GoodMatch s2 ∧
         0%Z ∈ MemoryMatch.matched s2 ∧ 1%Z ∈ MemoryMatch.matched s2 ∧
         MemoryMatch.revealed s2 = ∅ ∧
         MemoryMatch.moves s2 = (MemoryMatch.moves mm_demo_round + 1)%Z) ∧
  (∃ s2, AnimalMatch.on_card_click 3000
           (state_of (AnimalMatch.on_card_click 2000 am_demo_round 0)) 1
         = GoodMatch s2 ∧
         0%Z ∈ AnimalMatch.matched s2 ∧ 1%Z ∈ AnimalMatch.matched s2 ∧
         AnimalMatch.revealed s2 = ∅ ∧
         AnimalMatch.moves s2 = (AnimalMatch.moves am_demo_round + 1)%Z).
Proof.
  split.
  - apply (proj1 match_correctness 2000%N 3000%N mm_demo_round 0%Z 1%Z "A"%string);
      vm_compute; reflexivity.
  - apply (proj2 match_correctness 2000%N 3000%N am_demo_round 0%Z 1%Z "🐶"%string);
      vm_compute; reflexivity.
Defined.

(** C2 (mismatch correctness).  In either script, from any session with
    no card face-up: when the taps on [i] and then [j] are both accepted and
    the deck shows different symbols there, the second tap takes the
    different-symbols branch: [i] and [j] are exactly the face-up cards, the
    hide deadline is set (800 ms after the tap in memory_match.py, 850 ms
    and the lock in match.py), [matched] is as before and [moves] one
    higher.  Any run of redraws before the deadline leaves that session as
    it is, and the first redraw at or after the deadline empties [revealed]
    and clears the deadline (and the lock), with [matched] and [moves]
    untouched. *)
Theorem mismatch_correctness :
  (∀ now1 now2 (s : MemoryMatch.session) (i j : Z) (c1 c2 : string),
     MemoryMatch.revealed s = ∅ →
     accepted (MemoryMatch.on_card_click now1 s i) = true →
     accepted (MemoryMatch.on_card_click now2
                 (state_of (MemoryMatch.on_card_click now1 s i)) j) = true →
     Py.getitem (MemoryMatch.deck s) i = Some c1 →
     Py.getitem (MemoryMatch.deck s) j = Some c2 → c1 ≠ c2 →
     ∃ s2, MemoryMatch.on_card_click now2
             (state_of (MemoryMatch.on_card_click now1 s i)) j = TryAgain s2 ∧
           MemoryMatch.revealed s2 = {[ i; j ]} ∧
           MemoryMatch.pending_hide_at s2 = (now2 + 800)%N ∧
           MemoryMatch.pending_hide_at s2 ≠ 0%N ∧
           MemoryMatch.matched s2 = MemoryMatch.matched s ∧
           MemoryMatch.moves s2 = (MemoryMatch.moves s + 1)%Z ∧
           ∀ nows,
             Forall (λ now, now < MemoryMatch.pending_hide_at s2)%N nows →
             MemoryMatch.ticks nows s2 = s2 ∧
             ∀ now, (MemoryMatch.pending_hide_at s2 ≤ now)%N →
               let s3 := MemoryMatch.tick now (MemoryMatch.ticks nows s2) in
               MemoryMatch.revealed s3 = ∅ ∧
               MemoryMatch.pending_hide_at s3 = 0%N ∧
               MemoryMatch.matched s3 = MemoryMatch.matched s2 ∧
               MemoryMatch.moves s3 = MemoryMatch.moves s2) ∧
  (∀ now1 now2 (s : AnimalMatch.session) (i j : Z) (c1 c2 : string),
     AnimalMatch.revealed s = ∅ →
     accepted (AnimalMatch.on_card_click now1 s i) = true →
     accepted (AnimalMatch.on_card_click now2
                 (state_of (AnimalMatch.on_card_click now1 s i)) j) = true →
     Py.getitem (AnimalMatch.deck s) i = Some c1 →
     Py.getitem (AnimalMatch.deck s) j = Some c2 → c1 ≠ c2 →
     ∃ s2, AnimalMatch.on_card_click now2
             (state_of (AnimalMatch.on_card_click now1 s i)) j = TryAgain s2 ∧
           AnimalMatch.revealed s2 = {[ i; j ]} ∧
           AnimalMatch.hide_at s2 = (now2 + 850)%N ∧
           AnimalMatch.hide_at s2 ≠ 0%N ∧
           AnimalMatch.lock s2 = true ∧
           AnimalMatch.matched s2 = AnimalMatch.matched s ∧
           AnimalMatch.moves s2 = (AnimalMatch.moves s + 1)%Z ∧
           ∀ nows,
             Forall (λ now, now < AnimalMatch.hide_at s2)%N nows →
             AnimalMatch.ticks nows s2 = s2 ∧
             ∀ now, (AnimalMatch.hide_at s2 ≤ now)%N →
               let s3 := AnimalMatch.tick now (AnimalMatch.ticks nows s2) in
               AnimalMatch.revealed s3 = ∅ ∧
               AnimalMatch.hide_at s3 = 0%N ∧
               AnimalMatch.lock s3 = false ∧
               AnimalMatch.matched s3 = AnimalMatch.matched s2 ∧
               AnimalMatch.moves s3 = AnimalMatch.moves s2).
Proof.
  split.
  - exact MemoryMatchFacts.mm_mismatch_correct.
  - exact AnimalMatchFacts.am_mismatch_correct.
Qed.

Lemma mismatch_correctness_witness :
  (∃ s2, MemoryMatch.on_card_click 5000
           (state_of (MemoryMatch.on_card_click 4000 mm_demo_round 2)) 3
         = TryAgain s2 ∧
         MemoryMatch.revealed s2 = {[ 2%Z; 3%Z ]} ∧
         MemoryMatch.pending_hide_at s2 = 5800%N) ∧
  (∃ s2, AnimalMatch.on_card_click 5000
           (state_of (AnimalMatch.on_card_click 4000 am_demo_round 2)) 3
         = TryAgain s2 ∧
         AnimalMatch.revealed s2 = {[ 2%Z; 3%Z ]} ∧
         AnimalMatch.hide_at s2 = 5850%N).
Proof.
  split.
  - destruct (proj1 mismatch_correctness 4000%N 5000%N mm_demo_round 2%Z 3%Z
                "B"%string "C"%string) as (s2 & H1 & H2 & H3 & _);
      [vm_compute; reflexivity..|discriminate|].
    exists s2. split; [exact H1|]. split; [exact H2|exact H3].
  - destruct (proj2 mismatch_correctness 4000%N 5000%N am_demo_round 2%Z 3%Z
                "🐱"%string "🐭"%string) as (s2 & H1 & H2 & H3 & _);
      [vm_compute; reflexivity..|discriminate|].
    exists s2. split; [exact H1|]. split; [exact H2|exact H3].
Defined.

(** ** Dropped taps *)

(** The taps the handlers drop.  In memory_match.py, for every session and
    position, a tap returns at once, raising nothing and leaving the whole
    session as it was, when the card is in [matched], or in [revealed], or
    the round is finished, or a hide deadline is set and not yet reached.
    In match.py the handler tests the [lock] flag, not the deadline: for
    every session the tap is dropped when the card is in [matched] or in
    [revealed], the round is finished, or [lock] is on.  In a round of
    match.py begun with no hide scheduled, a scheduled hide ([_hide_at] set)
    means the lock is on, so the tap is dropped there too. *)
Theorem noop_preconditions :
  (∀ now (s : MemoryMatch.session) (p : Z),
     p ∈ MemoryMatch.matched s ∨ p ∈ MemoryMatch.revealed s ∨
     MemoryMatch.finished s = true ∨
     (MemoryMatch.pending_hide_at s ≠ 0%N ∧
      (now < MemoryMatch.pending_hide_at s)%N) →
     MemoryMatch.on_card_click now s p = Ignored s) ∧
  (∀ now (s : AnimalMatch.session) (p : Z),
     p ∈ AnimalMatch.matched s ∨ p ∈ AnimalMatch.revealed s ∨
     AnimalMatch.finished s = true ∨ AnimalMatch.lock s = true →
     AnimalMatch.on_card_click now s p = Ignored s) ∧
  (∀ prev pairs picks order s0 k (s : AnimalMatch.session) now (p : Z),
     AnimalMatch.hide_at prev = 0%N →
     AnimalMatch.new_game prev pairs picks order = inr s0 →
     AnimalMatch.reach s0 k s →
     AnimalMatch.hide_at s ≠ 0%N ∧ (now < AnimalMatch.hide_at s)%N →
     AnimalMatch.on_card_click now s p = Ignored s).
Proof.
  split; [exact MemoryMatchFacts.mm_noop|].
  split; [exact AnimalMatchFacts.am_noop|].
  intros prev pairs picks order s0 k s now p Hprev Hnew Hreach [Hset _].
  apply AnimalMatchFacts.am_noop. right; right; right.
  apply (AnimalMatchFacts.am_lock_pending s0 k s); [| |done..].
  - apply AnimalMatchFacts.am_new_game_inr in Hnew as [Hfresh _].
    apply Hfresh.
  - unfold AnimalMatch.new_game in Hnew.
    destruct (Py.sample _ _ _); [done|]. by injection Hnew as <-.
Qed.

Lemma noop_preconditions_witness :
  MemoryMatch.on_card_click 5100 mm_demo_mismatch 4 = Ignored mm_demo_mismatch ∧
  MemoryMatch.on_card_click 5100 mm_demo_mismatch 0 = Ignored mm_demo_mismatch ∧
  MemoryMatch.on_card_click 9000 mm_demo_won 0 = Ignored mm_demo_won ∧
  AnimalMatch.on_card_click 5100 am_demo_mismatch 4 = Ignored am_demo_mismatch ∧
  AnimalMatch.on_card_click 5100 am_demo_mismatch 5 = Ignored am_demo_mismatch.
Proof.
  split; [|split; [|split; [|split]]].
  - apply (proj1 noop_preconditions). right; right; right.
    split; [discriminate|reflexivity].
  - apply (proj1 noop_preconditions). left. vm_compute. reflexivity.
  - apply (proj1 noop_preconditions). right; right; left. reflexivity.
  - apply (proj1 (proj2 noop_preconditions)). right; right; right. reflexivity.
  - apply (proj2 (proj2 noop_preconditions) AnimalMatch.empty_session 3
             [] [0; 2] am_demo_round 1).
    + reflexivity.
    + reflexivity.
    + exact am_demo_reach_mismatch.
    + split; [discriminate|reflexivity].
Defined.

(** C3 (no-op preconditions) fails in match.py for the deadline.
    [new_game] resets [lock] and leaves [_hide_at]; [on_card_click] tests
    [lock] alone.  "New game" pressed at 5150, while the mismatch of cards 2
    and 3 is on display until 5850, deals a round whose deadline is still
    set and ahead; the tap on card 4 at 5200 is not dropped: the card is
    added to [revealed].  In memory_match.py [new_game] clears
    [pending_hide_at], and the handler tests that field itself. *)
Theorem tap_accepted_before_deadline :
  ∃ s0,
    AnimalMatchPage.state
      (AnimalMatchPage.after
         (AnimalMatchPage.script (amp_new_game_run 5150)
            (AnimalMatchPage.Page am_demo_mismatch 0))) = s0 ∧
    AnimalMatch.new_game am_demo_mismatch 3 [] [0; 2] = inr s0 ∧
    AnimalMatch.hide_at s0 = 5850%N ∧
    AnimalMatch.hide_at s0 ≠ 0%N ∧ (5200 < AnimalMatch.hide_at s0)%N ∧
    AnimalMatch.lock s0 = false ∧
    AnimalMatch.on_card_click 5200 s0 4 =
      FaceUp (AnimalMatch.set_revealed {[ 4%Z ]} s0) ∧
    AnimalMatch.on_card_click 5200 s0 4 ≠ Ignored s0 ∧
    AnimalMatch.revealed s0 = ∅ ∧
    AnimalMatch.revealed
      (AnimalMatchPage.state
         (AnimalMatchPage.after
            (AnimalMatchPage.script (amp_run (Some 4%Z) 5200)
               (AnimalMatchPage.Page s0 0)))) = {[ 4%Z ]} ∧
    ∃ s1, MemoryMatch.new_game demo_pool 3 [] [0; 2] 5150 = inr s1 ∧
          MemoryMatch.pending_hide_at s1 = 0%N.
Proof.
  eexists. split; [reflexivity|].
  split; [reflexivity|]. split; [reflexivity|].
  split; [discriminate|]. split; [reflexivity|]. split; [reflexivity|].
  split; [by vm_compute|]. split; [by vm_compute|].
  split; [reflexivity|]. split; [by vm_compute|].
  eexists. split; reflexivity.
Qed.

(** ** Invariants of a round *)

(** C4 as the scripts have it.  In every session reached from a new game
    by redraws and by taps on positions of the deck ([0 .. len(deck)-1]), at
    most two cards are in [revealed]. *)
Theorem reveal_at_most_two :
  (∀ pool pairs picks order t0 s0 k (s : MemoryMatch.session),
     MemoryMatch.new_game pool pairs picks order t0 = inr s0 →
     MemoryMatch.reach s0 k s →
     size (MemoryMatch.revealed s) ≤ 2) ∧
  (∀ prev pairs picks order s0 k (s : AnimalMatch.session),
     AnimalMatch.new_game prev pairs picks order = inr s0 →
     AnimalMatch.reach s0 k s →
     size (AnimalMatch.revealed s) ≤ 2).
Proof.
  split.
  - intros pool pairs picks order t0 s0 k s Hnew Hreach.
    by destruct (MemoryMatchFacts.mm_round_inv _ _ _ _ _ _ _ _ Hnew Hreach)
      as [[] _].
  - intros prev pairs picks order s0 k s Hnew Hreach.
    by destruct (AnimalMatchFacts.am_round_inv _ _ _ _ _ _ _ Hnew Hreach)
      as [[] _].
Qed.

Lemma reveal_at_most_two_witness :
  size (MemoryMatch.revealed mm_demo_mismatch) ≤ 2 ∧
  size (AnimalMatch.revealed am_demo_mismatch) ≤ 2.
Proof.
  split.
  - apply (proj1 reveal_at_most_two demo_pool 3 [] [0; 2] 1000%N
             mm_demo_round 1 mm_demo_mismatch).
    + reflexivity.
    + exact mm_demo_reach_mismatch.
  - apply (proj2 reveal_at_most_two AnimalMatch.empty_session 3 [] [0; 2]
             am_demo_round 1 am_demo_mismatch).
    + reflexivity.
    + exact am_demo_reach_mismatch.
Defined.

(** C4 as stated fails, for taps at any position.  On the fresh six-card
    round: card 0 is tapped, then position 100, which is accepted as the
    second card and raises [IndexError] at the lookup, after it was added
    to [revealed] and before any pause was started; the tap on card 1 that
    follows is accepted as well, and three positions are in [revealed].
    Both scripts behave so. *)
Lemma reveal_three_cards :
  MemoryMatch.new_game demo_pool 3 [] [0; 2] 1000 = inr mm_demo_round ∧
  MemoryMatch.revealed
    (mm_any_taps mm_demo_round
       [MemoryMatch.Flip 2000 0; MemoryMatch.Flip 3000 100;
        MemoryMatch.Flip 4000 1]) = {[ 0%Z; 1%Z; 100%Z ]} ∧
  size (MemoryMatch.revealed
          (mm_any_taps mm_demo_round
             [MemoryMatch.Flip 2000 0; MemoryMatch.Flip 3000 100;
              MemoryMatch.Flip 4000 1])) = 3 ∧
  AnimalMatch.new_game AnimalMatch.empty_session 3 [] [0; 2] = inr am_demo_round ∧
  AnimalMatch.revealed
    (am_any_taps am_demo_round
       [AnimalMatch.Flip 2000 0; AnimalMatch.Flip 3000 100;
        AnimalMatch.Flip 4000 1]) = {[ 0%Z; 1%Z; 100%Z ]} ∧
  size (AnimalMatch.revealed
          (am_any_taps am_demo_round
             [AnimalMatch.Flip 2000 0; AnimalMatch.Flip 3000 100;
              AnimalMatch.Flip 4000 1])) = 3 ∧
  ¬ (∀ pool pairs picks order t0 s0 es,
       MemoryMatch.new_game pool pairs picks order t0 = inr s0 →
       size (MemoryMatch.revealed (mm_any_taps s0 es)) ≤ 2) ∧
  ¬ (∀ prev pairs picks order s0 es,
       AnimalMatch.new_game prev pairs picks order = inr s0 →
       size (AnimalMatch.revealed (am_any_taps s0 es)) ≤ 2).
Proof.
  split; [reflexivity|]. split; [by vm_compute|]. split; [by vm_compute|].
  split; [reflexivity|]. split; [by vm_compute|]. split; [by vm_compute|].
  split.
  - intros H.
    specialize (H demo_pool 3 [] [0; 2] 1000%N mm_demo_round
                  [MemoryMatch.Flip 2000 0; MemoryMatch.Flip 3000 100;
                   MemoryMatch.Flip 4000 1] eq_refl).
    vm_compute in H. lia.
  - intros H.
    specialize (H AnimalMatch.empty_session 3 [] [0; 2] am_demo_round
                  [AnimalMatch.Flip 2000 0; AnimalMatch.Flip 3000 100;
                   AnimalMatch.Flip 4000 1] eq_refl).
    vm_compute in H. lia.
Qed.

(** C5.  In every session reached from a new game by redraws and taps on
    the cards of the board, no card is both in [revealed] and in
    [matched].  Moreover the property is kept step by step from any session:
    by every redraw and by every tap, at any position at all. *)
Theorem reveal_matched_disjoint :
  ((∀ pool pairs picks order t0 s0 k (s : MemoryMatch.session),
      MemoryMatch.new_game pool pairs picks order t0 = inr s0 →
      MemoryMatch.reach s0 k s →
      MemoryMatch.revealed s ∩ MemoryMatch.matched s = ∅) ∧
   (∀ now (s : MemoryMatch.session) (i : Z),
      MemoryMatch.revealed s ∩ MemoryMatch.matched s = ∅ →
      MemoryMatch.revealed (MemoryMatch.tick now s) ∩
        MemoryMatch.matched (MemoryMatch.tick now s) = ∅ ∧
      MemoryMatch.revealed (state_of (MemoryMatch.on_card_click now s i)) ∩
        MemoryMatch.matched (state_of (MemoryMatch.on_card_click now s i)) = ∅)) ∧
  ((∀ prev pairs picks order s0 k (s : AnimalMatch.session),
      AnimalMatch.new_game prev pairs picks order = inr s0 →
      AnimalMatch.reach s0 k s →
      AnimalMatch.revealed s ∩ AnimalMatch.matched s = ∅) ∧
   (∀ now (s : AnimalMatch.session) (i : Z),
      AnimalMatch.revealed s ∩ AnimalMatch.matched s = ∅ →
      AnimalMatch.revealed (AnimalMatch.tick now s) ∩
        AnimalMatch.matched (AnimalMatch.tick now s) = ∅ ∧
      AnimalMatch.revealed (state_of (AnimalMatch.on_card_click now s i)) ∩
        AnimalMatch.matched (state_of (AnimalMatch.on_card_click now s i)) = ∅)).
Proof.
  split; split.
  - intros pool pairs picks order t0 s0 k s Hnew Hreach.
    destruct (MemoryMatchFacts.mm_round_inv _ _ _ _ _ _ _ _ Hnew Hreach)
      as [[] _].
    by apply disjoint_intersection_L.
  - intros now s i Hdis%disjoint_intersection_L.
    rewrite <- !disjoint_intersection_L.
    by apply MemoryMatchFacts.mm_disjoint_step.
  - intros prev pairs picks order s0 k s Hnew Hreach.
    destruct (AnimalMatchFacts.am_round_inv _ _ _ _ _ _ _ Hnew Hreach)
      as [[] _].
    by apply disjoint_intersection_L.
  - intros now s i Hdis%disjoint_intersection_L.
    rewrite <- !disjoint_intersection_L.
    by apply AnimalMatchFacts.am_disjoint_step.
Qed.

Lemma reveal_matched_disjoint_witness :
  MemoryMatch.revealed mm_demo_mismatch ∩ MemoryMatch.matched mm_demo_mismatch = ∅ ∧
  AnimalMatch.revealed am_demo_mismatch ∩ AnimalMatch.matched am_demo_mismatch = ∅.
Proof.
  split.
  - apply (proj1 (proj1 reveal_matched_disjoint) demo_pool 3 [] [0; 2] 1000%N
             mm_demo_round 1 mm_demo_mismatch).
    + reflexivity.
    + exact mm_demo_reach_mismatch.
  - apply (proj1 (proj2 reveal_matched_disjoint) AnimalMatch.empty_session 3
             [] [0; 2] am_demo_round 1 am_demo_mismatch).
    + reflexivity.
    + exact am_demo_reach_mismatch.
Defined.

(** ** The deck *)

(** C6, at the input where match.py departs from it: three pairs, with
    [random.sample] drawing entries 5, 17 and 0 of [ANIMALS].  Entries 5
    and 17 are both the fox, so the deck of six cards shows the fox four
    times.  ([random.sample] draws positions, not symbols; draw 16 among
    the 19 entries left after the first draw is entry 17 of the list.) *)
Theorem animal_deck_four_foxes :
  AnimalMatch.ANIMALS !! 5 = Some "🦊"%string ∧
  AnimalMatch.ANIMALS !! 17 = Some "🦊"%string ∧
  Py.sample AnimalMatch.ANIMALS 3 [5; 16; 0] = inr ["🦊"; "🦊"; "🐶"]%string ∧
  ∃ s0, AnimalMatch.new_game AnimalMatch.empty_session 3 [5; 16; 0] [] = inr s0 ∧
        AnimalMatch.deck s0 = ["🦊"; "🦊"; "🐶"; "🦊"; "🦊"; "🐶"]%string ∧
        length (AnimalMatch.deck s0) = 2 * 3 ∧
        occurrences "🦊" (AnimalMatch.deck s0) = 4.
Proof.
  split; [reflexivity|]. split; [reflexivity|]. split; [reflexivity|].
  eexists. split; [reflexivity|]. by vm_compute.
Qed.

(** ** The end of a round *)

(** C7 (termination).  In a round of [pairs] pairs ([pairs] positive, as
    the slider guarantees), a session reached through exactly [pairs]
    pair-comparisons that ended in a match has every position of the deck
    in [matched], all [2 * pairs] of them, and is finished; and any session
    of the round is finished exactly when [matched] is the whole board. *)
Theorem round_termination :
  (∀ pool pairs picks order t0 s0 k (s : MemoryMatch.session),
     MemoryMatch.new_game pool pairs picks order t0 = inr s0 →
     0 < pairs → MemoryMatch.reach s0 k s →
     (k = pairs →
        MemoryMatch.matched s = board (MemoryMatch.deck s) ∧
        size (MemoryMatch.matched s) = 2 * pairs ∧
        MemoryMatch.finished s = true) ∧
     (MemoryMatch.finished s = true ↔
        MemoryMatch.matched s = board (MemoryMatch.deck s))) ∧
  (∀ prev pairs picks order s0 k (s : AnimalMatch.session),
     AnimalMatch.new_game prev pairs picks order = inr s0 →
     0 < pairs → AnimalMatch.reach s0 k s →
     (k = pairs →
        AnimalMatch.matched s = board (AnimalMatch.deck s) ∧
        size (AnimalMatch.matched s) = 2 * pairs ∧
        AnimalMatch.finished s = true) ∧
     (AnimalMatch.finished s = true ↔
        AnimalMatch.matched s = board (AnimalMatch.deck s))).
Proof.
  split.
  - exact MemoryMatchFacts.mm_round_over.
  - exact AnimalMatchFacts.am_round_over.
Qed.

Lemma round_termination_witness :
  (MemoryMatch.matched mm_demo_won = board (MemoryMatch.deck mm_demo_won) ∧
   size (MemoryMatch.matched mm_demo_won) = 2 * 3 ∧
   MemoryMatch.finished mm_demo_won = true) ∧
  (AnimalMatch.matched am_demo_won = board (AnimalMatch.deck am_demo_won) ∧
   size (AnimalMatch.matched am_demo_won) = 2 * 3 ∧
   AnimalMatch.finished am_demo_won = true).
Proof.
  split.
  - apply (proj1 round_termination demo_pool 3 [] [0; 2] 1000%N
             mm_demo_round 3 mm_demo_won).
    + reflexivity.
    + lia.
    + exact mm_demo_reach_won.
    + reflexivity.
  - apply (proj2 round_termination AnimalMatch.empty_session 3 [] [0; 2]
             am_demo_round 3 am_demo_won).
    + reflexivity.
    + lia.
    + exact am_demo_reach_won.
    + reflexivity.
Defined.

(** ** Positions outside the deck *)

(** C8 as the scripts have it.  Neither handler checks the position
    against the deck.  For a position [p] that is not an index
    [0 .. len(deck)-1]:
    - the tap is dropped, with no error and the session unchanged, exactly
      under the preconditions of C3;
    - otherwise it is accepted and [p] becomes face-up: it was in neither
      set and ends in [revealed] or (when Python's negative indexing pairs
      it with a matching card) in [matched];
    - as the first card of a pair it is added to [revealed] without error;
    - as the second card, with [p] at or past the end of the deck or below
      [-len(deck)], the handler raises [IndexError] after it has added [p]
      to [revealed] and counted the move. *)
Theorem off_board_flip :
  (∀ now (s : MemoryMatch.session) (p : Z),
     ¬ on_board (MemoryMatch.deck s) p →
     (MemoryMatch.on_card_click now s p = Ignored s ↔
        p ∈ MemoryMatch.matched s ∨ p ∈ MemoryMatch.revealed s ∨
        MemoryMatch.finished s = true ∨ MemoryMatch.pending_hide_at s ≠ 0%N) ∧
     (accepted (MemoryMatch.on_card_click now s p) = true →
        (p ∉ MemoryMatch.revealed s ∪ MemoryMatch.matched s) ∧
        p ∈ MemoryMatch.revealed (state_of (MemoryMatch.on_card_click now s p)) ∪
            MemoryMatch.matched (state_of (MemoryMatch.on_card_click now s p))) ∧
     (accepted (MemoryMatch.on_card_click now s p) = true →
        MemoryMatch.revealed s = ∅ →
        MemoryMatch.on_card_click now s p =
          FaceUp (MemoryMatch.set_revealed {[ p ]} s)) ∧
     (accepted (MemoryMatch.on_card_click now s p) = true →
        size (MemoryMatch.revealed s) = 1 →
        (Z.of_nat (length (MemoryMatch.deck s)) ≤ p ∨
         Z.of_nat (length (MemoryMatch.deck s)) + p < 0)%Z →
        MemoryMatch.on_card_click now s p =
          Raised Py.IndexError
            (MemoryMatch.set_moves (MemoryMatch.moves s + 1)
               (MemoryMatch.set_revealed (MemoryMatch.revealed s ∪ {[ p ]}) s)))) ∧
  (∀ now (s : AnimalMatch.session) (p : Z),
     ¬ on_board (AnimalMatch.deck s) p →
     (AnimalMatch.on_card_click now s p = Ignored s ↔
        AnimalMatch.lock s = true ∨ p ∈ AnimalMatch.matched s ∨
        p ∈ AnimalMatch.revealed s ∨ AnimalMatch.finished s = true) ∧
     (accepted (AnimalMatch.on_card_click now s p) = true →
        (p ∉ AnimalMatch.revealed s ∪ AnimalMatch.matched s) ∧
        p ∈ AnimalMatch.revealed (state_of (AnimalMatch.on_card_click now s p)) ∪
            AnimalMatch.matched (state_of (AnimalMatch.on_card_click now s p))) ∧
     (accepted (AnimalMatch.on_card_click now s p) = true →
        AnimalMatch.revealed s = ∅ →
        AnimalMatch.on_card_click now s p =
          FaceUp (AnimalMatch.set_revealed {[ p ]} s)) ∧
     (accepted (AnimalMatch.on_card_click now s p) = true →
        size (AnimalMatch.revealed s) = 1 →
        (Z.of_nat (length (AnimalMatch.deck s)) ≤ p ∨
         Z.of_nat (length (AnimalMatch.deck s)) + p < 0)%Z →
        AnimalMatch.on_card_click now s p =
          Raised Py.IndexError
            (AnimalMatch.set_moves (AnimalMatch.moves s + 1)
               (AnimalMatch.set_revealed (AnimalMatch.revealed s ∪ {[ p ]}) s)))).
Proof.
  split.
  - intros now s p Hoff.
    destruct (MemoryMatchFacts.mm_off_board now s p Hoff) as (_ & H2 & H3 & H4).
    split; [apply MemoryMatchFacts.mm_ignored_iff|].
    split; [|split]; intros Hacc%MemoryMatchFacts.mm_accepted_open; auto.
  - intros now s p Hoff.
    destruct (AnimalMatchFacts.am_off_board now s p Hoff) as (_ & H2 & H3 & H4).
    split; [apply AnimalMatchFacts.am_ignored_iff|].
    split; [|split]; intros Hacc%AnimalMatchFacts.am_accepted_open; auto.
Qed.

Lemma off_board_flip_witness :
  MemoryMatch.on_card_click 2000 mm_demo_round 100 =
    FaceUp (MemoryMatch.set_revealed {[ 100%Z ]} mm_demo_round) ∧
  AnimalMatch.on_card_click 2000 am_demo_round (-7) =
    FaceUp (AnimalMatch.set_revealed {[ (-7)%Z ]} am_demo_round).
Proof.
  split.
  - apply (proj1 off_board_flip 2000%N mm_demo_round 100%Z).
    + unfold on_board. cbn. lia.
    + reflexivity.
    + reflexivity.
  - apply (proj2 off_board_flip 2000%N am_demo_round (-7)%Z).
    + unfold on_board. cbn. lia.
    + reflexivity.
    + reflexivity.
Defined.

(** C8 as stated fails: on the fresh six-card round, a tap on position 100
    is outside the deck, yet it is not a no-op (the card is recorded as
    face-up), and as the second card of a pair it raises [IndexError].  Both
    scripts behave so. *)
Lemma off_board_flip_not_noop :
  (100 < 0 ∨ 2 * 3 ≤ 100)%Z ∧
  length (MemoryMatch.deck mm_demo_round) = 2 * 3 ∧
  MemoryMatch.on_card_click 2000 mm_demo_round 100 =
    FaceUp (MemoryMatch.set_revealed {[ 100%Z ]} mm_demo_round) ∧
  MemoryMatch.revealed mm_demo_round = ∅ ∧
  size (MemoryMatch.revealed
          (state_of (MemoryMatch.on_card_click 2000 mm_demo_round 100))) = 1 ∧
  MemoryMatch.on_card_click 3000
      (state_of (MemoryMatch.on_card_click 2000 mm_demo_round 0)) 100 =
    Raised Py.IndexError
      (MemoryMatch.set_moves 1 (MemoryMatch.set_revealed {[ 0%Z; 100%Z ]} mm_demo_round)) ∧
  length (AnimalMatch.deck am_demo_round) = 2 * 3 ∧
  AnimalMatch.on_card_click 2000 am_demo_round 100 =
    FaceUp (AnimalMatch.set_revealed {[ 100%Z ]} am_demo_round) ∧
  AnimalMatch.revealed am_demo_round = ∅ ∧
  size (AnimalMatch.revealed
          (state_of (AnimalMatch.on_card_click 2000 am_demo_round 100))) = 1 ∧
  AnimalMatch.on_card_click 3000
      (state_of (AnimalMatch.on_card_click 2000 am_demo_round 0)) 100 =
    Raised Py.IndexError
      (AnimalMatch.set_moves 1 (AnimalMatch.set_revealed {[ 0%Z; 100%Z ]} am_demo_round)) ∧
  ¬ (∀ now (s : MemoryMatch.session) (p : Z),
       (p < 0 ∨ Z.of_nat (length (MemoryMatch.deck s)) ≤ p)%Z →
       MemoryMatch.on_card_click now s p = Ignored s) ∧
  ¬ (∀ now (s : AnimalMatch.session) (p : Z),
       (p < 0 ∨ Z.of_nat (length (AnimalMatch.deck s)) ≤ p)%Z →
       AnimalMatch.on_card_click now s p = Ignored s).
Proof.
  split; [lia|].
  repeat (split; [by vm_compute|]).
  split.
  - intros H. specialize (H 2000%N mm_demo_round 100%Z).
    assert (MemoryMatch.on_card_click 2000 mm_demo_round 100
            = Ignored mm_demo_round) as Hbad by (apply H; cbn; lia).
    vm_compute in Hbad. discriminate Hbad.
  - intros H. specialize (H 2000%N am_demo_round 100%Z).
    assert (AnimalMatch.on_card_click 2000 am_demo_round 100
            = Ignored am_demo_round) as Hbad by (apply H; cbn; lia).
    vm_compute in Hbad. discriminate Hbad.
Qed.

(** ** Errors *)

(** C9 (error taxonomy) as the scripts have it.  [new_game] fails exactly
    when the pool holds fewer entries than the pairs asked for, and then
    with the [ValueError] of [random.sample] (the spec's
    InsufficientSymbolsError).  In every session reached from a new game by
    redraws and by taps on positions of the deck ([0 .. len(deck)-1]), a
    further such tap raises nothing.  A redraw cannot raise: [tick] is a
    total function on sessions. *)
Theorem error_taxonomy :
  ((∀ pool pairs picks order t0,
      (∃ e, MemoryMatch.new_game pool pairs picks order t0 = inl e) ↔
      length pool < pairs) ∧
   (∀ pool pairs picks order t0 e,
      MemoryMatch.new_game pool pairs picks order t0 = inl e →
      e = Py.ValueError) ∧
   (∀ pool pairs picks order t0 s0 k (s : MemoryMatch.session) now (i : Z),
      MemoryMatch.new_game pool pairs picks order t0 = inr s0 →
      MemoryMatch.reach s0 k s → on_board (MemoryMatch.deck s) i →
      raises (MemoryMatch.on_card_click now s i) = false)) ∧
  ((∀ prev pairs picks order,
      (∃ e, AnimalMatch.new_game prev pairs picks order = inl e) ↔
      length AnimalMatch.ANIMALS < pairs) ∧
   (∀ prev pairs picks order e,
      AnimalMatch.new_game prev pairs picks order = inl e →
      e = Py.ValueError) ∧
   (∀ prev pairs picks order s0 k (s : AnimalMatch.session) now (i : Z),
      AnimalMatch.new_game prev pairs picks order = inr s0 →
      AnimalMatch.reach s0 k s → on_board (AnimalMatch.deck s) i →
      raises (AnimalMatch.on_card_click now s i) = false)).
Proof.
  split; (split; [|split]).
  - exact MemoryMatchFacts.mm_new_game_raises.
  - exact MemoryMatchFacts.mm_new_game_error.
  - intros pool pairs picks order t0 s0 k s now i Hnew Hreach Hi.
    destruct (MemoryMatchFacts.mm_round_inv _ _ _ _ _ _ _ _ Hnew Hreach)
      as [Hinv _].
    by eapply MemoryMatchFacts.mm_click_safe.
  - exact AnimalMatchFacts.am_new_game_raises.
  - exact AnimalMatchFacts.am_new_game_error.
  - intros prev pairs picks order s0 k s now i Hnew Hreach Hi.
    destruct (AnimalMatchFacts.am_round_inv _ _ _ _ _ _ _ Hnew Hreach)
      as [Hinv _].
    by eapply AnimalMatchFacts.am_click_safe.
Qed.

Lemma error_taxonomy_witness :
  (∃ e, MemoryMatch.new_game demo_pool 4 [] [] 1000 = inl e) ∧
  raises (MemoryMatch.on_card_click 5900 mm_demo_mismatch 4) = false ∧
  (∃ e, AnimalMatch.new_game AnimalMatch.empty_session 21 [] [] = inl e) ∧
  raises (AnimalMatch.on_card_click 5900 am_demo_mismatch 4) = false.
Proof.
  split; [|split; [|split]].
  - apply (proj1 (proj1 error_taxonomy)). cbn. lia.
  - apply (proj2 (proj2 (proj1 error_taxonomy)) demo_pool 3 [] [0; 2] 1000%N
             mm_demo_round 1 mm_demo_mismatch).
    + reflexivity.
    + exact mm_demo_reach_mismatch.
    + unfold on_board. cbn. lia.
  - apply (proj1 (proj2 error_taxonomy)). cbn. lia.
  - apply (proj2 (proj2 (proj2 error_taxonomy)) AnimalMatch.empty_session 3
             [] [0; 2] am_demo_round 1 am_demo_mismatch).
    + reflexivity.
    + exact am_demo_reach_mismatch.
    + unfold on_board. cbn. lia.
Defined.

(** C9 as stated fails: a flip can raise.  On the fresh six-card round,
    after card 0 is face-up, the tap on position 100 is accepted as the
    second card and the lookup [deck[100]] raises [IndexError]; in both
    scripts.  So "flip never raises" holds of neither handler. *)
Lemma flip_raises_index_error :
  MemoryMatch.new_game demo_pool 3 [] [0; 2] 1000 = inr mm_demo_round ∧
  MemoryMatch.on_card_click 2000 mm_demo_round 0 =
    FaceUp (MemoryMatch.set_revealed {[ 0%Z ]} mm_demo_round) ∧
  raises (MemoryMatch.on_card_click 3000
            (MemoryMatch.set_revealed {[ 0%Z ]} mm_demo_round) 100) = true ∧
  (∃ s, MemoryMatch.on_card_click 3000
          (MemoryMatch.set_revealed {[ 0%Z ]} mm_demo_round) 100 =
        Raised Py.IndexError s) ∧
  AnimalMatch.new_game AnimalMatch.empty_session 3 [] [0; 2] = inr am_demo_round ∧
  AnimalMatch.on_card_click 2000 am_demo_round 0 =
    FaceUp (AnimalMatch.set_revealed {[ 0%Z ]} am_demo_round) ∧
  raises (AnimalMatch.on_card_click 3000
            (AnimalMatch.set_revealed {[ 0%Z ]} am_demo_round) 100) = true ∧
  (∃ s, AnimalMatch.on_card_click 3000
          (AnimalMatch.set_revealed {[ 0%Z ]} am_demo_round) 100 =
        Raised Py.IndexError s) ∧
  ¬ (∀ now (s : MemoryMatch.session) (p : Z),
       raises (MemoryMatch.on_card_click now s p) = false) ∧
  ¬ (∀ now (s : AnimalMatch.session) (p : Z),
       raises (AnimalMatch.on_card_click now s p) = false).
Proof.
  split; [reflexivity|]. split; [by vm_compute|]. split; [by vm_compute|].
  split; [eexists; by vm_compute|].
  split; [reflexivity|]. split; [by vm_compute|]. split; [by vm_compute|].
  split; [eexists; by vm_compute|].
  split.
  - intros H.
    specialize (H 3000%N (MemoryMatch.set_revealed {[ 0%Z ]} mm_demo_round) 100%Z).
    vm_compute in H. discriminate H.
  - intros H.
    specialize (H 3000%N (AnimalMatch.set_revealed {[ 0%Z ]} am_demo_round) 100%Z).
    vm_compute in H. discriminate H.
Qed.

(** ** The size of MatchedSet *)

(** C10.  In every session reached from a new game by redraws and taps on
    the cards of the board, [matched] holds twice as many positions as
    pair-comparisons have ended in a match, an even number.  Step by step,
    for any session: a redraw leaves [matched] as it is, a tap never removes
    a position from it, a mismatch leaves it unchanged, and a match adds to
    it the two positions then face-up. *)
Theorem matched_even :
  ((∀ pool pairs picks order t0 s0 k (s : MemoryMatch.session),
      MemoryMatch.new_game pool pairs picks order t0 = inr s0 →
      MemoryMatch.reach s0 k s →
      size (MemoryMatch.matched s) = 2 * k ∧
      Nat.Even (size (MemoryMatch.matched s))) ∧
   (∀ now (s : MemoryMatch.session) (i : Z),
      MemoryMatch.matched s ⊆
        MemoryMatch.matched (state_of (MemoryMatch.on_card_click now s i)) ∧
      MemoryMatch.matched (MemoryMatch.tick now s) = MemoryMatch.matched s ∧
      (∀ s', MemoryMatch.on_card_click now s i = TryAgain s' →
             MemoryMatch.matched s' = MemoryMatch.matched s) ∧
      (∀ s', MemoryMatch.on_card_click now s i = GoodMatch s' →
             MemoryMatch.matched s' =
               MemoryMatch.matched s ∪ (MemoryMatch.revealed s ∪ {[ i ]}) ∧
             size (MemoryMatch.revealed s ∪ {[ i ]}) = 2))) ∧
  ((∀ prev pairs picks order s0 k (s : AnimalMatch.session),
      AnimalMatch.new_game prev pairs picks order = inr s0 →
      AnimalMatch.reach s0 k s →
      size (AnimalMatch.matched s) = 2 * k ∧
      Nat.Even (size (AnimalMatch.matched s))) ∧
   (∀ now (s : AnimalMatch.session) (i : Z),
      AnimalMatch.matched s ⊆
        AnimalMatch.matched (state_of (AnimalMatch.on_card_click now s i)) ∧
      AnimalMatch.matched (AnimalMatch.tick now s) = AnimalMatch.matched s ∧
      (∀ s', AnimalMatch.on_card_click now s i = TryAgain s' →
             AnimalMatch.matched s' = AnimalMatch.matched s) ∧
      (∀ s', AnimalMatch.on_card_click now s i = GoodMatch s' →
             AnimalMatch.matched s' =
               AnimalMatch.matched s ∪ (AnimalMatch.revealed s ∪ {[ i ]}) ∧
             size (AnimalMatch.revealed s ∪ {[ i ]}) = 2))).
Proof.
  split; split.
  - intros pool pairs picks order t0 s0 k s Hnew Hreach.
    destruct (MemoryMatchFacts.mm_round_inv _ _ _ _ _ _ _ _ Hnew Hreach)
      as [[] _].
    split; [done|]. by exists k.
  - exact MemoryMatchFacts.mm_matched_steps.
  - intros prev pairs picks order s0 k s Hnew Hreach.
    destruct (AnimalMatchFacts.am_round_inv _ _ _ _ _ _ _ Hnew Hreach)
      as [[] _].
    split; [done|]. by exists k.
  - exact AnimalMatchFacts.am_matched_steps.
Qed.

Lemma matched_even_witness :
  (size (MemoryMatch.matched mm_demo_won) = 2 * 3 ∧
   Nat.Even (size (MemoryMatch.matched mm_demo_won))) ∧
  (size (AnimalMatch.matched am_demo_mismatch) = 2 * 1 ∧
   Nat.Even (size (AnimalMatch.matched am_demo_mismatch))).
Proof.
  split.
  - apply (proj1 (proj1 matched_even) demo_pool 3 [] [0; 2] 1000%N
             mm_demo_round 3 mm_demo_won).
    + reflexivity.
    + exact mm_demo_reach_won.
  - apply (proj1 (proj2 matched_even) AnimalMatch.empty_session 3 [] [0; 2]
             am_demo_round 1 am_demo_mismatch).
    + reflexivity.
    + exact am_demo_reach_mismatch.
Defined.

(** ** Further properties *)

(** The decks of memory_match.py.  For each of its themes and any number
    of pairs up to the sixteen symbols of the theme, [new_game] succeeds and
    deals [2 * pairs] cards on which every symbol that occurs does so
    exactly twice. *)
Theorem memory_match_theme_decks theme pool pairs picks order t0 :
  (theme, pool) ∈ MemoryMatch.THEMES → pairs ≤ 16 →
  ∃ s0, MemoryMatch.new_game pool pairs picks order t0 = inr s0 ∧
        length (MemoryMatch.deck s0) = 2 * pairs ∧
        ∀ x, x ∈ MemoryMatch.deck s0 →
             occurrences x (MemoryMatch.deck s0) = 2.
Proof.
  intros Hin Hpairs.
  pose proof MemoryMatchFacts.mm_themes_distinct as Hall.
  rewrite Forall_forall in Hall. destruct (Hall _ Hin) as [Hnd Hlen].
  cbn [snd] in Hnd, Hlen.
  destruct (MemoryMatchFacts.mm_new_game_ok pool pairs picks order t0)
    as [s0 Hnew]; [lia|].
  exists s0. split; [done|].
  by apply (MemoryMatchFacts.mm_deck_pairs pool pairs picks order t0).
Qed.

Lemma memory_match_theme_decks_witness :
  ∃ s0, MemoryMatch.new_game
          ["🔴";"🟠";"🟡";"🟢";"🔵";"🟣";"🟤";"⚫️";"⚪️";"🟥";"🟧";"🟨";"🟩";"🟦";"🟪";"⬛️"]%string
          6 [3; 1; 4; 1; 5; 9] [2; 6; 5; 3; 5] 1000 = inr s0 ∧
        length (MemoryMatch.deck s0) = 2 * 6 ∧
        ∀ x, x ∈ MemoryMatch.deck s0 →
             occurrences x (MemoryMatch.deck s0) = 2.
Proof.
  apply (memory_match_theme_decks "Shapes & Colors"%string).
  - apply (bool_decide_unpack _). by vm_compute.
  - lia.
Defined.

(** The move counter.  In either script a redraw leaves [moves] as it is,
    and a tap adds one exactly when it reaches the comparison of two
    face-up cards (match, mismatch, or the lookup that raises); a dropped
    tap and the first card of a pair leave it unchanged. *)
Theorem moves_once_per_comparison :
  (∀ now (s : MemoryMatch.session) (i : Z),
     MemoryMatch.moves (MemoryMatch.tick now s) = MemoryMatch.moves s ∧
     MemoryMatch.moves (state_of (MemoryMatch.on_card_click now s i)) =
       match MemoryMatch.on_card_click now s i with
       | Ignored _ | FaceUp _ => MemoryMatch.moves s
       | GoodMatch _ | TryAgain _ | Raised _ _ => (MemoryMatch.moves s + 1)%Z
       end) ∧
  (∀ now (s : AnimalMatch.session) (i : Z),
     AnimalMatch.moves (AnimalMatch.tick now s) = AnimalMatch.moves s ∧
     AnimalMatch.moves (state_of (AnimalMatch.on_card_click now s i)) =
       match AnimalMatch.on_card_click now s i with
       | Ignored _ | FaceUp _ => AnimalMatch.moves s
       | GoodMatch _ | TryAgain _ | Raised _ _ => (AnimalMatch.moves s + 1)%Z
       end).
Proof.
  split.
  - exact MemoryMatchFacts.mm_moves_step.
  - exact AnimalMatchFacts.am_moves_step.
Qed.

(** A new game of match.py begun while a mismatch is on display.
    [new_game] resets the lock but not [_hide_at]: in the new round a tap is
    accepted although the old deadline (5850) is still ahead, and the redraw
    that reaches the deadline turns that card face-down again. *)
Theorem match_py_stale_deadline :
  AnimalMatch.lock am_demo_mismatch = true ∧
  AnimalMatch.hide_at am_demo_mismatch = 5850%N ∧
  ∃ s0, AnimalMatch.new_game am_demo_mismatch 3 [] [0; 2] = inr s0 ∧
        AnimalMatch.lock s0 = false ∧ AnimalMatch.hide_at s0 = 5850%N ∧
        AnimalMatch.on_card_click 5200 s0 4 =
          FaceUp (AnimalMatch.set_revealed {[ 4%Z ]} s0) ∧
        AnimalMatch.revealed
          (AnimalMatch.tick 5900 (AnimalMatch.set_revealed {[ 4%Z ]} s0)) = ∅.
Proof.
  split; [reflexivity|]. split; [reflexivity|].
  eexists. split; [reflexivity|]. by vm_compute.
Qed.

(** ** The grid of card buttons *)

Section grid_facts.
Context {A : Type} (visit : Z → A → A) (len : nat).

Lemma grid_cells_from (m : nat) : ∀ (i : nat) (a : A),
  i ≤ len →
  Nat.iter m (Grid.cell visit len) (Z.of_nat i, a) =
    (Z.of_nat (i + m `min` (len - i)),
     foldl (λ a idx, visit idx a) a (seqZ (Z.of_nat i) (Z.of_nat (m `min` (len - i))))).
Proof.
  induction m as [|m IH]; intros i a Hi.
  - cbn [Nat.iter]. rewrite Nat.min_0_l, Nat.add_0_r. done.
  - rewrite Nat.iter_succ_r. unfold Grid.cell at 2. cbn [fst snd].
    case_bool_decide as Hend.
    + assert (i = len) as -> by lia.
      rewrite (IH len a) by lia. by rewrite !Nat.sub_diag, !Nat.min_0_r.
    + replace (Z.of_nat i + 1)%Z with (Z.of_nat (i + 1)) by lia.
      rewrite (IH (i + 1) (visit (Z.of_nat i) a)) by lia.
      assert (S m `min` (len - i) = S (m `min` (len - (i + 1)))) as -> by lia.
      f_equal; [f_equal; lia|].
      rewrite Nat2Z.inj_succ, (seqZ_cons (Z.of_nat i)) by lia. cbn [foldl].
      rewrite Z.pred_succ. do 2 f_equal. lia.
Qed.

Lemma iter_iter {B : Type} (f : B → B) (n m : nat) (x : B) :
  Nat.iter n (Nat.iter m f) x = Nat.iter (n * m) f x.
Proof.
  induction n as [|n IH]; [done|].
  rewrite Nat.iter_succ, IH. cbn [Nat.mul]. by rewrite Nat.iter_add.
Qed.

Lemma grid_rows_cover (cols : nat) : 0 < cols → len ≤ Grid.rows len cols * cols.
Proof.
  intros Hc. unfold Grid.rows.
  pose proof (Nat.div_mod (len + cols - 1) cols) as Hdm.
  pose proof (Nat.mod_upper_bound (len + cols - 1) cols).
  nia.
Qed.

Lemma grid_walk_board (cols : nat) (a : A) :
  0 < cols →
  Grid.walk visit len (Grid.rows len cols) cols a =
    (Z.of_nat len, foldl (λ a idx, visit idx a) a (seqZ 0 (Z.of_nat len))).
Proof.
  intros Hc. unfold Grid.walk. rewrite iter_iter.
  pose proof (grid_rows_cover cols Hc) as Hcover.
  rewrite (grid_cells_from _ 0 a) by lia.
  rewrite Nat.sub_0_r, Nat.min_r by lia. done.
Qed.

End grid_facts.

(** ** memory_match.py: runs of the script *)

Module MemoryMatchPageFacts.
Import MemoryMatch MemoryMatchFacts MemoryMatchPage.

Lemma mmp_cols_pos pairs : 0 < cols pairs.
Proof. unfold cols. case_bool_decide; lia. Qed.

Lemma mmp_render_grid_fold peeking clicked t_tap pairs s :
  render_grid peeking clicked t_tap pairs s =
    foldl (λ c idx, draw_card peeking clicked t_tap idx c) (Canvas [] s None)
      (seqZ 0 (Z.of_nat (length (deck s)))).
Proof.
  unfold render_grid. by rewrite grid_walk_board by apply mmp_cols_pos.
Qed.

Lemma mmp_card_face_board peeking s i :
  on_board (deck s) i → is_Some (card_face peeking s i).
Proof.
  intros Hi. unfold card_face. case_match; [|by eexists].
  by apply getitem_on_board.
Qed.

(** Drawing cards of the board keeps the round a round, and raises
    nothing. *)
Lemma mmp_draw_cards_round peeking clicked t_tap s0 idxs : ∀ c k,
  fresh s0 → reach s0 k (live c) → failure c = None →
  Forall (on_board (deck s0)) idxs →
  let c' := foldl (λ c idx, draw_card peeking clicked t_tap idx c) c idxs in
  failure c' = None ∧ (∃ k', reach s0 k' (live c')) ∧
  length (faces c') = length (faces c) + length idxs.
Proof.
  induction idxs as [|i idxs IH]; intros c k Hfresh Hreach Hfail Hall; cbn [foldl].
  - split; [done|]. split; [by eauto|]. cbn. lia.
  - apply Forall_cons in Hall as [Hi Hall].
    destruct (mm_reach_inv s0 k (live c) Hfresh Hreach) as [Hinv Hdeck].
    rewrite <- Hdeck in Hi.
    set (c1 := draw_card peeking clicked t_tap i c).
    assert (failure c1 = None ∧ (∃ k1, reach s0 k1 (live c1)) ∧
            length (faces c1) = S (length (faces c))) as (Hf1 & [k1 Hr1] & Hl1).
    { unfold c1, draw_card. rewrite Hfail.
      destruct (mmp_card_face_board peeking (live c) i Hi) as [face ->].
      destruct (clicked i); cbn.
      - pose proof (mm_click_safe k t_tap (live c) i Hinv Hi) as Hsafe.
        pose proof (reach_flip s0 k (live c) t_tap i Hreach Hi) as Hstep.
        destruct (on_card_click t_tap (live c) i) eqn:Hclick; try done;
          cbn in *; (split; [done|]); (split; [by eauto|]);
          rewrite length_app; cbn; lia.
      - split; [done|]. split; [by eauto|]. rewrite length_app; cbn; lia. }
    destruct (IH c1 k1 Hfresh Hr1 Hf1 Hall) as (Hf & Hr & Hl).
    split; [done|]. split; [done|]. cbn. lia.
Qed.

Lemma mmp_board_seq (d : list string) :
  Forall (on_board d) (seqZ 0 (Z.of_nat (length d))).
Proof.
  apply Forall_forall. intros i Hi%elem_of_seqZ. unfold on_board. lia.
Qed.

Lemma mmp_render_round peeking clicked t_tap pairs s :
  in_round s →
  let c := render_grid peeking clicked t_tap pairs s in
  failure c = None ∧ in_round (live c) ∧ length (faces c) = length (deck s).
Proof.
  intros (s0 & k & Hfresh & Hreach). rewrite mmp_render_grid_fold.
  destruct (mm_reach_inv s0 k s Hfresh Hreach) as [_ Hdeck].
  destruct (mmp_draw_cards_round peeking clicked t_tap s0
              (seqZ 0 (Z.of_nat (length (deck s)))) (Canvas [] s None) k)
    as (Hf & [k' Hr] & Hl); [done..| |].
  { rewrite Hdeck. apply mmp_board_seq. }
  split; [done|]. split; [by exists s0, k'|].
  rewrite Hl, length_seqZ. cbn. lia.
Qed.

Lemma mmp_new_game_round pool pairs picks order t0 s :
  new_game pool pairs picks order t0 = inr s → in_round s.
Proof.
  intros (Hfresh & _)%mm_new_game_inr. exists s, 0. split; [done|]. constructor.
Qed.

Lemma mmp_tick_round now s : in_round s → in_round (tick now s).
Proof.
  intros (s0 & k & Hfresh & Hreach). exists s0, k. split; [done|].
  by constructor.
Qed.

Lemma mmp_script_round inp pg :
  page_ok pg → in_pairs inp ≤ length (in_pool inp) →
  raised (script inp pg) = None ∧
  ∃ s, game (after (script inp pg)) = Some s ∧ in_round s.
Proof.
  intros Hok Hpairs. unfold script.
  set (fresh_game := new_game (in_pool inp) (in_pairs inp) (in_picks inp)
                       (in_order inp) (in_t_new inp)).
  assert (∃ s, (match game pg with
                | Some s => if in_reset inp then fresh_game else inr s
                | None => fresh_game
                end) = inr s ∧ in_round s) as (s & -> & Hs).
  { destruct (mm_new_game_ok (in_pool inp) (in_pairs inp) (in_picks inp)
                (in_order inp) (in_t_new inp) Hpairs) as [s1 Hs1].
    unfold page_ok in Hok. fold fresh_game in Hs1.
    destruct (game pg) as [s|]; [destruct (in_reset inp)|].
    - exists s1. split; [done|]. by eapply mmp_new_game_round.
    - by exists s.
    - exists s1. split; [done|]. by eapply mmp_new_game_round. }
  cbn zeta.
  set (until := if in_peek inp then _ else _).
  destruct (mmp_render_round (bool_decide (in_now inp < until)%N) (in_card inp)
              (in_t_tap inp) (in_pairs inp) (tick (in_now inp) s))
    as (Hf & Hr & _); [by apply mmp_tick_round|].
  rewrite Hf.
  destruct (finished _ && in_again inp); [|by eauto].
  destruct (mm_new_game_ok (in_pool inp) (in_pairs inp) (in_picks_again inp)
              (in_order_again inp) (in_t_again inp) Hpairs) as [s2 Hs2].
  rewrite Hs2. split; [done|]. exists s2. split; [done|].
  by eapply mmp_new_game_round.
Qed.

Lemma mmp_runs_ok inps : ∀ pg,
  page_ok pg →
  Forall (λ inp, in_pairs inp ≤ length (in_pool inp)) inps →
  page_ok (runs inps pg).
Proof.
  induction inps as [|inp inps IH]; intros pg Hok Hall; [done|].
  apply Forall_cons in Hall as [Hinp Hall]. cbn [runs]. apply IH; [|done].
  destruct (mmp_script_round inp pg Hok Hinp) as (_ & s & Hs & Hround).
  unfold page_ok. by rewrite Hs.
Qed.

(** Cards whose button reports nothing, or whose tap is dropped: each is
    given its face, and the round stays as it is. *)
Lemma mmp_draw_idle peeking clicked t_tap idxs : ∀ c,
  failure c = None →
  Forall (on_board (deck (live c))) idxs →
  Forall (λ j, clicked j = true → blocked (live c) j) idxs →
  ∃ fs, foldl (λ c idx, draw_card peeking clicked t_tap idx c) c idxs =
          Canvas (faces c ++ fs) (live c) None ∧
        Forall2 (λ j f, card_face peeking (live c) j = Some f) idxs fs.
Proof.
  induction idxs as [|i idxs IH]; intros c Hfail Hboard Hidle; cbn [foldl].
  - exists []. rewrite app_nil_r. split; [by destruct c; cbn in *; subst|done].
  - apply Forall_cons in Hboard as [Hi Hboard].
    apply Forall_cons in Hidle as [Hidle_i Hidle].
    destruct (mmp_card_face_board peeking (live c) i Hi) as [f Hf].
    assert (draw_card peeking clicked t_tap i c
            = Canvas (faces c ++ [f]) (live c) None) as ->.
    { unfold draw_card. rewrite Hfail, Hf.
      destruct (clicked i); [|done].
      by rewrite (mm_click_blocked t_tap (live c) i (Hidle_i eq_refl)). }
    destruct (IH (Canvas (faces c ++ [f]) (live c) None)) as (fs & -> & Hfs);
      [done..|].
    exists (f :: fs). cbn. rewrite <- app_assoc. split; [done|].
    by constructor.
Qed.

(** A run without an accepted tap: the due hide is applied, every card is
    drawn with the face [card_face] gives it, and nothing else changes. *)
Lemma mmp_idle_run inp pg s :
  game pg = Some s → in_reset inp = false →
  let until := if in_peek inp
               then (in_t_peek inp + 1000 * in_peek_seconds inp)%N
               else peek_until pg in
  let peeking := bool_decide (in_now inp < until)%N in
  let s1 := tick (in_now inp) s in
  (∀ i, on_board (deck s) i → in_card inp i = true → blocked s1 i) →
  finished s1 && in_again inp = false →
  ∃ fs, script inp pg = Pass (Page (Some s1) until) fs peeking None ∧
        Forall2 (λ j f, card_face peeking s1 j = Some f)
          (seqZ 0 (Z.of_nat (length (deck s)))) fs.
Proof.
  intros Hgame Hreset until peeking s1 Hidle Hagain.
  unfold script. rewrite Hgame, Hreset. cbn zeta.
  fold until. fold peeking. fold s1. rewrite mmp_render_grid_fold.
  assert (deck s1 = deck s) as Hdeck by apply mm_tick_deck.
  destruct (mmp_draw_idle peeking (in_card inp) (in_t_tap inp)
              (seqZ 0 (Z.of_nat (length (deck s1)))) (Canvas [] s1 None))
    as (fs & -> & Hfs); [done|apply mmp_board_seq| |].
  { apply Forall_forall. intros i Hi%elem_of_seqZ. apply Hidle.
    unfold on_board. rewrite <- Hdeck. lia. }
  cbn [failure live faces app]. rewrite Hagain. exists fs.
  split; [done|]. by rewrite <- Hdeck.
Qed.

(** A run with one tap, on the card at [i]: the cards up to and including
    [i] are drawn from the round as it was before the tap, the cards after
    it from the round as the tap left it. *)
Lemma mmp_one_tap_run inp pg s i :
  game pg = Some s → in_round s → in_reset inp = false →
  on_board (deck s) i →
  (∀ j, on_board (deck s) j → (in_card inp j = true ↔ j = i)) →
  let until := if in_peek inp
               then (in_t_peek inp + 1000 * in_peek_seconds inp)%N
               else peek_until pg in
  let peeking := bool_decide (in_now inp < until)%N in
  let s1 := tick (in_now inp) s in
  let s2 := state_of (on_card_click (in_t_tap inp) s1 i) in
  finished s2 && in_again inp = false →
  ∃ fs1 fs2,
    script inp pg = Pass (Page (Some s2) until) (fs1 ++ fs2) peeking None ∧
    Forall2 (λ j f, card_face peeking s1 j = Some f) (seqZ 0 (i + 1)) fs1 ∧
    Forall2 (λ j f, card_face peeking s2 j = Some f)
      (seqZ (i + 1) (Z.of_nat (length (deck s)) - (i + 1))) fs2.
Proof.
  intros Hgame Hround Hreset Hi Htap until peeking s1 s2 Hagain.
  unfold script. rewrite Hgame, Hreset. cbn zeta.
  fold until. fold peeking. fold s1. rewrite mmp_render_grid_fold.
  assert (deck s1 = deck s) as Hdeck by apply mm_tick_deck.
  assert (deck s2 = deck s) as Hdeck2.
  { unfold s2. by rewrite mm_click_deck. }
  unfold on_board in Hi. rewrite Hdeck.
  replace (Z.of_nat (length (deck s)))
    with (i + (1 + (Z.of_nat (length (deck s)) - (i + 1))))%Z by lia.
  rewrite seqZ_app, (seqZ_cons (0 + i)) by lia.
  rewrite foldl_app. cbn [foldl].
  destruct (mmp_draw_idle peeking (in_card inp) (in_t_tap inp)
              (seqZ 0 i) (Canvas [] s1 None)) as (fs0 & -> & Hfs0); [done| | |].
  { apply Forall_forall. intros j Hj%elem_of_seqZ. unfold on_board.
    cbn [live]. rewrite Hdeck. lia. }
  { apply Forall_forall. intros j Hj%elem_of_seqZ Hc.
    apply Htap in Hc; [lia|]. unfold on_board. lia. }
  cbn [faces live app] in *.
  destruct (mmp_card_face_board peeking s1 i) as [f Hf].
  { unfold on_board. rewrite Hdeck. lia. }
  assert (in_card inp i = true) as Hci by (apply Htap; [unfold on_board; lia|done]).
  assert (raises (on_card_click (in_t_tap inp) s1 i) = false) as Hsafe.
  { destruct (mmp_tick_round (in_now inp) s Hround) as (s0 & k & Hfresh & Hreach).
    destruct (mm_reach_inv s0 k _ Hfresh Hreach) as [Hinv _].
    apply (mm_click_safe k); [done|]. unfold on_board. fold s1.
    rewrite Hdeck. lia. }
  assert (draw_card peeking (in_card inp) (in_t_tap inp) (0 + i)
            (Canvas fs0 s1 None) = Canvas (fs0 ++ [f]) s2 None) as ->.
  { unfold draw_card. cbn [failure live faces]. rewrite Z.add_0_l, Hf, Hci.
    unfold s2. by destruct (on_card_click (in_t_tap inp) s1 i). }
  destruct (mmp_draw_idle peeking (in_card inp) (in_t_tap inp)
              (seqZ (Z.succ (0 + i))
                 (Z.pred (1 + (Z.of_nat (length (deck s)) - (i + 1)))))
              (Canvas (fs0 ++ [f]) s2 None)) as (fs2 & -> & Hfs2); [done| | |].
  { apply Forall_forall. intros j Hj%elem_of_seqZ. unfold on_board.
    cbn [live]. rewrite Hdeck2. lia. }
  { apply Forall_forall. intros j Hj%elem_of_seqZ Hc.
    apply Htap in Hc; [lia|]. unfold on_board. lia. }
  cbn [failure live faces]. rewrite Hagain.
  exists (fs0 ++ [f]), fs2. split; [done|]. split.
  - rewrite seqZ_app, (seqZ_cons (0 + i)) by lia.
    apply Forall2_app; [done|]. rewrite Z.add_0_l. by repeat constructor.
  - cbn [live] in Hfs2.
    refine (eq_rect _ (λ l, Forall2 _ l fs2) Hfs2 _ _). f_equal; lia.
Qed.

(** The peek decides the faces, never the round: drawing the same cards
    with and without it leaves the same session and the same exception. *)
Lemma mmp_draw_peek_indep p p' clicked t_tap idxs : ∀ c c',
  live c = live c' → failure c = failure c' →
  Forall (on_board (deck (live c))) idxs →
  live (foldl (λ c idx, draw_card p clicked t_tap idx c) c idxs) =
    live (foldl (λ c idx, draw_card p' clicked t_tap idx c) c' idxs) ∧
  failure (foldl (λ c idx, draw_card p clicked t_tap idx c) c idxs) =
    failure (foldl (λ c idx, draw_card p' clicked t_tap idx c) c' idxs).
Proof.
  induction idxs as [|i idxs IH]; intros c c' Hlive Hfail Hall; cbn [foldl];
    [done|].
  apply Forall_cons in Hall as [Hi Hall].
  assert (live (draw_card p clicked t_tap i c) =
            live (draw_card p' clicked t_tap i c') ∧
          failure (draw_card p clicked t_tap i c) =
            failure (draw_card p' clicked t_tap i c') ∧
          deck (live (draw_card p clicked t_tap i c)) = deck (live c))
    as (Hl & Hf & Hd).
  { destruct c as [fs s fl], c' as [fs' s' fl'].
    cbn [live failure] in Hlive, Hfail, Hi. subst s' fl'.
    unfold draw_card. cbn [live failure faces].
    destruct fl; [done|].
    destruct (mmp_card_face_board p s i Hi) as [f ->].
    destruct (mmp_card_face_board p' s i Hi) as [f' ->].
    destruct (clicked i); [|done].
    pose proof (mm_click_deck t_tap s i) as Hdeck.
    by destruct (on_card_click t_tap s i). }
  apply IH; [done..|]. by rewrite Hd.
Qed.

Lemma mmp_script_peek_indep peek seconds t_peek until' inp pg :
  game (after (script (with_peek peek seconds t_peek inp)
                 (Page (game pg) until'))) =
    game (after (script inp pg)) ∧
  raised (script (with_peek peek seconds t_peek inp) (Page (game pg) until')) =
    raised (script inp pg).
Proof.
  unfold script, with_peek. cbn [game peek_until in_pool in_pairs in_peek_seconds
    in_reset in_peek in_card in_again in_picks in_order in_picks_again
    in_order_again in_t_new in_t_peek in_now in_t_tap in_t_again].
  destruct (match game pg with
            | Some s => if in_reset inp then _ else inr s
            | None => _
            end) as [e|s]; [done|].
  cbn zeta. rewrite !mmp_render_grid_fold.
  set (s1 := tick (in_now inp) s).
  set (p' := bool_decide (in_now inp <
                (if peek then t_peek + 1000 * seconds else until'))%N).
  set (p := bool_decide (in_now inp <
               (if in_peek inp then in_t_peek inp + 1000 * in_peek_seconds inp
                else peek_until pg))%N).
  destruct (mmp_draw_peek_indep p' p (in_card inp) (in_t_tap inp)
              (seqZ 0 (Z.of_nat (length (deck s1))))
              (Canvas [] s1 None) (Canvas [] s1 None))
    as [Hl Hf]; [done|done|apply mmp_board_seq|].
  destruct (foldl _ _ _) as [fs' s' fl'].
  destruct (foldl _ _ _) as [fs2 s2 fl2].
  cbn [live failure faces] in *. subst s2 fl2.
  destruct fl'; [done|].
  destruct (finished s' && in_again inp); [|done].
  by destruct (new_game _ _ _ _ _).
Qed.

(** The faces [deck[j]] of all cards of a deck are the deck. *)
Lemma mmp_faces_deck (d fs : list string) :
  Forall2 (λ j f, Py.getitem d j = Some f) (seqZ 0 (Z.of_nat (length d))) fs →
  fs = d.
Proof.
  intros Hall. pose proof (Forall2_length _ _ _ Hall) as Hlen.
  rewrite length_seqZ in Hlen.
  apply (list_eq_same_length _ _ (length d)); [done|lia|].
  intros n x y Hn Hx Hy.
  assert (seqZ 0 (Z.of_nat (length d)) !! n = Some (Z.of_nat n)) as Hj.
  { apply lookup_seqZ. lia. }
  pose proof (Forall2_lookup_lr _ _ _ _ _ _ Hall Hj Hx) as Hget.
  unfold Py.getitem in Hget. rewrite decide_True, Nat2Z.id in Hget by lia.
  congruence.
Qed.

(** An accepted tap leaves its card face-up: in [revealed], or in [matched]
    when it completed a pair. *)
Lemma mmp_accepted_face_up now s i :
  accepted (on_card_click now s i) = true →
  (i ∉ revealed s ∪ matched s) ∧
  i ∈ revealed (state_of (on_card_click now s i)) ∪
      matched (state_of (on_card_click now s i)).
Proof.
  intros Hb%mm_accepted_open.
  split; [unfold blocked in Hb; set_solver|].
  destruct (mm_click_cases now s i)
    as [[? _]|[(_ & _ & ->)|(_ & i1 & i2 & _ & _ & Hcmp)]]; [done| |].
  - fields. set_solver.
  - destruct Hcmp as [(c & _ & _ & ->)|[(c1 & c2 & H1 & H2 & _ & ->)|[_ ->]]].
    + unfold after_match. fields. case_bool_decide; fields; set_solver.
    + unfold after_mismatch. fields. set_solver.
    + fields. set_solver.
Qed.

End MemoryMatchPageFacts.

(** ** memory_match.py: more about rounds *)

Module MemoryMatchRounds.
Import MemoryMatch MemoryMatchFacts.

(** From any session on: the deck stays, [matched] and [moves] only grow. *)
Lemma mmr_reach_mono s k s' :
  reach s k s' →
  deck s' = deck s ∧ matched s ⊆ matched s' ∧
  (moves s + Z.of_nat k ≤ moves s')%Z.
Proof.
  induction 1 as [|k s' now _ (Hd & Hm & Hn)|k s' now i _ (Hd & Hm & Hn) _].
  - split; [done|]. split; [done|]. lia.
  - destruct (mm_matched_steps now s' 0) as (_ & Hmt & _).
    destruct (mm_moves_step now s' 0) as [Hmv _].
    split; [by rewrite mm_tick_deck|]. split; [by rewrite Hmt|]. lia.
  - destruct (mm_matched_steps now s' i) as (Hsub & _).
    destruct (mm_moves_step now s' i) as [_ Hmv].
    split; [by rewrite mm_click_deck|]. split; [set_solver|].
    rewrite Hmv. destruct (on_card_click now s' i); cbn; lia.
Qed.

(** In a round, a hide is pending exactly while two cards are face-up; and
    a finished round has no card face-up and no hide pending. *)
Lemma mmr_pause_inv s0 k s :
  fresh s0 → reach s0 k s →
  (pending_hide_at s ≠ 0%N ↔ size (revealed s) = 2) ∧
  (finished s = true → revealed s = ∅ ∧ pending_hide_at s = 0%N).
Proof.
  intros Hfresh Hreach.
  assert ((pending_hide_at s ≠ 0%N → size (revealed s) = 2) ∧
          (finished s = true → revealed s = ∅ ∧ pending_hide_at s = 0%N))
    as [Hp Hf].
  { clear -Hfresh Hreach.
    induction Hreach as [|k s now _ [IHp IHf]|k s now i _ [IHp IHf] _].
    - destruct Hfresh as (Hr & _ & _ & Hp & Hf). rewrite Hp, Hf. by split.
    - destruct (mm_tick_cases now s) as [[-> _]|[-> _]]; [done|].
      fields. split; [done|]. intros Hf. split; [done|done].
    - destruct (mm_click_cases now s i)
        as [[_ ->]|[(Hb & _ & ->)|(Hb & i1 & i2 & HX & Hne & Hcmp)]];
        [done| |]; unfold blocked in Hb.
      + fields. split; [tauto|]. intros Hf. rewrite Hf in Hb. tauto.
      + destruct Hcmp as [(c & _ & _ & ->)|[(c1 & c2 & _ & _ & _ & ->)|[_ ->]]].
        * unfold after_match. fields.
          case_bool_decide; fields; (split; [tauto|]); intros _;
            (split; [done|]); by destruct (decide (pending_hide_at s = 0%N));
            [|tauto].
        * unfold after_mismatch. fields. split.
          -- intros _. rewrite HX. by apply size_pair.
          -- intros Hf. rewrite Hf in Hb. tauto.
        * fields. split; [tauto|]. intros Hf. rewrite Hf in Hb. tauto. }
  split; [|done]. split; [done|].
  destruct (mm_reach_inv s0 k s Hfresh Hreach) as [[] _]. auto.
Qed.

(** A finished round is frozen: redraws and taps leave it as it is. *)
Lemma mmr_finished_frozen s0 k s :
  fresh s0 → reach s0 k s → finished s = true →
  ∀ es k' s', play k s es = Some (k', s') → k' = k ∧ s' = s.
Proof.
  intros Hfresh Hreach Hfin.
  destruct (mmr_pause_inv s0 k s Hfresh Hreach) as [_ Hf].
  destruct (Hf Hfin) as [_ Hp].
  induction es as [|[now|now i] es IH]; intros k' s'; cbn [play].
  - by intros [= <- <-].
  - destruct (mm_tick_cases now s) as [[-> _]|(_ & ? & _)]; [apply IH|done].
  - case_bool_decide; [|done].
    rewrite (mm_click_blocked now s i) by (unfold blocked; tauto).
    cbn [good_matches state_of]. rewrite Nat.add_0_r. apply IH.
Qed.

(** Counting: never more matches than pairs, never fewer moves than
    matches, and the round is finished exactly at [pairs] matches. *)
Lemma mmr_counts pool pairs picks order t0 s0 k s :
  new_game pool pairs picks order t0 = inr s0 → reach s0 k s →
  k ≤ pairs ∧ (Z.of_nat k ≤ moves s)%Z ∧
  (0 < pairs → (finished s = true ↔ k = pairs)).
Proof.
  intros Hnew Hreach.
  destruct (mm_round_inv _ _ _ _ _ _ _ _ Hnew Hreach) as [[] Hlen].
  apply mm_new_game_inr in Hnew as (Hfresh & _).
  destruct (mmr_reach_mono s0 k s Hreach) as (_ & _ & Hmoves).
  destruct Hfresh as (_ & _ & Hm0 & _).
  pose proof (subseteq_size _ _ inv_matched_board0) as Hle.
  rewrite size_board in Hle.
  split; [lia|]. split; [lia|]. intros Hpos. split.
  - intros Hf%inv_finished0. lia.
  - intros ->. apply inv_won0; lia.
Qed.

End MemoryMatchRounds.

(** ** match.py: more about rounds *)

Module AnimalMatchRounds.
Import AnimalMatch AnimalMatchFacts.

Lemma amr_reach_mono s k s' :
  reach s k s' →
  deck s' = deck s ∧ matched s ⊆ matched s' ∧
  (moves s + Z.of_nat k ≤ moves s')%Z.
Proof.
  induction 1 as [|k s' now _ (Hd & Hm & Hn)|k s' now i _ (Hd & Hm & Hn) _].
  - split; [done|]. split; [done|]. lia.
  - destruct (am_matched_steps now s' 0) as (_ & Hmt & _).
    destruct (am_moves_step now s' 0) as [Hmv _].
    split; [by rewrite am_tick_deck|]. split; [by rewrite Hmt|]. lia.
  - destruct (am_matched_steps now s' i) as (Hsub & _).
    destruct (am_moves_step now s' i) as [_ Hmv].
    split; [by rewrite am_click_deck|]. split; [set_solver|].
    rewrite Hmv. destruct (on_card_click now s' i); cbn; lia.
Qed.

(** In a round, the lock is on exactly while two cards are face-up; and a
    finished round has no card face-up and no lock. *)
Lemma amr_pause_inv s0 k s :
  fresh s0 → reach s0 k s →
  (lock s = true ↔ size (revealed s) = 2) ∧
  (finished s = true → revealed s = ∅ ∧ lock s = false).
Proof.
  intros Hfresh Hreach.
  assert ((lock s = true → size (revealed s) = 2) ∧
          (finished s = true → revealed s = ∅ ∧ lock s = false))
    as [Hp Hf].
  { clear -Hfresh Hreach.
    induction Hreach as [|k s now _ [IHp IHf]|k s now i _ [IHp IHf] _].
    - destruct Hfresh as (Hr & _ & _ & Hf & Hl). rewrite Hl, Hf. by split.
    - destruct (am_tick_cases now s) as [[-> _]|[-> _]]; [done|].
      fields. split; [done|]. intros Hf. split; [done|done].
    - destruct (am_click_cases now s i)
        as [[_ ->]|[(Hb & _ & ->)|(Hb & i1 & i2 & HX & Hne & Hcmp)]];
        [done| |]; unfold blocked in Hb.
      + fields. split; [tauto|]. intros Hf. rewrite Hf in Hb. tauto.
      + destruct Hcmp as [(c & _ & _ & ->)|[(c1 & c2 & _ & _ & _ & ->)|[_ ->]]].
        * unfold after_match. fields.
          case_bool_decide; fields; (split; [tauto|]); intros _;
            (split; [done|]); by destruct (lock s); [tauto|].
        * unfold after_mismatch. fields. split.
          -- intros _. rewrite HX. by apply size_pair.
          -- intros Hf. rewrite Hf in Hb. tauto.
        * fields. split; [tauto|]. intros Hf. rewrite Hf in Hb. tauto. }
  split; [|done]. split; [done|].
  destruct (am_reach_inv s0 k s Hfresh Hreach) as [[] _]. auto.
Qed.

(** A finished round, begun with no hide scheduled, is frozen. *)
Lemma amr_finished_frozen s0 k s :
  fresh s0 → hide_at s0 = 0%N → reach s0 k s → finished s = true →
  ∀ es k' s', play k s es = Some (k', s') → k' = k ∧ s' = s.
Proof.
  intros Hfresh Hclean Hreach Hfin.
  destruct (amr_pause_inv s0 k s Hfresh Hreach) as [_ Hf].
  destruct (Hf Hfin) as [_ Hl].
  assert (hide_at s = 0%N) as Hh.
  { destruct Hfresh as (_ & _ & _ & _ & Hl0).
    destruct (am_lock_pending s0 k s Hl0 Hclean Hreach) as [_ Hback].
    destruct (decide (hide_at s = 0%N)) as [|Hne]; [done|].
    apply Hback in Hne. congruence. }
  induction es as [|[now|now i] es IH]; intros k' s'; cbn [play].
  - by intros [= <- <-].
  - destruct (am_tick_cases now s) as [[-> _]|(_ & ? & _)]; [apply IH|done].
  - case_bool_decide; [|done].
    rewrite (am_click_blocked now s i) by (unfold blocked; tauto).
    cbn [good_matches state_of]. rewrite Nat.add_0_r. apply IH.
Qed.

Lemma amr_counts prev pairs picks order s0 k s :
  new_game prev pairs picks order = inr s0 → reach s0 k s →
  k ≤ pairs ∧ (Z.of_nat k ≤ moves s)%Z ∧
  (0 < pairs → (finished s = true ↔ k = pairs)).
Proof.
  intros Hnew Hreach.
  destruct (am_round_inv _ _ _ _ _ _ _ Hnew Hreach) as [[] Hlen].
  apply am_new_game_inr in Hnew as (Hfresh & _).
  destruct (amr_reach_mono s0 k s Hreach) as (_ & _ & Hmoves).
  destruct Hfresh as (_ & _ & Hm0 & _).
  pose proof (subseteq_size _ _ inv_matched_board0) as Hle.
  rewrite size_board in Hle.
  split; [lia|]. split; [lia|]. intros Hpos. split.
  - intros Hf%inv_finished0. lia.
  - intros ->. apply inv_won0; lia.
Qed.

End AnimalMatchRounds.

(** ** match.py: runs of the script *)

Module AnimalMatchPageFacts.
Import AnimalMatch AnimalMatchFacts AnimalMatchPage.

Lemma amp_cols_pos size_choice pairs : 0 < cols size_choice pairs.
Proof. unfold cols. repeat case_bool_decide; lia. Qed.

Lemma amp_face_board peeking s i :
  on_board (deck s) i → is_Some (face peeking s i).
Proof.
  intros Hi. unfold face. case_match; [|by eexists].
  by apply getitem_on_board.
Qed.

Lemma amp_draw_cards peeking s idxs : ∀ fs0,
  Forall (on_board (deck s)) idxs →
  ∃ fs, foldl (λ c idx, draw_card peeking s idx c) (fs0, None) idxs
          = (fs0 ++ fs, None) ∧
        Forall2 (λ j f, face peeking s j = Some f) idxs fs.
Proof.
  induction idxs as [|i idxs IH]; intros fs0 Hall; cbn [foldl].
  - exists []. by rewrite app_nil_r.
  - apply Forall_cons in Hall as [Hi Hall].
    destruct (amp_face_board peeking s i Hi) as [f Hf].
    unfold draw_card at 2. cbn [fst snd]. rewrite Hf.
    destruct (IH (fs0 ++ [f]) Hall) as (fs & -> & Hfs).
    exists (f :: fs). rewrite <- app_assoc. split; [done|]. by constructor.
Qed.

(** The grid gives every card of the deck its face, in deck order, and
    raises nothing. *)
Lemma amp_render_grid peeking size_choice pairs s :
  ∃ fs, render_grid peeking size_choice pairs s = (fs, None) ∧
        Forall2 (λ j f, face peeking s j = Some f)
          (seqZ 0 (Z.of_nat (length (deck s)))) fs.
Proof.
  unfold render_grid. rewrite grid_walk_board by apply amp_cols_pos.
  cbn [snd].
  destruct (amp_draw_cards peeking s (seqZ 0 (Z.of_nat (length (deck s)))) [])
    as (fs & -> & Hfs); [|by exists fs].
  apply Forall_forall. intros i Hi%elem_of_seqZ. unfold on_board. lia.
Qed.

Lemma amp_body_round inp s until0 :
  in_round s → in_pairs inp ≤ length ANIMALS →
  raised (body inp s until0) = None ∧
  in_round (state (after (body inp s until0))).
Proof.
  intros Hround Hpairs. unfold body.
  assert (∃ s1, (if in_new_game inp || bool_decide (deck s = [])
                 then new_game s (in_pairs inp) (in_picks inp) (in_order inp)
                 else inr s) = inr s1 ∧ in_round s1) as (s1 & -> & Hs1).
  { destruct (in_new_game inp || bool_decide (deck s = [])); [|by exists s].
    destruct (new_game s (in_pairs inp) (in_picks inp) (in_order inp))
      as [e|s1] eqn:Hnew.
    - assert (length ANIMALS < in_pairs inp)
        by (apply (am_new_game_raises s (in_pairs inp) (in_picks inp)
                     (in_order inp)); eauto).
      lia.
    - exists s1. split; [done|].
      apply am_new_game_inr in Hnew as (Hfresh & _).
      exists s1, 0. split; [done|]. constructor. }
  cbn zeta. destruct (negb (hide_at s1 =? 0)%N).
  - cbn. split; [done|]. destruct Hs1 as (s0 & k & Hfresh & Hreach).
    exists s0, k. split; [done|]. by constructor.
  - destruct (amp_render_grid
                (bool_decide (in_t_peeking inp <
                   (if in_peek inp then in_t_peek inp + 3000 else until0))%N)
                (in_size_choice inp) (in_pairs inp) s1) as (fs & -> & _).
    by cbn.
Qed.

(** A run keeps the round a round, provided the tapped card, if any, is
    one of the cards of the deck. *)
Lemma amp_script_round inp pg :
  in_round (state pg) → in_pairs inp ≤ length ANIMALS →
  (∀ i, in_tapped inp = Some i → on_board (deck (state pg)) i) →
  raised (script inp pg) = None ∧
  in_round (state (after (script inp pg))).
Proof.
  intros Hround Hpairs Htap. unfold script.
  destruct (in_tapped inp) as [i|]; [|by apply amp_body_round].
  specialize (Htap i eq_refl).
  destruct Hround as (s0 & k & Hfresh & Hreach).
  destruct (am_reach_inv s0 k _ Hfresh Hreach) as [Hinv _].
  pose proof (am_click_safe k (in_t_tap inp) _ i Hinv Htap) as Hsafe.
  pose proof (reach_flip s0 k _ (in_t_tap inp) i Hreach Htap) as Hstep.
  assert (in_round (state_of (on_card_click (in_t_tap inp) (state pg) i)))
    as Hround' by (by eexists s0, _).
  destruct (on_card_click (in_t_tap inp) (state pg) i) eqn:Hclick;
    try done; by apply amp_body_round.
Qed.

(** While the lock is on, a run does nothing but check the deadline: the
    tap, if any, is dropped, no card is drawn, and the run ends in
    [st.rerun()]. *)
Lemma amp_locked_run inp pg :
  lock (state pg) = true → hide_at (state pg) ≠ 0%N →
  in_new_game inp = false → deck (state pg) ≠ [] →
  script inp pg =
    Pass (Page (tick (in_t_hide inp) (state pg))
               (if in_peek inp then (in_t_peek inp + 3000)%N else peek_until pg))
         [] true None.
Proof.
  intros Hlock Hhide Hnew Hdeck.
  assert (body inp (state pg) (peek_until pg) =
          Pass (Page (tick (in_t_hide inp) (state pg))
                 (if in_peek inp then (in_t_peek inp + 3000)%N
                  else peek_until pg)) [] true None) as Hbody.
  { unfold body. rewrite Hnew, bool_decide_eq_false_2 by done. cbn zeta.
    cbn [orb]. by destruct (N.eqb_spec (hide_at (state pg)) 0). }
  unfold script. destruct (in_tapped inp) as [i|]; [|done].
  rewrite (am_click_blocked (in_t_tap inp) (state pg) i)
    by (unfold blocked; tauto).
  done.
Qed.

Lemma amp_script_peek_indep peek t_peek t_peeking until' inp pg :
  state (after (script (with_peek peek t_peek t_peeking inp)
                  (Page (state pg) until'))) =
    state (after (script inp pg)) ∧
  raised (script (with_peek peek t_peek t_peeking inp) (Page (state pg) until')) =
    raised (script inp pg).
Proof.
  assert (∀ s, state (after (body (with_peek peek t_peek t_peeking inp) s until'))
               = state (after (body inp s (peek_until pg))) ∧
               raised (body (with_peek peek t_peek t_peeking inp) s until')
               = raised (body inp s (peek_until pg))) as Hbody.
  { intros s. unfold body, with_peek.
    cbn [in_tapped in_pairs in_size_choice in_new_game in_peek in_picks
         in_order in_t_tap in_t_peek in_t_peeking in_t_hide].
    destruct (if in_new_game inp || bool_decide (deck s = []) then _ else _)
      as [e|s1]; [done|].
    cbn zeta. destruct (negb (hide_at s1 =? 0)%N); [done|].
    destruct (amp_render_grid
                (bool_decide (t_peeking < (if peek then t_peek + 3000 else until'))%N)
                (in_size_choice inp) (in_pairs inp) s1) as (fs & -> & _).
    destruct (amp_render_grid
                (bool_decide (in_t_peeking inp <
                   (if in_peek inp then in_t_peek inp + 3000 else peek_until pg))%N)
                (in_size_choice inp) (in_pairs inp) s1) as (fs' & -> & _).
    done. }
  unfold script. cbn [state peek_until].
  replace (in_tapped (with_peek peek t_peek t_peeking inp))
    with (in_tapped inp) by done.
  replace (in_t_tap (with_peek peek t_peek t_peeking inp))
    with (in_t_tap inp) by done.
  destruct (in_tapped inp) as [i|]; [|apply Hbody].
  destruct (on_card_click (in_t_tap inp) (state pg) i); try apply Hbody.
  done.
Qed.

End AnimalMatchPageFacts.

(** ** The faces of the cards *)

Lemma mmf_solved_face peeking s k s' i x :
  MemoryMatch.reach s k s' → i ∈ MemoryMatch.matched s →
  Py.getitem (MemoryMatch.deck s) i = Some x →
  MemoryMatchPage.card_face peeking s' i = Some x.
Proof.
  intros (Hd & Hm & _)%MemoryMatchRounds.mmr_reach_mono Hi Hx.
  unfold MemoryMatchPage.card_face.
  rewrite (bool_decide_eq_true_2 (i ∈ MemoryMatch.matched s')) by set_solver.
  rewrite !orb_true_r. by rewrite Hd.
Qed.

Lemma mmf_won_faces peeking s i :
  MemoryMatchPage.in_round s → MemoryMatch.finished s = true →
  on_board (MemoryMatch.deck s) i →
  MemoryMatchPage.card_face peeking s i = Py.getitem (MemoryMatch.deck s) i.
Proof.
  intros (s0 & k & Hfresh & Hreach) Hfin Hi.
  destruct (MemoryMatchFacts.mm_reach_inv s0 k s Hfresh Hreach) as [[] _].
  assert (MemoryMatch.matched s = board (MemoryMatch.deck s)) as Hall
    by (apply covers_board; auto).
  unfold MemoryMatchPage.card_face.
  rewrite (bool_decide_eq_true_2 (i ∈ MemoryMatch.matched s))
    by (rewrite Hall; by apply elem_of_board).
  by rewrite !orb_true_r.
Qed.

Lemma amf_solved_face peeking s k s' i x :
  AnimalMatch.reach s k s' → i ∈ AnimalMatch.matched s →
  Py.getitem (AnimalMatch.deck s) i = Some x →
  AnimalMatchPage.face peeking s' i = Some x.
Proof.
  intros (Hd & Hm & _)%AnimalMatchRounds.amr_reach_mono Hi Hx.
  unfold AnimalMatchPage.face, AnimalMatchPage.is_face_up.
  rewrite (bool_decide_eq_true_2 (i ∈ AnimalMatch.matched s')) by set_solver.
  rewrite !orb_true_r. by rewrite Hd.
Qed.

Lemma amf_won_faces peeking s i :
  AnimalMatchPage.in_round s → AnimalMatch.finished s = true →
  on_board (AnimalMatch.deck s) i →
  AnimalMatchPage.face peeking s i = Py.getitem (AnimalMatch.deck s) i.
Proof.
  intros (s0 & k & Hfresh & Hreach) Hfin Hi.
  destruct (AnimalMatchFacts.am_reach_inv s0 k s Hfresh Hreach) as [[] _].
  assert (AnimalMatch.matched s = board (AnimalMatch.deck s)) as Hall
    by (apply covers_board; auto).
  unfold AnimalMatchPage.face, AnimalMatchPage.is_face_up.
  rewrite (bool_decide_eq_true_2 (i ∈ AnimalMatch.matched s))
    by (rewrite Hall; by apply elem_of_board).
  by rewrite !orb_true_r.
Qed.

(** * Beyond the claims: the pages around the engine *)

(** ** The render loops *)

(** The two nested loops that draw the grid visit the positions
    [0, 1, ..., len(deck) - 1], once each and in this order, and no other
    position, whatever the body of the loop does and for every number of
    columns either script can choose. *)
Theorem grid_draws_every_card :
  (∀ (A : Type) (visit : Z → A → A) (len pairs : nat) (a : A),
     Grid.walk visit len (Grid.rows len (MemoryMatchPage.cols pairs))
       (MemoryMatchPage.cols pairs) a =
     (Z.of_nat len,
      foldl (λ a idx, visit idx a) a (seqZ 0 (Z.of_nat len)))) ∧
  (∀ (A : Type) (visit : Z → A → A) (len : nat) (size_choice : string)
     (pairs : nat) (a : A),
     Grid.walk visit len
       (Grid.rows len (AnimalMatchPage.cols size_choice pairs))
       (AnimalMatchPage.cols size_choice pairs) a =
     (Z.of_nat len,
      foldl (λ a idx, visit idx a) a (seqZ 0 (Z.of_nat len)))).
Proof.
  split.
  - intros. apply grid_walk_board, MemoryMatchPageFacts.mmp_cols_pos.
  - intros. apply grid_walk_board, AnimalMatchPageFacts.amp_cols_pos.
Qed.

(** The grid of match.py gives every card of the deck its face, in deck
    order, and raises nothing, in any session whatever. *)
Theorem match_py_grid_faces :
  ∀ peeking size_choice pairs (s : AnimalMatch.session),
    ∃ fs, AnimalMatchPage.render_grid peeking size_choice pairs s = (fs, None) ∧
          length fs = length (AnimalMatch.deck s) ∧
          Forall2 (λ j f, AnimalMatchPage.face peeking s j = Some f)
            (seqZ 0 (Z.of_nat (length (AnimalMatch.deck s)))) fs.
Proof.
  intros peeking size_choice pairs s.
  destruct (AnimalMatchPageFacts.amp_render_grid peeking size_choice pairs s)
    as (fs & Hfs & Hall).
  exists fs. split; [done|]. split; [|done].
  apply Forall2_length in Hall. rewrite length_seqZ in Hall. lia.
Qed.

(** ** Runs of memory_match.py *)

(** Whatever the buttons report, run after run from an empty session state
    (with a pair count the theme can serve): no run ends in an exception,
    and each leaves a round in which at most two cards are face-up, no card
    is both face-up and solved, the solved cards are cards of the deck and
    even in number, a finished round has every card solved, and a hide is
    pending exactly while two cards are face-up. *)
Theorem memory_match_runs_keep_the_round inps inp :
  Forall (λ inp, MemoryMatchPage.in_pairs inp ≤
                 length (MemoryMatchPage.in_pool inp)) (inps ++ [inp]) →
  MemoryMatchPage.raised
    (MemoryMatchPage.script inp
       (MemoryMatchPage.runs inps MemoryMatchPage.blank)) = None ∧
  ∃ s, MemoryMatchPage.game
         (MemoryMatchPage.after
            (MemoryMatchPage.script inp
               (MemoryMatchPage.runs inps MemoryMatchPage.blank))) = Some s ∧
       size (MemoryMatch.revealed s) ≤ 2 ∧
       MemoryMatch.revealed s ∩ MemoryMatch.matched s = ∅ ∧
       MemoryMatch.matched s ⊆ board (MemoryMatch.deck s) ∧
       Nat.Even (size (MemoryMatch.matched s)) ∧
       (MemoryMatch.finished s = true →
        MemoryMatch.matched s = board (MemoryMatch.deck s)) ∧
       (MemoryMatch.pending_hide_at s ≠ 0%N ↔
        size (MemoryMatch.revealed s) = 2).
Proof.
  intros [Hinps Hinp]%Forall_app. apply Forall_cons in Hinp as [Hinp _].
  assert (MemoryMatchPage.page_ok
            (MemoryMatchPage.runs inps MemoryMatchPage.blank)) as Hok
    by (by apply MemoryMatchPageFacts.mmp_runs_ok).
  destruct (MemoryMatchPageFacts.mmp_script_round inp _ Hok Hinp)
    as (Hraised & s & Hs & s0 & k & Hfresh & Hreach).
  split; [done|]. exists s. split; [done|].
  destruct (MemoryMatchFacts.mm_reach_inv s0 k s Hfresh Hreach) as [[] _].
  destruct (MemoryMatchRounds.mmr_pause_inv s0 k s Hfresh Hreach) as [Hpause _].
  split; [done|]. split; [by apply disjoint_intersection_L|].
  split; [done|]. split; [by exists k|]. split; [|done].
  intros Hfin. apply covers_board; auto.
Qed.

Lemma memory_match_runs_keep_the_round_witness :
  MemoryMatchPage.raised
    (MemoryMatchPage.script (mmp_tap 3 5000)
       (MemoryMatchPage.runs
          [mmp_first_run; mmp_tap 0 2000; mmp_tap 1 3000; mmp_tap 2 4000]
          MemoryMatchPage.blank)) = None ∧
  ∃ s, MemoryMatchPage.game
         (MemoryMatchPage.after
            (MemoryMatchPage.script (mmp_tap 3 5000)
               (MemoryMatchPage.runs
                  [mmp_first_run; mmp_tap 0 2000; mmp_tap 1 3000; mmp_tap 2 4000]
                  MemoryMatchPage.blank))) = Some s ∧
       size (MemoryMatch.revealed s) ≤ 2 ∧
       MemoryMatch.revealed s ∩ MemoryMatch.matched s = ∅ ∧
       MemoryMatch.matched s ⊆ board (MemoryMatch.deck s) ∧
       Nat.Even (size (MemoryMatch.matched s)) ∧
       (MemoryMatch.finished s = true →
        MemoryMatch.matched s = board (MemoryMatch.deck s)) ∧
       (MemoryMatch.pending_hide_at s ≠ 0%N ↔
        size (MemoryMatch.revealed s) = 2).
Proof.
  apply (memory_match_runs_keep_the_round
           [mmp_first_run; mmp_tap 0 2000; mmp_tap 1 3000; mmp_tap 2 4000]
           (mmp_tap 3 5000)).
  repeat (apply Forall_cons_2; [cbn; lia|]). apply Forall_nil_2.
Defined.

(** In memory_match.py a card is drawn before its own tap is handled.  In
    a run with one tap, on a card the handler accepts, while no peek is on:
    the tap turns the card face-up in the session the run leaves, but the
    button of that card was given the face "❓", and the run does not end
    in a rerun that would draw it again. *)
Theorem tapped_card_is_drawn_face_down inp pg s i :
  MemoryMatchPage.game pg = Some s → MemoryMatchPage.in_round s →
  MemoryMatchPage.in_reset inp = false →
  MemoryMatchPage.in_again inp = false →
  on_board (MemoryMatch.deck s) i →
  (∀ j, on_board (MemoryMatch.deck s) j →
        (MemoryMatchPage.in_card inp j = true ↔ j = i)) →
  MemoryMatchPage.in_peek inp = false →
  (MemoryMatchPage.peek_until pg ≤ MemoryMatchPage.in_now inp)%N →
  accepted (MemoryMatch.on_card_click (MemoryMatchPage.in_t_tap inp)
              (MemoryMatch.tick (MemoryMatchPage.in_now inp) s) i) = true →
  ∃ s2, MemoryMatchPage.after (MemoryMatchPage.script inp pg) =
          MemoryMatchPage.Page (Some s2) (MemoryMatchPage.peek_until pg) ∧
        i ∈ MemoryMatch.revealed s2 ∪ MemoryMatch.matched s2 ∧
        MemoryMatchPage.drawn (MemoryMatchPage.script inp pg) !! Z.to_nat i =
          Some "❓"%string ∧
        MemoryMatchPage.rerun (MemoryMatchPage.script inp pg) = false ∧
        MemoryMatchPage.raised (MemoryMatchPage.script inp pg) = None.
Proof.
  intros Hgame Hround Hreset Hagain Hi Htap Hpeek Huntil Hacc.
  destruct (MemoryMatchPageFacts.mmp_one_tap_run inp pg s i Hgame Hround
              Hreset Hi Htap) as (fs1 & fs2 & Hscript & Hfs1 & _).
  { rewrite Hagain. apply andb_false_r. }
  rewrite Hpeek in Hscript, Hfs1.
  rewrite (bool_decide_eq_false_2 (_ < _)%N) in Hscript, Hfs1 by lia.
  rewrite Hscript. cbn [MemoryMatchPage.after MemoryMatchPage.drawn
    MemoryMatchPage.rerun MemoryMatchPage.raised].
  eexists. split; [done|].
  destruct (MemoryMatchPageFacts.mmp_accepted_face_up _ _ _ Hacc) as [Hhid Hup].
  split; [done|]. split; [|done].
  unfold on_board in Hi.
  assert (seqZ 0 (i + 1) !! Z.to_nat i = Some i) as Hj
    by (apply lookup_seqZ; lia).
  destruct (Forall2_lookup_l _ _ _ _ _ Hfs1 Hj) as (f & Hf & Hface).
  rewrite (lookup_app_l_Some _ _ _ _ Hf). rewrite <- Hface.
  unfold MemoryMatchPage.card_face.
  rewrite !bool_decide_eq_false_2 by set_solver. done.
Qed.

Lemma tapped_card_is_drawn_face_down_witness :
  ∃ s2, MemoryMatchPage.after
          (MemoryMatchPage.script (mmp_tap 0 2000)
             (MemoryMatchPage.Page (Some mm_demo_round) 0)) =
          MemoryMatchPage.Page (Some s2) 0 ∧
        0%Z ∈ MemoryMatch.revealed s2 ∪ MemoryMatch.matched s2 ∧
        MemoryMatchPage.drawn
          (MemoryMatchPage.script (mmp_tap 0 2000)
             (MemoryMatchPage.Page (Some mm_demo_round) 0)) !! Z.to_nat 0 =
          Some "❓"%string ∧
        MemoryMatchPage.rerun
          (MemoryMatchPage.script (mmp_tap 0 2000)
             (MemoryMatchPage.Page (Some mm_demo_round) 0)) = false ∧
        MemoryMatchPage.raised
          (MemoryMatchPage.script (mmp_tap 0 2000)
             (MemoryMatchPage.Page (Some mm_demo_round) 0)) = None.
Proof.
  apply (tapped_card_is_drawn_face_down (mmp_tap 0 2000)
           (MemoryMatchPage.Page (Some mm_demo_round) 0) mm_demo_round 0%Z).
  - reflexivity.
  - exists mm_demo_round, 0. split; [by vm_compute|constructor].
  - reflexivity.
  - reflexivity.
  - unfold on_board. cbn. lia.
  - intros j _. cbn. apply bool_decide_eq_true.
  - reflexivity.
  - cbn. lia.
  - reflexivity.
Defined.

(** The pause of memory_match.py, run by run.  While a hide is pending and
    its deadline is ahead, a run changes nothing in the round, whatever
    cards are tapped.  The first run at or after the deadline hides the two
    cards before it draws the grid, so a tap on a hidden card handled in
    that same run is accepted as the first card of the next pair. *)
Theorem memory_match_pause :
  (∀ inp pg (s : MemoryMatch.session),
     MemoryMatchPage.game pg = Some s →
     MemoryMatchPage.in_reset inp = false →
     MemoryMatch.finished s = false →
     MemoryMatch.pending_hide_at s ≠ 0%N →
     (MemoryMatchPage.in_now inp < MemoryMatch.pending_hide_at s)%N →
     MemoryMatchPage.game (MemoryMatchPage.after (MemoryMatchPage.script inp pg))
       = Some s ∧
     MemoryMatchPage.raised (MemoryMatchPage.script inp pg) = None) ∧
  (∀ inp pg (s : MemoryMatch.session) (i : Z),
     MemoryMatchPage.game pg = Some s → MemoryMatchPage.in_round s →
     MemoryMatchPage.in_reset inp = false →
     MemoryMatchPage.in_again inp = false →
     MemoryMatch.pending_hide_at s ≠ 0%N →
     (MemoryMatch.pending_hide_at s ≤ MemoryMatchPage.in_now inp)%N →
     on_board (MemoryMatch.deck s) i → i ∉ MemoryMatch.matched s →
     (∀ j, on_board (MemoryMatch.deck s) j →
           (MemoryMatchPage.in_card inp j = true ↔ j = i)) →
     MemoryMatchPage.game (MemoryMatchPage.after (MemoryMatchPage.script inp pg))
       = Some (MemoryMatch.set_revealed {[ i ]}
                 (MemoryMatch.set_pending_hide_at 0
                    (MemoryMatch.set_revealed ∅ s))) ∧
     MemoryMatchPage.raised (MemoryMatchPage.script inp pg) = None).
Proof.
  split.
  - intros inp pg s Hgame Hreset Hfin Hset Hearly.
    assert (MemoryMatch.tick (MemoryMatchPage.in_now inp) s = s) as Htick.
    { destruct (MemoryMatchFacts.mm_tick_cases (MemoryMatchPage.in_now inp) s)
        as [[-> _]|(_ & _ & ?)]; [done|lia]. }
    destruct (MemoryMatchPageFacts.mmp_idle_run inp pg s Hgame Hreset)
      as (fs & -> & _).
    + intros i _ _. rewrite Htick. unfold MemoryMatch.blocked. tauto.
    + by rewrite Htick, Hfin.
    + cbn. by rewrite Htick.
  - intros inp pg s i Hgame Hround Hreset Hagain Hset Hdue Hi Him Htap.
    assert (MemoryMatch.tick (MemoryMatchPage.in_now inp) s =
            MemoryMatch.set_pending_hide_at 0 (MemoryMatch.set_revealed ∅ s))
      as Htick by (by apply MemoryMatchFacts.mm_tick_due).
    assert (MemoryMatch.finished s = false) as Hfin.
    { destruct Hround as (s0 & k & Hfresh & Hreach).
      destruct (MemoryMatchRounds.mmr_pause_inv s0 k s Hfresh Hreach)
        as [_ Hf].
      destruct (MemoryMatch.finished s); [|done].
      destruct (Hf eq_refl) as [_ ?]. done. }
    assert (MemoryMatch.on_card_click (MemoryMatchPage.in_t_tap inp)
              (MemoryMatch.tick (MemoryMatchPage.in_now inp) s) i
            = FaceUp (MemoryMatch.set_revealed {[ i ]}
                        (MemoryMatch.tick (MemoryMatchPage.in_now inp) s)))
      as Hclick.
    { apply MemoryMatchFacts.mm_first_card; [by rewrite Htick|].
      apply MemoryMatchFacts.mm_open_accepted. rewrite Htick.
      unfold MemoryMatch.blocked. cbn. rewrite Hfin.
      intros [?|[?%elem_of_empty|[?|?]]]; done. }
    destruct (MemoryMatchPageFacts.mmp_one_tap_run inp pg s i Hgame Hround
                Hreset Hi Htap) as (fs1 & fs2 & -> & _).
    { rewrite Hagain. apply andb_false_r. }
    rewrite Hclick, Htick. done.
Qed.

Lemma memory_match_pause_witness :
  (MemoryMatchPage.game
     (MemoryMatchPage.after
        (MemoryMatchPage.script (mmp_tap 4 5500)
           (MemoryMatchPage.Page (Some mm_demo_mismatch) 0)))
     = Some mm_demo_mismatch ∧
   MemoryMatchPage.raised
     (MemoryMatchPage.script (mmp_tap 4 5500)
        (MemoryMatchPage.Page (Some mm_demo_mismatch) 0)) = None) ∧
  (MemoryMatchPage.game
     (MemoryMatchPage.after
        (MemoryMatchPage.script (mmp_tap 4 5900)
           (MemoryMatchPage.Page (Some mm_demo_mismatch) 0)))
     = Some (MemoryMatch.set_revealed {[ 4%Z ]}
               (MemoryMatch.set_pending_hide_at 0
                  (MemoryMatch.set_revealed ∅ mm_demo_mismatch))) ∧
   MemoryMatchPage.raised
     (MemoryMatchPage.script (mmp_tap 4 5900)
        (MemoryMatchPage.Page (Some mm_demo_mismatch) 0)) = None).
Proof.
  split.
  - apply (proj1 memory_match_pause (mmp_tap 4 5500)
             (MemoryMatchPage.Page (Some mm_demo_mismatch) 0) mm_demo_mismatch).
    + reflexivity.
    + reflexivity.
    + reflexivity.
    + discriminate.
    + reflexivity.
  - apply (proj2 memory_match_pause (mmp_tap 4 5900)
             (MemoryMatchPage.Page (Some mm_demo_mismatch) 0)
             mm_demo_mismatch 4%Z).
    + reflexivity.
    + exists mm_demo_round, 1. split; [by vm_compute|].
      exact mm_demo_reach_mismatch.
    + reflexivity.
    + reflexivity.
    + discriminate.
    + cbn. lia.
    + unfold on_board. cbn. lia.
    + apply (bool_decide_unpack _). by vm_compute.
    + intros j _. cbn. apply bool_decide_eq_true.
Defined.

(** ** The peek *)

(** The peek shows faces and nothing more: two runs that differ only in
    the peek (its button, its duration, its clock readings and the
    [_peek_until] left by earlier runs) leave the same round and end in the
    same exception, if any; in both scripts. *)
Theorem peek_never_touches_the_round :
  (∀ peek seconds t_peek until' inp pg,
     MemoryMatchPage.game
       (MemoryMatchPage.after
          (MemoryMatchPage.script
             (MemoryMatchPage.with_peek peek seconds t_peek inp)
             (MemoryMatchPage.Page (MemoryMatchPage.game pg) until'))) =
       MemoryMatchPage.game (MemoryMatchPage.after (MemoryMatchPage.script inp pg)) ∧
     MemoryMatchPage.raised
       (MemoryMatchPage.script
          (MemoryMatchPage.with_peek peek seconds t_peek inp)
          (MemoryMatchPage.Page (MemoryMatchPage.game pg) until')) =
       MemoryMatchPage.raised (MemoryMatchPage.script inp pg)) ∧
  (∀ peek t_peek t_peeking until' inp pg,
     AnimalMatchPage.state
       (AnimalMatchPage.after
          (AnimalMatchPage.script
             (AnimalMatchPage.with_peek peek t_peek t_peeking inp)
             (AnimalMatchPage.Page (AnimalMatchPage.state pg) until'))) =
       AnimalMatchPage.state (AnimalMatchPage.after (AnimalMatchPage.script inp pg)) ∧
     AnimalMatchPage.raised
       (AnimalMatchPage.script
          (AnimalMatchPage.with_peek peek t_peek t_peeking inp)
          (AnimalMatchPage.Page (AnimalMatchPage.state pg) until')) =
       AnimalMatchPage.raised (AnimalMatchPage.script inp pg)).
Proof.
  split.
  - exact MemoryMatchPageFacts.mmp_script_peek_indep.
  - exact AnimalMatchPageFacts.amp_script_peek_indep.
Qed.

(** While a peek is on, a run that handles no accepted tap (and, in
    match.py, finds no hide scheduled) gives the card buttons exactly the
    symbols of the deck, in deck order, whatever is revealed or solved. *)
Theorem peek_run_draws_the_deck :
  (∀ inp pg (s : MemoryMatch.session),
     MemoryMatchPage.game pg = Some s →
     MemoryMatchPage.in_reset inp = false →
     (MemoryMatchPage.in_now inp <
        (if MemoryMatchPage.in_peek inp
         then MemoryMatchPage.in_t_peek inp
              + 1000 * MemoryMatchPage.in_peek_seconds inp
         else MemoryMatchPage.peek_until pg))%N →
     (∀ i, on_board (MemoryMatch.deck s) i →
           MemoryMatchPage.in_card inp i = true →
           MemoryMatch.blocked
             (MemoryMatch.tick (MemoryMatchPage.in_now inp) s) i) →
     MemoryMatch.finished (MemoryMatch.tick (MemoryMatchPage.in_now inp) s)
       && MemoryMatchPage.in_again inp = false →
     MemoryMatchPage.drawn (MemoryMatchPage.script inp pg) = MemoryMatch.deck s ∧
     MemoryMatchPage.rerun (MemoryMatchPage.script inp pg) = true) ∧
  (∀ inp pg,
     AnimalMatchPage.in_tapped inp = None →
     AnimalMatchPage.in_new_game inp = false →
     AnimalMatch.deck (AnimalMatchPage.state pg) ≠ [] →
     AnimalMatch.hide_at (AnimalMatchPage.state pg) = 0%N →
     (AnimalMatchPage.in_t_peeking inp <
        (if AnimalMatchPage.in_peek inp
         then AnimalMatchPage.in_t_peek inp + 3000
         else AnimalMatchPage.peek_until pg))%N →
     AnimalMatchPage.drawn (AnimalMatchPage.script inp pg) =
       AnimalMatch.deck (AnimalMatchPage.state pg) ∧
     AnimalMatchPage.rerun (AnimalMatchPage.script inp pg) = true).
Proof.
  split.
  - intros inp pg s Hgame Hreset Hpeeking Hidle Hagain.
    destruct (MemoryMatchPageFacts.mmp_idle_run inp pg s Hgame Hreset Hidle
                Hagain) as (fs & -> & Hfs).
    rewrite bool_decide_eq_true_2 in Hfs |- * by done.
    cbn [MemoryMatchPage.drawn MemoryMatchPage.rerun]. split; [|done].
    apply MemoryMatchPageFacts.mmp_faces_deck.
    rewrite <- (MemoryMatchFacts.mm_tick_deck (MemoryMatchPage.in_now inp) s).
    rewrite <- (MemoryMatchFacts.mm_tick_deck (MemoryMatchPage.in_now inp) s)
      in Hfs at 1.
    exact Hfs.
  - intros inp pg Htap Hnew Hdeck Hhide Hpeeking.
    unfold AnimalMatchPage.script, AnimalMatchPage.body.
    rewrite Htap, Hnew, bool_decide_eq_false_2 by done. cbn zeta. cbn [orb].
    rewrite Hhide. cbn [N.eqb negb].
    destruct (AnimalMatchPageFacts.amp_render_grid
                (bool_decide (AnimalMatchPage.in_t_peeking inp <
                   (if AnimalMatchPage.in_peek inp
                    then AnimalMatchPage.in_t_peek inp + 3000
                    else AnimalMatchPage.peek_until pg))%N)
                (AnimalMatchPage.in_size_choice inp)
                (AnimalMatchPage.in_pairs inp) (AnimalMatchPage.state pg))
      as (fs & -> & Hfs).
    rewrite bool_decide_eq_true_2 in Hfs |- * by done.
    cbn [fst snd AnimalMatchPage.drawn AnimalMatchPage.rerun]. split; [|done].
    by apply MemoryMatchPageFacts.mmp_faces_deck.
Qed.

Lemma peek_run_draws_the_deck_witness :
  (MemoryMatchPage.drawn
     (MemoryMatchPage.script
        (MemoryMatchPage.with_peek true 3 2000 (mmp_tap 0 2100))
        (MemoryMatchPage.Page (Some mm_demo_mismatch) 0))
     = MemoryMatch.deck mm_demo_mismatch ∧
   MemoryMatchPage.rerun
     (MemoryMatchPage.script
        (MemoryMatchPage.with_peek true 3 2000 (mmp_tap 0 2100))
        (MemoryMatchPage.Page (Some mm_demo_mismatch) 0)) = true) ∧
  (AnimalMatchPage.drawn
     (AnimalMatchPage.script
        (AnimalMatchPage.with_peek true 2000 2100 (amp_run None 2100))
        (AnimalMatchPage.Page am_demo_round 0))
     = AnimalMatch.deck am_demo_round ∧
   AnimalMatchPage.rerun
     (AnimalMatchPage.script
        (AnimalMatchPage.with_peek true 2000 2100 (amp_run None 2100))
        (AnimalMatchPage.Page am_demo_round 0)) = true).
Proof.
  split.
  - apply (proj1 peek_run_draws_the_deck
             (MemoryMatchPage.with_peek true 3 2000 (mmp_tap 0 2100))
             (MemoryMatchPage.Page (Some mm_demo_mismatch) 0) mm_demo_mismatch).
    + reflexivity.
    + reflexivity.
    + reflexivity.
    + intros i _ _. right; right; right. discriminate.
    + reflexivity.
  - apply (proj2 peek_run_draws_the_deck
             (AnimalMatchPage.with_peek true 2000 2100 (amp_run None 2100))
             (AnimalMatchPage.Page am_demo_round 0)).
    + reflexivity.
    + reflexivity.
    + discriminate.
    + reflexivity.
    + reflexivity.
Defined.

(** ** Faces, pauses and counts in a round *)

(** A solved card keeps its face: from any session on, through redraws and
    taps, a card in [matched] is drawn with its own symbol, peek or no peek.
    And in a finished round every card of the deck is drawn with its
    symbol.  In both scripts. *)
Theorem solved_cards_show_their_symbol :
  (∀ peeking (s : MemoryMatch.session) k s' (i : Z) (x : string),
     MemoryMatch.reach s k s' → i ∈ MemoryMatch.matched s →
     Py.getitem (MemoryMatch.deck s) i = Some x →
     MemoryMatchPage.card_face peeking s' i = Some x) ∧
  (∀ peeking (s : MemoryMatch.session) (i : Z),
     MemoryMatchPage.in_round s → MemoryMatch.finished s = true →
     on_board (MemoryMatch.deck s) i →
     MemoryMatchPage.card_face peeking s i =
       Py.getitem (MemoryMatch.deck s) i) ∧
  (∀ peeking (s : AnimalMatch.session) k s' (i : Z) (x : string),
     AnimalMatch.reach s k s' → i ∈ AnimalMatch.matched s →
     Py.getitem (AnimalMatch.deck s) i = Some x →
     AnimalMatchPage.face peeking s' i = Some x) ∧
  (∀ peeking (s : AnimalMatch.session) (i : Z),
     AnimalMatchPage.in_round s → AnimalMatch.finished s = true →
     on_board (AnimalMatch.deck s) i →
     AnimalMatchPage.face peeking s i = Py.getitem (AnimalMatch.deck s) i).
Proof.
  split; [exact mmf_solved_face|]. split; [exact mmf_won_faces|].
  split; [exact amf_solved_face|exact amf_won_faces].
Qed.

Lemma solved_cards_show_their_symbol_witness :
  MemoryMatchPage.card_face false mm_demo_won 1 = Some "A"%string ∧
  MemoryMatchPage.card_face false mm_demo_won 5 =
    Py.getitem (MemoryMatch.deck mm_demo_won) 5 ∧
  AnimalMatchPage.face false am_demo_won 1 = Some "🐶"%string ∧
  AnimalMatchPage.face false am_demo_won 5 =
    Py.getitem (AnimalMatch.deck am_demo_won) 5.
Proof.
  split; [|split; [|split]].
  - apply (proj1 solved_cards_show_their_symbol false mm_demo_mismatch 2
             mm_demo_won 1%Z "A"%string).
    + apply (MemoryMatchFacts.mm_play_reach _ mm_demo_rest 0 mm_demo_mismatch);
        [apply MemoryMatch.reach_new|by vm_compute].
    + apply (bool_decide_unpack _). by vm_compute.
    + reflexivity.
  - apply (proj1 (proj2 solved_cards_show_their_symbol) false mm_demo_won 5%Z).
    + exists mm_demo_round, 3. split; [by vm_compute|exact mm_demo_reach_won].
    + reflexivity.
    + unfold on_board. cbn. lia.
  - apply (proj1 (proj2 (proj2 solved_cards_show_their_symbol)) false
             am_demo_mismatch 2 am_demo_won 1%Z "🐶"%string).
    + apply (AnimalMatchFacts.am_play_reach _ am_demo_rest 0 am_demo_mismatch);
        [apply AnimalMatch.reach_new|by vm_compute].
    + apply (bool_decide_unpack _). by vm_compute.
    + reflexivity.
  - apply (proj2 (proj2 (proj2 solved_cards_show_their_symbol)) false
             am_demo_won 5%Z).
    + exists am_demo_round, 3. split; [by vm_compute|exact am_demo_reach_won].
    + reflexivity.
    + unfold on_board. cbn. lia.
Defined.

(** In every session of a round the board is locked exactly while two
    cards are face-up: in memory_match.py a hide is pending iff [revealed]
    holds two cards, in match.py the lock is on iff it does.  A finished
    round has no card face-up and no pause. *)
Theorem pause_while_two_cards_up :
  (∀ pool pairs picks order t0 s0 k (s : MemoryMatch.session),
     MemoryMatch.new_game pool pairs picks order t0 = inr s0 →
     MemoryMatch.reach s0 k s →
     (MemoryMatch.pending_hide_at s ≠ 0%N ↔ size (MemoryMatch.revealed s) = 2) ∧
     (MemoryMatch.finished s = true →
      MemoryMatch.revealed s = ∅ ∧ MemoryMatch.pending_hide_at s = 0%N)) ∧
  (∀ prev pairs picks order s0 k (s : AnimalMatch.session),
     AnimalMatch.new_game prev pairs picks order = inr s0 →
     AnimalMatch.reach s0 k s →
     (AnimalMatch.lock s = true ↔ size (AnimalMatch.revealed s) = 2) ∧
     (AnimalMatch.finished s = true →
      AnimalMatch.revealed s = ∅ ∧ AnimalMatch.lock s = false)).
Proof.
  split.
  - intros pool pairs picks order t0 s0 k s Hnew Hreach.
    apply MemoryMatchFacts.mm_new_game_inr in Hnew as [Hfresh _].
    by apply (MemoryMatchRounds.mmr_pause_inv s0 k).
  - intros prev pairs picks order s0 k s Hnew Hreach.
    apply AnimalMatchFacts.am_new_game_inr in Hnew as [Hfresh _].
    by apply (AnimalMatchRounds.amr_pause_inv s0 k).
Qed.

Lemma pause_while_two_cards_up_witness :
  ((MemoryMatch.pending_hide_at mm_demo_mismatch ≠ 0%N ↔
    size (MemoryMatch.revealed mm_demo_mismatch) = 2) ∧
   (MemoryMatch.finished mm_demo_mismatch = true →
    MemoryMatch.revealed mm_demo_mismatch = ∅ ∧
    MemoryMatch.pending_hide_at mm_demo_mismatch = 0%N)) ∧
  ((AnimalMatch.lock am_demo_mismatch = true ↔
    size (AnimalMatch.revealed am_demo_mismatch) = 2) ∧
   (AnimalMatch.finished am_demo_mismatch = true →
    AnimalMatch.revealed am_demo_mismatch = ∅ ∧
    AnimalMatch.lock am_demo_mismatch = false)).
Proof.
  split.
  - apply (proj1 pause_while_two_cards_up demo_pool 3 [] [0; 2] 1000%N
             mm_demo_round 1 mm_demo_mismatch).
    + reflexivity.
    + exact mm_demo_reach_mismatch.
  - apply (proj2 pause_while_two_cards_up AnimalMatch.empty_session 3 [] [0; 2]
             am_demo_round 1 am_demo_mismatch).
    + reflexivity.
    + exact am_demo_reach_mismatch.
Defined.

(** A finished round is frozen: no sequence of redraws and taps changes
    anything in it, so only a new game ends it.  (For match.py: in a round
    begun with no hide scheduled.) *)
Theorem finished_round_is_frozen :
  (∀ pool pairs picks order t0 s0 k (s : MemoryMatch.session) es k' s',
     MemoryMatch.new_game pool pairs picks order t0 = inr s0 →
     MemoryMatch.reach s0 k s → MemoryMatch.finished s = true →
     MemoryMatch.play k s es = Some (k', s') → k' = k ∧ s' = s) ∧
  (∀ prev pairs picks order s0 k (s : AnimalMatch.session) es k' s',
     AnimalMatch.hide_at prev = 0%N →
     AnimalMatch.new_game prev pairs picks order = inr s0 →
     AnimalMatch.reach s0 k s → AnimalMatch.finished s = true →
     AnimalMatch.play k s es = Some (k', s') → k' = k ∧ s' = s).
Proof.
  split.
  - intros pool pairs picks order t0 s0 k s es k' s' Hnew Hreach Hfin.
    apply MemoryMatchFacts.mm_new_game_inr in Hnew as [Hfresh _].
    by apply (MemoryMatchRounds.mmr_finished_frozen s0).
  - intros prev pairs picks order s0 k s es k' s' Hprev Hnew Hreach Hfin.
    assert (AnimalMatch.hide_at s0 = 0%N) as Hclean.
    { unfold AnimalMatch.new_game in Hnew.
      destruct (Py.sample _ _ _); [done|]. by injection Hnew as <-. }
    apply AnimalMatchFacts.am_new_game_inr in Hnew as [Hfresh _].
    by apply (AnimalMatchRounds.amr_finished_frozen s0).
Qed.

Lemma finished_round_is_frozen_witness :
  (3 = 3 ∧ mm_demo_won = mm_demo_won) ∧ (3 = 3 ∧ am_demo_won = am_demo_won).
Proof.
  split.
  - apply (proj1 finished_round_is_frozen demo_pool 3 [] [0; 2] 1000%N
             mm_demo_round 3 mm_demo_won
             [MemoryMatch.Flip 9000 0; MemoryMatch.Tick 9500;
              MemoryMatch.Flip 9900 5]).
    + reflexivity.
    + exact mm_demo_reach_won.
    + reflexivity.
    + by vm_compute.
  - apply (proj2 finished_round_is_frozen AnimalMatch.empty_session 3 [] [0; 2]
             am_demo_round 3 am_demo_won
             [AnimalMatch.Flip 9000 0; AnimalMatch.Tick 9500;
              AnimalMatch.Flip 9900 5]).
    + reflexivity.
    + reflexivity.
    + exact am_demo_reach_won.
    + reflexivity.
    + by vm_compute.
Defined.

(** Counting in a round of [pairs] pairs: the pair-comparisons that ended
    in a match never exceed [pairs], the move counter is never below their
    number, and (for a positive [pairs]) the round is finished exactly when
    they number [pairs].  So the total shown for a finished round is at
    least [pairs]. *)
Theorem matches_moves_and_pairs :
  (∀ pool pairs picks order t0 s0 k (s : MemoryMatch.session),
     MemoryMatch.new_game pool pairs picks order t0 = inr s0 →
     MemoryMatch.reach s0 k s →
     k ≤ pairs ∧ (Z.of_nat k ≤ MemoryMatch.moves s)%Z ∧
     (0 < pairs → (MemoryMatch.finished s = true ↔ k = pairs))) ∧
  (∀ prev pairs picks order s0 k (s : AnimalMatch.session),
     AnimalMatch.new_game prev pairs picks order = inr s0 →
     AnimalMatch.reach s0 k s →
     k ≤ pairs ∧ (Z.of_nat k ≤ AnimalMatch.moves s)%Z ∧
     (0 < pairs → (AnimalMatch.finished s = true ↔ k = pairs))).
Proof.
  split.
  - exact MemoryMatchRounds.mmr_counts.
  - exact AnimalMatchRounds.amr_counts.
Qed.

Lemma matches_moves_and_pairs_witness :
  (3 ≤ 3 ∧ (Z.of_nat 3 ≤ MemoryMatch.moves mm_demo_won)%Z ∧
   (0 < 3 → (MemoryMatch.finished mm_demo_won = true ↔ 3 = 3))) ∧
  (1 ≤ 3 ∧ (Z.of_nat 1 ≤ AnimalMatch.moves am_demo_mismatch)%Z ∧
   (0 < 3 → (AnimalMatch.finished am_demo_mismatch = true ↔ 1 = 3))).
Proof.
  split.
  - apply (proj1 matches_moves_and_pairs demo_pool 3 [] [0; 2] 1000%N
             mm_demo_round 3 mm_demo_won).
    + reflexivity.
    + exact mm_demo_reach_won.
  - apply (proj2 matches_moves_and_pairs AnimalMatch.empty_session 3 [] [0; 2]
             am_demo_round 1 am_demo_mismatch).
    + reflexivity.
    + exact am_demo_reach_mismatch.
Defined.

(** ** Runs of match.py *)

(** The session state the script installs at first is a round (with an
    empty deck), and a run keeps a round a round: whatever the buttons
    report, with a pair count the animal list can serve and the tapped card,
    if any, one of the deck, the run raises nothing and leaves a session in
    which at most two cards are face-up, no card is both face-up and solved,
    the solved cards are cards of the deck and even in number, a finished
    round has every card solved, and the lock is on exactly while two cards
    are face-up. *)
Theorem match_py_runs_keep_the_round :
  AnimalMatchPage.in_round (AnimalMatchPage.state AnimalMatchPage.blank) ∧
  ∀ inp pg,
    AnimalMatchPage.in_round (AnimalMatchPage.state pg) →
    AnimalMatchPage.in_pairs inp ≤ length AnimalMatch.ANIMALS →
    (∀ i, AnimalMatchPage.in_tapped inp = Some i →
          on_board (AnimalMatch.deck (AnimalMatchPage.state pg)) i) →
    AnimalMatchPage.raised (AnimalMatchPage.script inp pg) = None ∧
    AnimalMatchPage.in_round
      (AnimalMatchPage.state (AnimalMatchPage.after (AnimalMatchPage.script inp pg))) ∧
    let s := AnimalMatchPage.state
               (AnimalMatchPage.after (AnimalMatchPage.script inp pg)) in
    size (AnimalMatch.revealed s) ≤ 2 ∧
    AnimalMatch.revealed s ∩ AnimalMatch.matched s = ∅ ∧
    AnimalMatch.matched s ⊆ board (AnimalMatch.deck s) ∧
    Nat.Even (size (AnimalMatch.matched s)) ∧
    (AnimalMatch.finished s = true →
     AnimalMatch.matched s = board (AnimalMatch.deck s)) ∧
    (AnimalMatch.lock s = true ↔ size (AnimalMatch.revealed s) = 2).
Proof.
  split.
  - exists AnimalMatch.empty_session, 0. split; [by vm_compute|].
    apply AnimalMatch.reach_new.
  - intros inp pg Hround Hpairs Htap.
    destruct (AnimalMatchPageFacts.amp_script_round inp pg Hround Hpairs Htap)
      as (Hraised & s0 & k & Hfresh & Hreach).
    split; [done|]. split; [by exists s0, k|]. cbn zeta.
    destruct (AnimalMatchFacts.am_reach_inv s0 k _ Hfresh Hreach) as [[] _].
    destruct (AnimalMatchRounds.amr_pause_inv s0 k _ Hfresh Hreach)
      as [Hpause _].
    split; [done|]. split; [by apply disjoint_intersection_L|].
    split; [done|]. split; [by exists k|]. split; [|done].
    intros Hfin. apply covers_board; auto.
Qed.

Lemma match_py_runs_keep_the_round_witness :
  AnimalMatchPage.raised
    (AnimalMatchPage.script (amp_run (Some 3%Z) 5000)
       (AnimalMatchPage.Page
          (state_of (AnimalMatch.on_card_click 4000 am_demo_round 2)) 0)) = None ∧
  size (AnimalMatch.revealed
          (AnimalMatchPage.state
             (AnimalMatchPage.after
                (AnimalMatchPage.script (amp_run (Some 3%Z) 5000)
                   (AnimalMatchPage.Page
                      (state_of (AnimalMatch.on_card_click 4000 am_demo_round 2))
                      0))))) ≤ 2.
Proof.
  destruct (proj2 match_py_runs_keep_the_round (amp_run (Some 3%Z) 5000)
              (AnimalMatchPage.Page
                 (state_of (AnimalMatch.on_card_click 4000 am_demo_round 2)) 0))
    as (Hraised & _ & Hsize & _).
  - exists am_demo_round, (0 + good_matches
                             (AnimalMatch.on_card_click 4000 am_demo_round 2)).
    split; [by vm_compute|].
    apply AnimalMatch.reach_flip; [apply AnimalMatch.reach_new|].
    unfold on_board. cbn. lia.
  - cbn. lia.
  - intros i [= <-]. unfold on_board. cbn [AnimalMatchPage.state].
    rewrite AnimalMatchFacts.am_click_deck. cbn. lia.
  - split; [exact Hraised|exact Hsize].
Defined.

(** While match.py is locked on a mismatch, a run only checks the deadline:
    a tap handled by that run is dropped (even when the deadline has
    passed, since the callback comes before the check), no card is drawn,
    and the run ends in [st.rerun()].  Before the deadline the session is
    left as it is; at or after it the two cards are hidden and the lock and
    the deadline are cleared. *)
Theorem match_py_locked_run inp pg :
  AnimalMatch.lock (AnimalMatchPage.state pg) = true →
  AnimalMatch.hide_at (AnimalMatchPage.state pg) ≠ 0%N →
  AnimalMatchPage.in_new_game inp = false →
  AnimalMatch.deck (AnimalMatchPage.state pg) ≠ [] →
  AnimalMatchPage.drawn (AnimalMatchPage.script inp pg) = [] ∧
  AnimalMatchPage.rerun (AnimalMatchPage.script inp pg) = true ∧
  AnimalMatchPage.raised (AnimalMatchPage.script inp pg) = None ∧
  ((AnimalMatchPage.in_t_hide inp < AnimalMatch.hide_at (AnimalMatchPage.state pg))%N →
   AnimalMatchPage.state (AnimalMatchPage.after (AnimalMatchPage.script inp pg))
     = AnimalMatchPage.state pg) ∧
  ((AnimalMatch.hide_at (AnimalMatchPage.state pg) ≤ AnimalMatchPage.in_t_hide inp)%N →
   AnimalMatchPage.state (AnimalMatchPage.after (AnimalMatchPage.script inp pg))
     = AnimalMatch.set_hide_at 0
         (AnimalMatch.set_lock false
            (AnimalMatch.set_revealed ∅ (AnimalMatchPage.state pg)))).
Proof.
  intros Hlock Hhide Hnew Hdeck.
  rewrite (AnimalMatchPageFacts.amp_locked_run inp pg Hlock Hhide Hnew Hdeck).
  cbn [AnimalMatchPage.after AnimalMatchPage.drawn AnimalMatchPage.rerun
       AnimalMatchPage.raised AnimalMatchPage.state].
  split; [done|]. split; [done|]. split; [done|]. split.
  - intros Hearly.
    destruct (AnimalMatchFacts.am_tick_cases (AnimalMatchPage.in_t_hide inp)
                (AnimalMatchPage.state pg)) as [[-> _]|(_ & _ & ?)]; [done|lia].
  - intros Hdue. by apply AnimalMatchFacts.am_tick_due.
Qed.

Lemma match_py_locked_run_witness :
  AnimalMatchPage.drawn
    (AnimalMatchPage.script (amp_run (Some 4%Z) 5900)
       (AnimalMatchPage.Page am_demo_mismatch 0)) = [] ∧
  AnimalMatchPage.rerun
    (AnimalMatchPage.script (amp_run (Some 4%Z) 5900)
       (AnimalMatchPage.Page am_demo_mismatch 0)) = true ∧
  AnimalMatchPage.raised
    (AnimalMatchPage.script (amp_run (Some 4%Z) 5900)
       (AnimalMatchPage.Page am_demo_mismatch 0)) = None ∧
  ((5900 < 5850)%N →
   AnimalMatchPage.state
     (AnimalMatchPage.after
        (AnimalMatchPage.script (amp_run (Some 4%Z) 5900)
           (AnimalMatchPage.Page am_demo_mismatch 0))) = am_demo_mismatch) ∧
  ((5850 ≤ 5900)%N →
   AnimalMatchPage.state
     (AnimalMatchPage.after
        (AnimalMatchPage.script (amp_run (Some 4%Z) 5900)
           (AnimalMatchPage.Page am_demo_mismatch 0)))
     = AnimalMatch.set_hide_at 0
         (AnimalMatch.set_lock false
            (AnimalMatch.set_revealed ∅ am_demo_mismatch))).
Proof.
  apply (match_py_locked_run (amp_run (Some 4%Z) 5900)
           (AnimalMatchPage.Page am_demo_mismatch 0)).
  - reflexivity.
  - discriminate.
  - reflexivity.
  - discriminate.
Defined.
